(** * claude-voice: session handling, endpointing, calibration and
      transcript filtering

    A shallow embedding of the decision logic of the voice assistant
    (package [voice_assistant]) together with the properties its
    specification states about it.

    Conventions of the embedding.
    - A Python [str] is the list of its code points ([pystr]); the
      literal [py "abc"] stands for the Python literal ['abc'].
    - A Python [float] that is neither NaN nor infinite is a rational
      number, and so is an [int]: clock readings, durations and speech
      probabilities are values of [Q].  Comparisons are then exact.
      The rounding of float arithmetic is not modelled, and the float
      square root is a parameter ([fsqrt]).  Amplitudes, the noise
      floor and the silence threshold, which the mean of an empty
      array makes NaN, are values of [pyfloat], a number or NaN.
    - The session files are text files: what is written to them and
      what is read back differ as text mode on a POSIX system makes
      them differ.
    - Everything the program obtains from outside (the clock, the audio
      device, the speech-probability model, the recognition model, the
      external assistant process, the JSON parser) is an explicit input
      of the function that consumes it.
    - A loop that waits for input is a recursion over the list of
      inputs still to come; [Pending] is the answer of a loop that has
      consumed all of the list and is still waiting. *)

From Stdlib Require Import ZArith NArith QArith Qround List String Ascii Bool Lia Lqa.
From stdpp Require Import gmap strings.
Import ListNotations.

Local Open Scope list_scope.

(** ** Python values *)

Module Py.

(** A Python string: its code points, in order. *)
Definition pystr := list N.

Definition py (s : string) : pystr :=
  map N_of_ascii (list_ascii_of_string s).

Fixpoint str_eqb (a b : pystr) : bool :=
  match a, b with
  | [], [] => true
  | x :: a', y :: b' => (x =? y)%N && str_eqb a' b'
  | _, _ => false
  end.

(** [x in [a, b, ...]] for strings. *)
Definition str_in (x : pystr) (l : list pystr) : bool :=
  existsb (str_eqb x) l.

Definition between (lo hi c : N) : bool := ((lo <=? c) && (c <=? hi))%N.

(** [str.isspace] of one character, which is also what [str.strip()]
    removes and what the pattern [\s] matches on a [str]. *)
Definition isspace (c : N) : bool :=
  between 9 13 c || between 28 32 c || (c =? 133)%N || (c =? 160)%N
  || (c =? 5760)%N || between 8192 8202 c || (c =? 8232)%N
  || (c =? 8233)%N || (c =? 8239)%N || (c =? 8287)%N || (c =? 12288)%N.

Fixpoint lstrip (s : pystr) : pystr :=
  match s with
  | [] => []
  | c :: t => if isspace c then lstrip t else s
  end.

Definition rstrip (s : pystr) : pystr := rev (lstrip (rev s)).

(** [s.strip()] *)
Definition strip (s : pystr) : pystr := rstrip (lstrip s).

Definition is_ascii (c : N) : bool := (c <? 128)%N.

Definition is_digit (c : N) : bool := between 48 57 c.
Definition is_upper (c : N) : bool := between 65 90 c.
Definition is_lower (c : N) : bool := between 97 122 c.

(** [needle in hay] for two strings. *)
Fixpoint is_prefix (p s : pystr) : bool :=
  match p, s with
  | [], _ => true
  | _ :: _, [] => false
  | a :: p', b :: s' => (a =? b)%N && is_prefix p' s'
  end.

Fixpoint is_infix (p s : pystr) : bool :=
  is_prefix p s ||
  match s with
  | [] => false
  | _ :: s' => is_infix p s'
  end.

(** Truth value of an optional number ([if timeout and ...]). *)
Definition truthy (t : option Q) : bool :=
  match t with
  | None => false
  | Some q => negb (Qeq_bool q 0)
  end.

(** [x > y] on numbers. *)
Definition gt (x y : Q) : bool := negb (Qle_bool x y).

(** [max(a, b)]: the first argument unless the second is greater. *)
Definition max2 (a b : Q) : Q := if gt b a then b else a.

(** A float: a number, or NaN.  The numbers are rationals: rounding
    and the infinities are not modelled. *)
Inductive pyfloat : Type :=
| Num (q : Q)
| NaN.

(** [a > b] on floats: false when either is NaN. *)
Definition fgt (a b : pyfloat) : bool :=
  match a, b with
  | Num x, Num y => gt x y
  | _, _ => false
  end.

(** [max(a, b)] on floats. *)
Definition fmax (a b : pyfloat) : pyfloat := if fgt b a then b else a.

Definition fadd (a b : pyfloat) : pyfloat :=
  match a, b with
  | Num x, Num y => Num (x + y)
  | _, _ => NaN
  end.

Definition fsub (a b : pyfloat) : pyfloat :=
  match a, b with
  | Num x, Num y => Num (x - y)
  | _, _ => NaN
  end.

Definition fmul (a b : pyfloat) : pyfloat :=
  match a, b with
  | Num x, Num y => Num (x * y)
  | _, _ => NaN
  end.

(** Truth value of a float: every float but zero is true, NaN too. *)
Definition float_truthy (a : pyfloat) : bool :=
  match a with
  | Num q => negb (Qeq_bool q 0)
  | NaN => true
  end.

End Py.

Import Py.

(** ** Configuration (config/settings.py) *)

Record AudioConfig := {
  chunk_size : Z;
  channels : Z;
  sample_rate : Z;
  silence_threshold : pyfloat;
  silence_duration : Q;
  noise_floor : option pyfloat;
  calibration_samples : nat
}.

Record VADConfig := {
  enabled : bool;
  speech_start_threshold : Q;
  speech_continue_threshold : Q;
  pre_buffer_size : nat;
  vad_chunk_size : Z;
  min_speech_chunks : Z;
  consecutive_speech_needed : Z;
  inactivity_timeout : Q
}.

Record TranscriptionConfig := {
  min_audio_length : Q
}.

Definition default_audio : AudioConfig :=
  {| chunk_size := 1024; channels := 1; sample_rate := 16000;
     silence_threshold := Num 1000; silence_duration := 2;
     noise_floor := None; calibration_samples := 50 |}.

Definition default_vad : VADConfig :=
  {| enabled := true;
     speech_start_threshold := 85 # 100;
     speech_continue_threshold := 5 # 10;
     pre_buffer_size := 10;
     vad_chunk_size := 512;
     min_speech_chunks := 3;
     consecutive_speech_needed := 2;
     inactivity_timeout := 120 |}.

Definition default_transcription : TranscriptionConfig :=
  {| min_audio_length := 5 # 10 |}.

(** A chunk of audio as the device delivers it: raw bytes. *)
Definition chunk := list Byte.byte.

(** ** Transcript post-filter (transcription/whisper.py) *)

Module Whisper.

(** The strings that count as noise. *)
Definition noise_strings : list pystr :=
  [py "."; py ","; py "?"; py "!"; py "..."; py "---"].

(** [WhisperTranscriber.transcribe].  [model_loaded] is the truth
    value of [self.model]; [recognised] is [result["text"]], the text
    the recognition model returns for the frames.  The sample rate is
    not 0 (the interpreter raises on the division otherwise).  The
    quotient is taken on rationals; the rounding of the float division
    is not modelled. *)
Definition transcribe (config : TranscriptionConfig) (audio_config : AudioConfig)
    (model_loaded : bool) (recognised : pystr) (audio_frames : list chunk)
    : option pystr :=
  if negb model_loaded || (Nat.eqb (length audio_frames) 0) then None
  else
    let text := strip recognised in
    let audio_duration :=
      (inject_Z (Z.of_nat (length audio_frames) * chunk_size audio_config)
       / inject_Z (sample_rate audio_config))%Q in
    if gt (min_audio_length config) audio_duration then None
    else
      let text := if forallb is_ascii text then text else List.filter is_ascii text in
      if (length text <=? 1)%nat || str_in text noise_strings then None
      else Some text.

End Whisper.

(** ** Goodbye detection (core/interface.py) *)

Module Interface.

Section Goodbye.

(** The Unicode tables of the interpreter for the characters outside
    ASCII: the lower-case mapping of a character (several characters
    for some) and its alphanumeric class.  The special treatment of
    a final capital sigma by [str.lower] is not modelled. *)
Variable unicode_lower : N -> pystr.
Variable unicode_alnum : N -> bool.

Definition lower_char (c : N) : pystr :=
  if is_ascii c then [if is_upper c then (c + 32)%N else c]
  else unicode_lower c.

(** [text.lower()] *)
Definition lower (text : pystr) : pystr := flat_map lower_char text.

(** The class [\w] of the pattern language. *)
Definition word_char (c : N) : bool :=
  if is_ascii c
  then is_digit c || is_upper c || is_lower c || (c =? 95)%N
  else unicode_alnum c.

(** [re.sub(r'[^\w\s]', '', s)] *)
Definition remove_punctuation (s : pystr) : pystr :=
  List.filter (fun c => word_char c || isspace c) s.

Definition goodbye_phrases : list pystr :=
  [py "goodbye"; py "bye"; py "bye bye"; py "see you";
   py "see you later"; py "talk to you later"; py "exit"; py "quit"].

Definition clean_text (text : pystr) : pystr :=
  strip (remove_punctuation (lower text)).

Definition _is_goodbye_command (text : pystr) : bool :=
  str_in (clean_text text) goodbye_phrases.

End Goodbye.

End Interface.

(** ** Recording and calibration (audio/recorder.py) *)

Module Recorder.

(** What a waiting loop answers: a result, or nothing yet because the
    inputs supplied so far have been consumed. *)
Inductive run (A : Type) : Type :=
| Done (a : A)
| Pending.
Arguments Done {A} a.
Arguments Pending {A}.

(** [struct.unpack(f"{n}h", data)]: signed 16-bit samples in the byte
    order of the machine (little-endian here).  The device delivers
    two bytes per sample; on data of odd length the interpreter
    raises, while this function ignores the last byte. *)
Fixpoint unpack_shorts (data : chunk) : list Z :=
  match data with
  | lo :: hi :: rest =>
      let u := (Z.of_N (Byte.to_N lo) + 256 * Z.of_N (Byte.to_N hi))%Z in
      (if (u <? 32768)%Z then u else (u - 65536)%Z) :: unpack_shorts rest
  | _ => []
  end.

(** The sum of an array of floats. *)
Definition fsum (l : list pyfloat) : pyfloat := fold_right fadd (Num 0) l.

(** [np.mean]: the sum over the number of elements, which is NaN for
    an empty array and for an array that holds a NaN. *)
Definition mean (l : list pyfloat) : pyfloat :=
  match l with
  | [] => NaN
  | _ :: _ =>
      match fsum l with
      | Num total => Num (total / inject_Z (Z.of_nat (length l)))
      | NaN => NaN
      end
  end.

Section Amplitude.

(** The square root on the numbers that are floats. *)
Variable fsqrt : Q -> Q.

(** [np.sqrt] *)
Definition sqrt (a : pyfloat) : pyfloat :=
  match a with
  | Num x => Num (fsqrt x)
  | NaN => NaN
  end.

(** [np.std]: the population standard deviation. *)
Definition std (l : list pyfloat) : pyfloat :=
  let m := mean l in
  sqrt (mean (map (fun x => fmul (fsub x m) (fsub x m)) l)).

(** [_get_audio_amplitude]: NaN for a chunk without a sample. *)
Definition _get_audio_amplitude (data : chunk) : pyfloat :=
  sqrt (mean (map (fun s => Num (inject_Z (s * s))) (unpack_shorts data))).

(** [_load_calibration].  [saved] is [None] when the calibration
    file is absent or unreadable, and otherwise the float stored
    under ["noise_floor"], if any. *)
Definition _load_calibration (cfg : AudioConfig)
    (saved : option (option pyfloat)) : AudioConfig :=
  match saved with
  | None => cfg
  | Some nf =>
      let thr :=
        match nf with
        | Some v =>
            if float_truthy v
            then fmax (fmul v (Num 3)) (silence_threshold cfg)
            else silence_threshold cfg
        | None => silence_threshold cfg
        end in
      {| chunk_size := chunk_size cfg; channels := channels cfg;
         sample_rate := sample_rate cfg;
         silence_threshold := thr;
         silence_duration := silence_duration cfg;
         noise_floor := nf;
         calibration_samples := calibration_samples cfg |}
  end.

(** The amplitudes of the chunks read during calibration;
    [stream i] is the chunk that the [i]-th read returns. *)
Definition calibration_amplitudes (cfg : AudioConfig) (stream : nat -> chunk)
    : list pyfloat :=
  map (fun i => _get_audio_amplitude (stream i))
      (seq 0 (calibration_samples cfg)).

(** [calibrate_noise_floor]: the configuration it leaves behind. *)
Definition calibrate_noise_floor (cfg : AudioConfig) (stream : nat -> chunk)
    : AudioConfig :=
  let amplitudes := calibration_amplitudes cfg stream in
  let nf := fadd (mean amplitudes) (fmul (Num 2) (std amplitudes)) in
  let adaptive_threshold := fmul nf (Num 3) in
  {| chunk_size := chunk_size cfg; channels := channels cfg;
     sample_rate := sample_rate cfg;
     silence_threshold := fmax adaptive_threshold (Num 1000);
     silence_duration := silence_duration cfg;
     noise_floor := Some nf;
     calibration_samples := calibration_samples cfg |}.

(** [_save_calibration]: what the calibration file holds afterwards,
    in the form [_load_calibration] reads it. *)
Definition _save_calibration (cfg : AudioConfig) : option (option pyfloat) :=
  Some (noise_floor cfg).

(** *** Amplitude endpointer *)

(** One turn of the reading loop: the clock as the timeout test
    reads it and the chunk the device then delivers, or the
    keyboard interrupt. *)
Inductive amp_event : Type :=
| AChunk (now : Q) (data : chunk)
| AInterrupt.

(** [(time.time() - start_time) > timeout], guarded by [timeout and]. *)
Definition timed_out (timeout : option Q) (start_time now : Q) : bool :=
  match timeout with
  | Some t => truthy timeout && gt (now - start_time)%Q t
  | None => false
  end.

(** After the loop of [record_with_amplitude]. *)
Definition amp_finish (frames : list chunk) : option (list chunk) :=
  match frames with
  | [] => None
  | _ => Some (if (20 <? length frames)%nat
               then firstn (length frames - 10) frames
               else frames)
  end.

Fixpoint amp_loop (cfg : AudioConfig) (timeout : option Q) (start_time : Q)
    (frames : list chunk) (silent_chunks : Z) (recording_started : bool)
    (evs : list amp_event) : run (option (list chunk)) :=
  match evs with
  | [] => Pending
  | AInterrupt :: _ => Done None
  | AChunk now data :: rest =>
      if timed_out timeout start_time now && negb recording_started
      then Done (amp_finish frames)
      else
        let amplitude := _get_audio_amplitude data in
        if fgt amplitude (silence_threshold cfg)
        then amp_loop cfg timeout start_time (frames ++ [data]) 0%Z true rest
        else if recording_started
        then
          let frames := frames ++ [data] in
          let silent_chunks := (silent_chunks + 1)%Z in
          let silence_time :=
            (inject_Z (silent_chunks * chunk_size cfg)
             / inject_Z (sample_rate cfg))%Q in
          if gt silence_time (silence_duration cfg)
          then Done (amp_finish frames)
          else amp_loop cfg timeout start_time frames silent_chunks true rest
        else amp_loop cfg timeout start_time frames silent_chunks false rest
  end.

(** [record_with_amplitude(timeout, quiet)]; [start_time] is the
    clock when the call starts.  [quiet] only selects messages.  The
    device opens and the sample rate is not 0. *)
Definition record_with_amplitude (cfg : AudioConfig) (timeout : option Q)
    (start_time : Q) (evs : list amp_event) : run (option (list chunk)) :=
  amp_loop cfg timeout start_time [] 0%Z false evs.

(** An input that cannot start a recording: a chunk whose amplitude
    does not exceed the silence threshold, or the interrupt. *)
Definition quiet (cfg : AudioConfig) (ev : amp_event) : Prop :=
  match ev with
  | AChunk _ data =>
      fgt (_get_audio_amplitude data) (silence_threshold cfg) = false
  | AInterrupt => True
  end.

(** A chunk read when the clock shows the given time. *)
Definition chunk_event (p : Q * chunk) : amp_event := AChunk (fst p) (snd p).

(** A chunk that starts or continues a recording. *)
Definition loud (cfg : AudioConfig) (data : chunk) : Prop :=
  fgt (_get_audio_amplitude data) (silence_threshold cfg) = true.

(** The duration of [n] chunks of silence, as the loop computes it. *)
Definition silence_time (cfg : AudioConfig) (n : Z) : Q :=
  (inject_Z (n * chunk_size cfg) / inject_Z (sample_rate cfg))%Q.

(** *** Probabilistic endpointer *)

(** One turn of the loop of [record_with_vad]: the clock at the
    timeout test and at the inactivity test, the chunk read, the
    probability the speech model gives it, and the clock where the
    body of the loop reads it. *)
Record vad_tick := {
  t_timeout : Q;
  t_watchdog : Q;
  data : chunk;
  speech_prob : Q;
  t_body : Q
}.

Inductive vad_event : Type :=
| VChunk (tk : vad_tick)
| VInterrupt.

(** The probability above which a chunk may be speech. *)
Definition maybe_speech : Q := 6 # 10.

(** [collections.deque(maxlen=n).append] *)
Definition deque_append (maxlen : nat) (dq : list chunk) (x : chunk)
    : list chunk :=
  let l := dq ++ [x] in skipn (length l - maxlen) l.

(** The backward scan of [_trim_silence_with_vad] over the indices
    below [n]; [probs i] is the probability the model gives frame
    [i] when the scan evaluates it. *)
Fixpoint last_speech_index (probs : nat -> Q) (n : nat) (default : nat) : nat :=
  match n with
  | O => default
  | S i => if gt (probs i) maybe_speech then i
           else last_speech_index probs i default
  end.

Definition _trim_silence_with_vad (vad_model : bool) (probs : nat -> Q)
    (frames : list chunk) : list chunk :=
  if negb vad_model || (length frames <? 20)%nat then frames
  else
    let last := last_speech_index probs (length frames) (length frames - 1) in
    let trim_index := Nat.min (last + 10) (length frames) in
    firstn trim_index frames.

(** How the loop of [record_with_vad] ends. *)
Inductive loop_exit : Type :=
| Broke (frames : list chunk) (recording_started : bool)
| Cancelled.

Fixpoint vad_loop (cfg : AudioConfig) (vcfg : VADConfig) (timeout : option Q)
    (start_time : Q) (frames pre_buffer : list chunk)
    (recording_started : bool) (consecutive_speech_count : Z)
    (silence_start_time : option Q) (last_activity_time : Q)
    (evs : list vad_event) : run loop_exit :=
  match evs with
  | [] => Pending
  | VInterrupt :: _ => Done Cancelled
  | VChunk tk :: rest =>
      if timed_out timeout start_time (t_timeout tk) && negb recording_started
      then Done (Broke frames recording_started)
      else if gt (t_watchdog tk - last_activity_time)%Q (inactivity_timeout vcfg)
      then Done (Broke frames recording_started)
      else
        let is_speech :=
          if recording_started
          then gt (speech_prob tk) (speech_continue_threshold vcfg)
          else gt (speech_prob tk) (speech_start_threshold vcfg) in
        let pre_buffer :=
          if negb recording_started && gt (speech_prob tk) maybe_speech
          then deque_append (pre_buffer_size vcfg) pre_buffer (data tk)
          else pre_buffer in
        if is_speech
        then
          let count := (consecutive_speech_count + 1)%Z in
          let required_chunks :=
            if negb recording_started
            then consecutive_speech_needed vcfg
            else min_speech_chunks vcfg in
          if negb recording_started && (required_chunks <=? count)%Z
          then vad_loop cfg vcfg timeout start_time
                 ((frames ++ pre_buffer) ++ [data tk]) [] true count
                 None (t_body tk) rest
          else if recording_started
          then vad_loop cfg vcfg timeout start_time
                 (frames ++ [data tk]) pre_buffer true count
                 None (t_body tk) rest
          else vad_loop cfg vcfg timeout start_time
                 frames pre_buffer false count
                 silence_start_time (t_body tk) rest
        else
          if recording_started
          then
            let frames := frames ++ [data tk] in
            match silence_start_time with
            | None =>
                vad_loop cfg vcfg timeout start_time frames pre_buffer
                  true 0%Z (Some (t_body tk)) last_activity_time rest
            | Some s =>
                if gt (t_body tk - s)%Q (silence_duration cfg)
                then Done (Broke frames true)
                else vad_loop cfg vcfg timeout start_time frames pre_buffer
                       true 0%Z silence_start_time last_activity_time rest
            end
          else vad_loop cfg vcfg timeout start_time frames pre_buffer
                 false 0%Z silence_start_time last_activity_time rest
  end.

(** [record_with_vad(timeout, quiet)].  [vad_model] tells whether
    the speech model is loaded; [start_time] and [last_activity0]
    are the two clock readings before the loop; [rescore frames i]
    is the probability the model gives [frames[i]] in the trimming
    pass; [fallback] are the inputs of the amplitude endpointer,
    used when the model is not loaded. *)
Definition record_with_vad (cfg : AudioConfig) (vcfg : VADConfig)
    (vad_model : bool) (timeout : option Q)
    (start_time last_activity0 : Q) (evs : list vad_event)
    (rescore : list chunk -> nat -> Q) (fallback : list amp_event)
    : run (option (list chunk)) :=
  if negb vad_model
  then record_with_amplitude cfg timeout start_time fallback
  else
    match vad_loop cfg vcfg timeout start_time [] [] false 0%Z None
            last_activity0 evs with
    | Pending => Pending
    | Done Cancelled => Done None
    | Done (Broke frames recording_started) =>
        match frames with
        | [] => Done None
        | _ =>
            if negb recording_started then Done None
            else Done (Some (_trim_silence_with_vad vad_model
                               (rescore frames) frames))
        end
    end.

(** An input of the probabilistic endpointer that does not meet the
    start threshold, or the interrupt. *)
Definition below_start (vcfg : VADConfig) (ev : vad_event) : Prop :=
  match ev with
  | VChunk tk => (speech_prob tk <= speech_start_threshold vcfg)%Q
  | VInterrupt => True
  end.

(** *** One utterance, as the probabilistic endpointer sees it *)

(** What the endpointer observes of a chunk apart from the clock. *)
Definition observed (tk : vad_tick) : chunk * Q := (data tk, speech_prob tk).

(** The pre-buffer after the given chunks have gone by before the
    start of a recording. *)
Definition prebuffer_after (vcfg : VADConfig) (pre_buffer : list chunk)
    (ticks : list vad_tick) : list chunk :=
  fold_left
    (fun pb tk =>
       if gt (speech_prob tk) maybe_speech
       then deque_append (pre_buffer_size vcfg) pb (data tk)
       else pb)
    ticks pre_buffer.

(** The chunks that may be speech, in the order they arrive. *)
Definition maybe_speech_chunks (ticks : list vad_tick) : list chunk :=
  map data (List.filter (fun tk => gt (speech_prob tk) maybe_speech) ticks).

(** Neither the timeout nor the inactivity watchdog stops the loop at
    this chunk; [lo] is a time that no clock reading precedes. *)
Definition on_time (timeout : option Q) (start_time : Q) (tk : vad_tick) : Prop :=
  timed_out timeout start_time (t_timeout tk) = false.

Definition in_window (vcfg : VADConfig) (lo : Q) (tk : vad_tick) : Prop :=
  (lo <= t_body tk)%Q /\ (t_watchdog tk - lo <= inactivity_timeout vcfg)%Q.

(** The trace of one utterance: chunks [pre] that do not meet the
    start threshold, then exactly [consecutive_speech_needed] chunks
    [early ++ [b]] that do, then chunks [s1 :: mid ++ [sk]] that do not
    meet the continue threshold, of which [sk] is the first that the
    clock finds more than [silence_duration] after [s1]. *)
Record utterance (cfg : AudioConfig) (vcfg : VADConfig) (timeout : option Q)
    (start_time last_activity0 lo : Q)
    (pre early : list vad_tick) (b s1 : vad_tick) (mid : list vad_tick)
    (sk : vad_tick) : Prop := {
  u_clock : (lo <= last_activity0)%Q;
  u_needed : consecutive_speech_needed vcfg = (Z.of_nat (length early) + 1)%Z;
  u_pre : Forall (fun tk =>
                    (speech_prob tk <= speech_start_threshold vcfg)%Q /\
                    on_time timeout start_time tk /\ in_window vcfg lo tk) pre;
  u_trigger : Forall (fun tk =>
                        (speech_start_threshold vcfg < speech_prob tk)%Q /\
                        on_time timeout start_time tk /\ in_window vcfg lo tk)
                     (early ++ [b]);
  u_silence : Forall (fun tk =>
                        (speech_prob tk <= speech_continue_threshold vcfg)%Q /\
                        in_window vcfg lo tk)
                     (s1 :: mid ++ [sk]);
  u_waiting : Forall (fun tk => (t_body tk - t_body s1 <= silence_duration cfg)%Q)
                     mid;
  u_end : (silence_duration cfg < t_body sk - t_body s1)%Q
}.

(** The frames the loop has gathered at the end of such an utterance. *)
Definition gathered (vcfg : VADConfig) (pre early : list vad_tick)
    (b : vad_tick) (trailing : list vad_tick) : list chunk :=
  prebuffer_after vcfg [] (pre ++ early ++ [b]) ++ [data b] ++ map data trailing.

(** The trimming pass scores the gathered frames as the loop did: the
    chunk that started the recording as speech, the trailing chunks as
    no speech. *)
Definition rescored_alike (vcfg : VADConfig) (rescore : list chunk -> nat -> Q)
    (pre early : list vad_tick) (b : vad_tick) (trailing : list vad_tick)
    : Prop :=
  let frames := gathered vcfg pre early b trailing in
  let at_b := length (prebuffer_after vcfg [] (pre ++ early ++ [b])) in
  (maybe_speech < rescore frames at_b)%Q /\
  (forall j, (at_b < j < length frames)%nat ->
             (rescore frames j <= maybe_speech)%Q).

End Amplitude.

End Recorder.

(** ** The assistant process and its continuation id (core/claude_client.py) *)

Module Claude.

(** A path, by its components. *)
Definition Path := list string.

(** The files of the session store that exist, with the characters
    they hold on disk.  The files are text files in the encoding of the
    locale, which [read_text] can decode, on a POSIX system, where
    text mode writes a line feed as it is.  Directories are not
    modelled: [mkdir(parents=True, exist_ok=True)] runs before every
    write, in the directory of the file written.  Opening, unlinking
    and reading succeed, and the external process does not write the
    session files itself. *)
Abbreviation Files := (gmap Path pystr).

(** Text mode on reading: a carriage return, together with the line
    feed that follows it if there is one, is read as one line feed. *)
Fixpoint universal_newlines (s : pystr) : pystr :=
  match s with
  | [] => []
  | c :: t =>
      if (c =? 13)%N
      then 10%N :: match t with
                   | [] => []
                   | d :: t' => if (d =? 10)%N then universal_newlines t'
                                else universal_newlines t
                   end
      else c :: universal_newlines t
  end.

(** [Path.read_text()] on a file that holds [content]. *)
Definition read_text (content : pystr) : pystr := universal_newlines content.

#[local] Unset Elimination Schemes.

(** What [json.loads] returns. *)
Inductive pyval : Type :=
| PyNone
| PyBool (b : bool)
| PyInt (n : Z)
| PyFloat (repr : pystr)
| PyStr (s : pystr)
| PyList (l : list pyval)
| PyDict (d : list (pystr * pyval)).

#[local] Set Elimination Schemes.

(** Lookup in a dict, given as its items. *)
Fixpoint dict_get (d : list (pystr * pyval)) (key : pystr) : option pyval :=
  match d with
  | [] => None
  | (k, v) :: d' => if str_eqb k key then Some v else dict_get d' key
  end.

(** The exceptions the handling of a reply can raise. *)
Inductive exc : Type := TypeError | AttributeError | UnicodeEncodeError.

(** How the process is started: the command line, the working
    directory, and the files of the store at that moment. *)
Record invocation := {
  cmd : list pystr;
  cwd : Path;
  files : Files
}.

(** What running the process gives: [Popen] or [communicate] raises
    an exception with the given text, or the process exits. *)
Inductive outcome : Type :=
| Raises (message : pystr)
| Exits (returncode : Z) (stdout stderr : pystr).

Record result := {
  response : pystr;
  files_after : Files;
  invoked : invocation
}.

Definition default_context : Path := [".context"%string].

Definition session_file_of (profile_path : option Path) : Path :=
  match profile_path with
  | Some p => p ++ [".session_id"%string]
  | None => default_context ++ [".session_id"%string]
  end.

Definition base_cmd : list pystr :=
  [py "claude"; py "--print"; py "--output-format"; py "json"].

Section Client.

(** [json.loads]; [None] when it raises [JSONDecodeError]. *)
Variable json_loads : pystr -> option pyval.
(** [str(e)] for the exceptions of the interpreter. *)
Variable exc_text : exc -> pystr.
(** The characters that the encoding of the locale has. *)
Variable encodable : N -> bool.

(** What a file holds after [write_text(data)]: opening the file for
    writing empties it, and the text is written only if all of it can
    be encoded. *)
Definition written (data : pystr) : pystr :=
  if forallb encodable data then data else [].

(** [Path.write_text(data)] for a string: the store afterwards, and
    whether the call returned; otherwise it raised
    [UnicodeEncodeError]. *)
Definition write_text (fs : Files) (p : Path) (data : pystr) : Files * bool :=
  (<[p := written data]> fs, forallb encodable data).

(** The last line of the handling of a reply, on a dict: the value
    under [result], or the empty string when there is none, stripped. *)
Definition get_result (d : list (pystr * pyval)) : exc + pystr :=
  match dict_get d (py "result") with
  | Some (PyStr r) => inr (strip r)
  | Some _ => inl AttributeError
  | None => inr (strip [])
  end.

(** The part of [send_query] that follows a parsed reply: the
    files afterwards and the text returned, or the exception. *)
Definition handle_reply (fs : Files) (session_file : Path)
    (response_data : pyval) : Files * (exc + pystr) :=
  match response_data with
  | PyDict d =>
      match dict_get d (py "session_id") with
      | Some (PyStr new_session_id) =>
          let '(fs', returned) := write_text fs session_file new_session_id in
          if returned then (fs', get_result d)
          else (fs', inl UnicodeEncodeError)
      | Some _ => (fs, inl TypeError)
      | None => (fs, get_result d)
      end
  | PyList l =>
      if existsb (fun v => match v with
                           | PyStr s => str_eqb s (py "session_id")
                           | _ => false
                           end) l
      then (fs, inl TypeError) else (fs, inl AttributeError)
  | PyStr s =>
      if is_infix (py "session_id") s
      then (fs, inl TypeError) else (fs, inl AttributeError)
  | _ => (fs, inl TypeError)
  end.

Definition error_reply (message : pystr) : pystr := py "Error: " ++ message.

(** [ClaudeClient.send_query(text, profile_path, reset_context)] on
    the store [fs]; [claude] is the external process. *)
Definition send_query (fs : Files) (claude : invocation -> outcome)
    (text : pystr) (profile_path : option Path) (reset_context : bool)
    : result :=
  let session_file := session_file_of profile_path in
  let fs :=
    if reset_context && bool_decide (is_Some (fs !! session_file))
    then delete session_file fs else fs in
  let resume :=
    match fs !! session_file with
    | Some content =>
        if negb reset_context
        then [py "--resume"; strip (read_text content)] else []
    | None => []
    end in
  let inv :=
    {| cmd := (base_cmd ++ resume) ++ [text];
       cwd := match profile_path with
              | Some p => p
              | None => default_context
              end;
       files := fs |} in
  match claude inv with
  | Raises message =>
      {| response := error_reply message; files_after := fs; invoked := inv |}
  | Exits returncode stdout stderr =>
      if negb (returncode =? 0)%Z
      then
        let error_msg :=
          match stderr with
          | [] => py "Unknown error"
          | _ => strip stderr
          end in
        {| response := error_reply error_msg; files_after := fs;
           invoked := inv |}
      else
        match json_loads stdout with
        | None =>
            {| response := strip stdout; files_after := fs; invoked := inv |}
        | Some response_data =>
            let '(fs', r) := handle_reply fs session_file response_data in
            {| response := match r with
                           | inl e => error_reply (exc_text e)
                           | inr t => t
                           end;
               files_after := fs'; invoked := inv |}
        end
  end.

(** The state of [ProfileManager] that a dispatch looks at;
    [session_id] is the identifier [_start_new_session] makes up. *)
Record ProfileManager := {
  context_dir : Path;
  current_profile : option string;
  reset_context_mode : bool;
  session_id : option pystr
}.

Definition get_current_profile_path (pm : ProfileManager) : option Path :=
  match current_profile pm with
  | Some name => if String.eqb name "" then None
                 else Some (context_dir pm ++ [name])
  | None => None
  end.

(** [ProfileManager.reset_context]; [uuid] is the fresh identifier. *)
Definition reset_context (pm : ProfileManager) (uuid : pystr) : ProfileManager :=
  {| context_dir := context_dir pm; current_profile := current_profile pm;
     reset_context_mode := true; session_id := Some uuid |}.

(** [VoiceInterface.send_to_claude]: the dispatch and the profile
    manager afterwards. *)
Definition send_to_claude (pm : ProfileManager) (fs : Files)
    (claude : invocation -> outcome) (text : pystr)
    : result * ProfileManager :=
  let profile_path := get_current_profile_path pm in
  let r := send_query fs claude text profile_path (reset_context_mode pm) in
  (r, {| context_dir := context_dir pm; current_profile := current_profile pm;
         reset_context_mode := false; session_id := session_id pm |}).

(** A call that does not end with a reply object: the process could
    not be run, or it exited with a status other than 0, or its output
    is not JSON, or it is JSON but not an object. *)
Definition failed (o : outcome) : Prop :=
  match o with
  | Raises _ => True
  | Exits returncode stdout _ =>
      returncode <> 0%Z \/
      json_loads stdout = None \/
      exists v, json_loads stdout = Some v /\ forall d, v <> PyDict d
  end.

(** The first eight characters of a string, [s[:8]]. *)
Definition first8 (s : pystr) : pystr := firstn 8 s.

Definition status_prefix : pystr :=
  [128190%N; 32%N] ++ py "Existing session found: ".

(** [VoiceInterface.check_session_status]: the line it prints, if any. *)
Definition check_session_status (pm : ProfileManager) (fs : Files)
    (verbose : bool) : option pystr :=
  let session_file := session_file_of (get_current_profile_path pm) in
  match fs !! session_file with
  | Some content =>
      let session_id := strip (read_text content) in
      Some (status_prefix ++
            (if verbose then session_id else first8 session_id ++ py "..."))
  | None => None
  end.

End Client.

End Claude.

(** ** The cancel listener (core/interface.py, [_listen_for_cancel]) *)

Module Cancel.

(** The threads of a session, as an interleaving of their statements.
    The main thread runs dispatch after dispatch:
    [_start_cancel_listener], [send_query], [_stop_cancel_listener],
    and between two dispatches whatever calls [speak].  Every
    [_start_cancel_listener] starts a keyboard watcher, which runs
    [_listen_for_cancel] and starts a voice watcher, which runs the
    inner [monitor_voice].  [Keyboard i] and [Voice i] are the
    watchers that the listener number [i] has started; none of them is
    ever removed, as [_stop_cancel_listener] joins the keyboard thread
    only, and does not wait for it longer than half a second.  Every
    statement is one atomic step and any thread may take the next
    step.  A speech engine is present; the monitor that [speak]
    starts for itself and the exceptions raised by the terminal, the
    device or the engine are not modelled. *)
Inductive actor : Type :=
| Keyboard (i : nat)
| Voice (i : nat)
| Main.

Inductive kpc : Type :=
| KStart      (* start the voice thread, set the terminal raw *)
| KLoop       (* while not self.cancel_requested *)
| KPoll       (* select, read a key *)
| KSetFlag    (* self.cancel_requested = True *)
| KCancel     (* self.claude_client.cancel() *)
| KStop       (* self.tts_engine.stop() *)
| KFinally    (* restore the terminal; self.cancel_requested = True *)
| KDone.

Inductive vpc : Type :=
| VIdle       (* not started yet *)
| VLoop       (* while not self.cancel_requested *)
| VListen     (* record, transcribe, look for a cancel word *)
| VSetFlag    (* self.cancel_requested = True *)
| VCancel     (* self.claude_client.cancel() *)
| VStop       (* self.tts_engine.stop() *)
| VSleep      (* time.sleep(0.1) *)
| VDone.

Inductive mpc : Type :=
| MIdle          (* between dispatches *)
| MSpawn         (* flag cleared; about to start the keyboard thread *)
| MStart         (* before [with self._lock: Popen(...)] *)
| MRunning       (* holds the lock, inside communicate() *)
| MFinally       (* lock released; about to clear current_process *)
| MStopListener  (* self.cancel_requested = True *)
| MJoin.         (* self._cancel_thread.join(timeout=0.5) *)

Record state := {
  cancel_requested : bool;
  watchers : list (kpc * vpc);  (* the watchers of each listener started *)
  mn : mpc;
  current_process : bool;     (* self.current_process is not None *)
  dispatches : nat;           (* processes started *)
  terminated : nat;           (* terminate() calls on the last of them *)
  k_triggers : nat;           (* keyboard watchers that have set the flag *)
  v_triggers : nat;           (* voice watchers that have set the flag *)
  cancel_calls : nat;         (* bodies of ClaudeClient.cancel run *)
  terminate_calls : nat;      (* current_process.terminate() *)
  stop_calls : nat            (* tts_engine.stop() by a watcher *)
}.

(** The session before its first dispatch. *)
Definition init : state :=
  {| cancel_requested := false; watchers := []; mn := MIdle;
     current_process := false; dispatches := 0; terminated := 0;
     k_triggers := 0; v_triggers := 0; cancel_calls := 0;
     terminate_calls := 0; stop_calls := 0 |}.

(** [self._lock] is free unless [send_query] is inside its [with]
    block, which spans [Popen] and [communicate]. *)
Definition lock_free (s : state) : bool :=
  match mn s with MRunning => false | _ => true end.

Definition set_flag (b : bool) (s : state) : state :=
  {| cancel_requested := b; watchers := watchers s; mn := mn s;
     current_process := current_process s; dispatches := dispatches s;
     terminated := terminated s; k_triggers := k_triggers s;
     v_triggers := v_triggers s; cancel_calls := cancel_calls s;
     terminate_calls := terminate_calls s; stop_calls := stop_calls s |}.

Definition set_watchers (l : list (kpc * vpc)) (s : state) : state :=
  {| cancel_requested := cancel_requested s; watchers := l; mn := mn s;
     current_process := current_process s; dispatches := dispatches s;
     terminated := terminated s; k_triggers := k_triggers s;
     v_triggers := v_triggers s; cancel_calls := cancel_calls s;
     terminate_calls := terminate_calls s; stop_calls := stop_calls s |}.

Definition at_m (p : mpc) (s : state) : state :=
  {| cancel_requested := cancel_requested s; watchers := watchers s; mn := p;
     current_process := current_process s; dispatches := dispatches s;
     terminated := terminated s; k_triggers := k_triggers s;
     v_triggers := v_triggers s; cancel_calls := cancel_calls s;
     terminate_calls := terminate_calls s; stop_calls := stop_calls s |}.

(** [self.current_process = subprocess.Popen(...)] *)
Definition popen (s : state) : state :=
  {| cancel_requested := cancel_requested s; watchers := watchers s;
     mn := mn s; current_process := true; dispatches := S (dispatches s);
     terminated := 0; k_triggers := k_triggers s;
     v_triggers := v_triggers s; cancel_calls := cancel_calls s;
     terminate_calls := terminate_calls s; stop_calls := stop_calls s |}.

(** [self.current_process = None] *)
Definition forget_process (s : state) : state :=
  {| cancel_requested := cancel_requested s; watchers := watchers s;
     mn := mn s; current_process := false; dispatches := dispatches s;
     terminated := terminated s; k_triggers := k_triggers s;
     v_triggers := v_triggers s; cancel_calls := cancel_calls s;
     terminate_calls := terminate_calls s; stop_calls := stop_calls s |}.

(** The body of [ClaudeClient.cancel], run as one step under the lock:
    terminate the process if there is one, then forget it. *)
Definition cancel (s : state) : state :=
  {| cancel_requested := cancel_requested s; watchers := watchers s;
     mn := mn s; current_process := false; dispatches := dispatches s;
     terminated := if current_process s then S (terminated s)
                   else terminated s;
     k_triggers := k_triggers s; v_triggers := v_triggers s;
     cancel_calls := S (cancel_calls s);
     terminate_calls := if current_process s then S (terminate_calls s)
                        else terminate_calls s;
     stop_calls := stop_calls s |}.

Definition stop (s : state) : state :=
  {| cancel_requested := cancel_requested s; watchers := watchers s;
     mn := mn s; current_process := current_process s;
     dispatches := dispatches s; terminated := terminated s;
     k_triggers := k_triggers s; v_triggers := v_triggers s;
     cancel_calls := cancel_calls s; terminate_calls := terminate_calls s;
     stop_calls := S (stop_calls s) |}.

(** [self.cancel_requested = True] by a watcher that has observed its
    trigger. *)
Definition trigger (voice : bool) (s : state) : state :=
  {| cancel_requested := true; watchers := watchers s; mn := mn s;
     current_process := current_process s; dispatches := dispatches s;
     terminated := terminated s;
     k_triggers := if voice then k_triggers s else S (k_triggers s);
     v_triggers := if voice then S (v_triggers s) else v_triggers s;
     cancel_calls := cancel_calls s; terminate_calls := terminate_calls s;
     stop_calls := stop_calls s |}.

Definition set_watcher (i : nat) (w : kpc * vpc) (s : state) : state :=
  set_watchers (<[i := w]> (watchers s)) s.

(** One statement of the keyboard watcher of listener [i]; [esc] tells
    whether the poll reads the cancel key. *)
Definition step_keyboard (i : nat) (esc : bool) (s : state) : state :=
  match watchers s !! i with
  | None => s
  | Some (k, v) =>
      match k with
      | KStart =>
          set_watcher i (KLoop, match v with VIdle => VLoop | _ => v end) s
      | KLoop =>
          if cancel_requested s then set_watcher i (KFinally, v) s
          else set_watcher i (KPoll, v) s
      | KPoll =>
          if esc then set_watcher i (KSetFlag, v) s
          else set_watcher i (KLoop, v) s
      | KSetFlag => set_watcher i (KCancel, v) (trigger false s)
      | KCancel =>
          if lock_free s then set_watcher i (KStop, v) (cancel s) else s
      | KStop => set_watcher i (KFinally, v) (stop s)
      | KFinally => set_watcher i (KDone, v) (set_flag true s)
      | KDone => s
      end
  end.

(** One statement of the voice watcher of listener [i]; [heard] tells
    whether the recording contains a cancel word. *)
Definition step_voice (i : nat) (heard : bool) (s : state) : state :=
  match watchers s !! i with
  | None => s
  | Some (k, v) =>
      match v with
      | VIdle => s
      | VLoop =>
          if cancel_requested s then set_watcher i (k, VDone) s
          else set_watcher i (k, VListen) s
      | VListen =>
          if heard then set_watcher i (k, VSetFlag) s
          else set_watcher i (k, VSleep) s
      | VSetFlag => set_watcher i (k, VCancel) (trigger true s)
      | VCancel =>
          if lock_free s then set_watcher i (k, VStop) (cancel s) else s
      | VStop => set_watcher i (k, VDone) (stop s)
      | VSleep => set_watcher i (k, VLoop) s
      | VDone => s
      end
  end.

(** One statement of the main thread.  Between two dispatches,
    [speaks] tells whether it calls [speak], which clears the flag, or
    goes on to the next dispatch, whose [_start_cancel_listener]
    clears the flag too.  The model has no clock: [join(timeout=0.5)]
    returns when the keyboard watcher has ended or the half second has
    passed, so it may return at any time. *)
Definition step_main (speaks : bool) (s : state) : state :=
  match mn s with
  | MIdle => if speaks then set_flag false s else at_m MSpawn (set_flag false s)
  | MSpawn => at_m MStart (set_watchers (watchers s ++ [(KStart, VIdle)]) s)
  | MStart => at_m MRunning (popen s)
  | MRunning => at_m MFinally s
  | MFinally => at_m MStopListener (forget_process s)
  | MStopListener => at_m MJoin (set_flag true s)
  | MJoin => at_m MIdle s
  end.

Definition step (a : actor) (input : bool) (s : state) : state :=
  match a with
  | Keyboard i => step_keyboard i input s
  | Voice i => step_voice i input s
  | Main => step_main input s
  end.

(** A schedule: who moves, and what it observes. *)
Definition schedule := list (actor * bool).

Definition run_schedule (sch : schedule) (s : state) : state :=
  fold_left (fun st e => step (fst e) (snd e) st) sch s.

(** The first dispatch; both watchers observe their trigger before
    either has set the flag, while the process is running. *)
Definition race : schedule :=
  [(Main, false); (Main, false);
   (Keyboard 0, false); (Main, false);
   (Keyboard 0, false); (Voice 0, false);
   (Keyboard 0, true); (Voice 0, true);
   (Keyboard 0, false); (Voice 0, false);
   (Main, false);
   (Keyboard 0, false); (Voice 0, false);
   (Keyboard 0, false); (Voice 0, false);
   (Keyboard 0, false); (Main, false); (Main, false)].

(** A first dispatch during which nothing is observed and whose voice
    watcher is inside its recording while the listener is stopped and
    the answer is spoken; then the start of a second dispatch. *)
Definition survivor_start : schedule :=
  [(Main, false); (Main, false);
   (Keyboard 0, false); (Voice 0, false);
   (Main, false); (Main, false); (Main, false);
   (Main, false);
   (Keyboard 0, false); (Keyboard 0, false);
   (Main, false);
   (Main, true);
   (Voice 0, false); (Voice 0, false); (Voice 0, false);
   (Main, false); (Main, false);
   (Keyboard 1, false); (Voice 1, false)].

(** In the second dispatch the keyboard watcher reads the cancel key
    while both voice watchers, the new one and the one of the first
    dispatch, hear a cancel word. *)
Definition survivor_fires : schedule :=
  [(Keyboard 1, false);
   (Keyboard 1, true); (Voice 1, true); (Voice 0, true);
   (Keyboard 1, false); (Voice 1, false); (Voice 0, false);
   (Keyboard 1, false); (Voice 1, false); (Voice 0, false);
   (Keyboard 1, false); (Voice 1, false); (Voice 0, false)].

(** The kinds of watcher. *)
Inductive watcher : Type := KeyboardWatcher | VoiceWatcher.

(** The schedule never lets a watcher of the given kind observe its
    trigger. *)
Definition never_triggers (w : watcher) (sch : schedule) : Prop :=
  Forall (fun e => match fst e, w with
                   | Keyboard _, KeyboardWatcher | Voice _, VoiceWatcher =>
                       snd e = false
                   | _, _ => True
                   end) sch.

(** A dispatch is under way: its listener has been started and
    [join] has not returned. *)
Definition dispatching (s : state) : bool :=
  match mn s with MIdle | MSpawn => false | _ => true end.

(** What a pair of watchers can still do, or is doing. *)
Definition k_left (w : kpc * vpc) : nat :=
  match fst w with KStart | KLoop | KPoll | KSetFlag => 1 | _ => 0 end.
Definition v_left (w : kpc * vpc) : nat :=
  match snd w with
  | VIdle | VLoop | VListen | VSleep | VSetFlag => 1
  | _ => 0
  end.
Definition k_set (w : kpc * vpc) : nat :=
  match fst w with KSetFlag => 1 | _ => 0 end.
Definition v_set (w : kpc * vpc) : nat :=
  match snd w with VSetFlag => 1 | _ => 0 end.
Definition at_cancel (w : kpc * vpc) : nat :=
  match fst w with KCancel => 1 | _ => 0 end
  + match snd w with VCancel => 1 | _ => 0 end.
Definition at_stop (w : kpc * vpc) : nat :=
  match fst w with KStop => 1 | _ => 0 end
  + match snd w with VStop => 1 | _ => 0 end.

Definition total (f : kpc * vpc -> nat) (l : list (kpc * vpc)) : nat :=
  list_sum (map f l).

Definition invariant (s : state) : Prop :=
  (k_triggers s + total k_left (watchers s) <= length (watchers s))%nat /\
  (v_triggers s + total v_left (watchers s) <= length (watchers s))%nat /\
  (cancel_calls s + total at_cancel (watchers s)
   = k_triggers s + v_triggers s)%nat /\
  (stop_calls s + total at_stop (watchers s) = cancel_calls s)%nat /\
  (terminate_calls s + (if current_process s then 1 else 0)
   <= dispatches s)%nat /\
  (terminated s + (if current_process s then 1 else 0) <= 1)%nat /\
  (dispatches s + match mn s with MStart => 1 | _ => 0 end
   = length (watchers s))%nat /\
  (current_process s = true -> mn s = MRunning \/ mn s = MFinally) /\
  (mn s = MRunning -> current_process s = true /\ terminated s = 0%nat) /\
  ((length (watchers s) <= 1)%nat -> dispatching s = true ->
   (0 < k_triggers s + v_triggers s)%nat -> cancel_requested s = true).

End Cancel.

(** ** Listening (core/interface.py, [listen]) *)

Module Listening.

(** [VoiceInterface.listen(timeout, quiet)]: record with the endpointer
    that is available, then transcribe.  [recognise] is the recognition
    model, as the text it returns for a segment. *)
Definition listen (fsqrt : Q -> Q) (cfg : AudioConfig) (vcfg : VADConfig)
    (tcfg : TranscriptionConfig) (vad_model model_loaded : bool)
    (recognise : list chunk -> pystr) (timeout : option Q)
    (start_time last_activity0 : Q) (evs : list Recorder.vad_event)
    (rescore : list chunk -> nat -> Q) (aevs : list Recorder.amp_event)
    : Recorder.run (option pystr) :=
  let recorded :=
    if vad_model
    then Recorder.record_with_vad fsqrt cfg vcfg vad_model timeout start_time
           last_activity0 evs rescore aevs
    else Recorder.record_with_amplitude fsqrt cfg timeout start_time aevs in
  match recorded with
  | Recorder.Pending => Recorder.Pending
  | Recorder.Done None => Recorder.Done None
  | Recorder.Done (Some frames) =>
      match frames with
      | [] => Recorder.Done None
      | _ => Recorder.Done
               (Whisper.transcribe tcfg cfg model_loaded (recognise frames) frames)
      end
  end.

End Listening.

(** ** Profile names (profiles/manager.py, [_sanitize_name]) *)

Module Profiles.

Section Names.

Variable unicode_lower : N -> pystr.
Variable unicode_alnum : N -> bool.

Definition hyphen : N := 45%N.
Definition underscore : N := 95%N.

(** [re.sub(r'[^\w\s-]', '', s)] *)
Definition keep_name_chars (s : pystr) : pystr :=
  List.filter
    (fun c => Interface.word_char unicode_alnum c || isspace c || (c =? hyphen)%N)
    s.

Definition is_separator (c : N) : bool := (c =? hyphen)%N || isspace c.

(** [re.sub(r'[-\s]+', '_', s)]: every maximal run of hyphens and white
    space becomes one underscore; [in_run] tells that the character
    before was part of a run. *)
Fixpoint join_separators (in_run : bool) (s : pystr) : pystr :=
  match s with
  | [] => []
  | c :: t =>
      if is_separator c
      then if in_run then join_separators true t
           else underscore :: join_separators true t
      else c :: join_separators false t
  end.

Fixpoint lstrip_underscores (s : pystr) : pystr :=
  match s with
  | [] => []
  | c :: t => if (c =? underscore)%N then lstrip_underscores t else s
  end.

(** [s.strip('_')] *)
Definition strip_underscores (s : pystr) : pystr :=
  rev (lstrip_underscores (rev (lstrip_underscores s))).

(** [ProfileManager._sanitize_name] *)
Definition _sanitize_name (name : pystr) : pystr :=
  let name := keep_name_chars (Interface.lower unicode_lower name) in
  let name := join_separators false name in
  strip_underscores name.

End Names.

End Profiles.

(** ** Wake word (core/interface.py, [detect_wake_word]) *)

Module WakeWord.

Section Detection.

Variable unicode_lower : N -> pystr.
(** [difflib.SequenceMatcher(None, a, b).ratio()], of the standard
    library. *)
Variable ratio : pystr -> pystr -> Q.

(** [TranscriptionService.quick_transcribe] (transcription/whisper.py):
    [tiny_model] tells that a model is at hand after the fall back to
    the main one, and [recognised] is the text of the model, or none
    when writing the file or the model raised. *)
Definition quick_transcribe (whisper_available tiny_model : bool)
    (recognised : option pystr) : option pystr :=
  if negb whisper_available then None
  else if negb tiny_model then None
  else match recognised with
       | None => None
       | Some text => Some (Interface.lower unicode_lower (strip text))
       end.

(** [s.replace(x, '')] for a character [x]: every [x] is dropped. *)
Definition remove_char (x : N) (s : pystr) : pystr :=
  List.filter (fun c => negb (c =? x)%N) s.

Definition comma : N := 44%N.
Definition space : N := 32%N.

(** The four [replace] calls in a row, which drop the comma, the full
    stop, the exclamation mark and the question mark. *)
Definition remove_marks (s : pystr) : pystr :=
  remove_char 63 (remove_char 33 (remove_char 46 (remove_char comma s))).

(** [wake_word.replace(' ', ', ')] *)
Definition comma_form (wake_word : pystr) : pystr :=
  flat_map (fun c => if (c =? space)%N then [comma; space] else [c]) wake_word.

Definition wake_word_variations : list (pystr * list pystr) :=
  [(py "hey claude",
    [py "hey claud"; py "hey quad"; py "hey cloud"; py "hey clod";
     py "hey claw"; py "a claude"; py "hey close"; py "hey caught";
     py "hey clawd"; py "hey cod"]);
   (py "hello claude",
    [py "hello claud"; py "hello cloud"; py "hello quad"; py "hello claw";
     py "hello close"; py "hello caught"]);
   (py "hi claude",
    [py "hi claud"; py "hi cloud"; py "hi quad"; py "hi claw";
     py "hi close"])].

(** The variations listed for the wake word; none when it is not a key. *)
Definition variations_of (wake_word : pystr) : list pystr :=
  match find (fun kv => str_eqb wake_word (fst kv)) wake_word_variations with
  | Some kv => snd kv
  | None => []
  end.

(** [s.split()]: the maximal runs without white space; [cur] is the
    run being read, last character first. *)
Fixpoint split_from (cur s : pystr) : list pystr :=
  match s with
  | [] => match cur with [] => [] | _ => [rev cur] end
  | c :: t =>
      if isspace c
      then match cur with
           | [] => split_from [] t
           | _ => rev cur :: split_from [] t
           end
      else split_from (c :: cur) t
  end.

Definition split (s : pystr) : list pystr := split_from [] s.

(** [" ".join(words)] *)
Fixpoint join (words : list pystr) : pystr :=
  match words with
  | [] => []
  | [w] => w
  | w :: rest => w ++ space :: join rest
  end.

(** The float [0.8]. *)
Definition similarity_threshold : Q :=
  3602879701896397 # 4503599627370496.

(** The last loop: every run of as many words of the text as the wake
    word has is compared with the wake word. *)
Definition fuzzy_match (wake_word text : pystr) : bool :=
  let words := split text in
  let wake_words := split wake_word in
  existsb
    (fun i =>
       let phrase := join (firstn (length wake_words) (skipn i words)) in
       gt (ratio wake_word phrase) similarity_threshold)
    (seq 0 (length words + 1 - length wake_words)).

(** The tests on the text, from the removal of punctuation on. *)
Definition matches (wake_word text : pystr) : bool :=
  let text := remove_marks text in
  is_infix wake_word text
  || is_infix (comma_form wake_word) text
  || existsb (fun variation => is_infix variation text)
       (variations_of wake_word)
  || fuzzy_match wake_word text.

(** [VoiceInterface.detect_wake_word(quiet)]; [recognise] is what the
    small model answers for a segment. *)
Definition detect_wake_word (fsqrt : Q -> Q) (cfg : AudioConfig)
    (wake_word : pystr) (whisper_available tiny_model : bool)
    (recognise : list chunk -> option pystr) (start_time : Q)
    (evs : list Recorder.amp_event) : Recorder.run bool :=
  match Recorder.record_with_amplitude fsqrt cfg (Some 5%Q) start_time evs with
  | Recorder.Pending => Recorder.Pending
  | Recorder.Done None => Recorder.Done false
  | Recorder.Done (Some []) => Recorder.Done false
  | Recorder.Done (Some frames) =>
      match quick_transcribe whisper_available tiny_model (recognise frames) with
      | None => Recorder.Done false
      | Some [] => Recorder.Done false
      | Some text =>
          Recorder.Done
            (matches wake_word (strip (Interface.lower unicode_lower text)))
      end
  end.

End Detection.

End WakeWord.

(** ** Inputs used to evaluate the model *)

Module Sample.

(** A square root that is exact on perfect squares, as the float
    square root is. *)
Definition sqrt_floor (q : Q) : Q := inject_Z (Z.sqrt (Qfloor q)).

(** Two samples of value 0, and two samples of value 100. *)
Definition still : chunk := [Byte.x00; Byte.x00; Byte.x00; Byte.x00].
Definition hum : chunk := [Byte.x64; Byte.x00; Byte.x64; Byte.x00].
(** Two samples of value 0x4000. *)
Definition loud : chunk := [Byte.x00; Byte.x40; Byte.x00; Byte.x40].

(** Characters that are neither letters, digits, underscore nor
    white space, within ASCII. *)
Definition is_punctuation (c : N) : bool :=
  is_ascii c
  && negb (is_digit c || is_upper c || is_lower c || (c =? 95)%N)
  && negb (isspace c).

(** The upper-case form of the ASCII letters of a text. *)
Definition ascii_upper (text : pystr) : pystr :=
  map (fun c => if is_lower c then (c - 32)%N else c) text.

(** The default audio configuration with the silence threshold set to
    2000, as the option [--silence-threshold 2000] does. *)
Definition threshold_2000 : AudioConfig :=
  {| chunk_size := 1024; channels := 1; sample_rate := 16000;
     silence_threshold := Num 2000; silence_duration := 2;
     noise_floor := None; calibration_samples := 50 |}.

(** The double quote. *)
Definition quote : pystr := [34%N].

(** A reply object with the result [ok] and the given [session_id],
    as text and as [json.loads] parses it. *)
Definition reply_text (id : pystr) : pystr :=
  py "{" ++ quote ++ py "result" ++ quote ++ py ": " ++ quote ++ py "ok" ++ quote
  ++ py ", " ++ quote ++ py "session_id" ++ quote ++ py ": "
  ++ quote ++ id ++ quote ++ py "}".

Definition reply_value (id : pystr) : Claude.pyval :=
  Claude.PyDict [(py "result", Claude.PyStr (py "ok"));
                 (py "session_id", Claude.PyStr id)].

(** [json.loads] on the replies used below. *)
Definition loads (s : pystr) : option Claude.pyval :=
  if str_eqb s (reply_text (py "Y")) then Some (reply_value (py "Y"))
  else if str_eqb s (reply_text (py " y")) then Some (reply_value (py " y"))
  else if str_eqb s (reply_text (py "a\rb"))
  then Some (reply_value [97; 13; 98]%N)
  else if str_eqb s (reply_text (py "\ud800"))
  then Some (reply_value [55296%N])
  else None.

Definition exc_text (e : Claude.exc) : pystr :=
  match e with
  | Claude.TypeError => py "TypeError"
  | Claude.AttributeError => py "AttributeError"
  | Claude.UnicodeEncodeError => py "UnicodeEncodeError"
  end.

(** The characters UTF-8 encodes: all but the surrogates. *)
Definition utf8 (c : N) : bool := negb (between 55296 57343 c).

(** A process that succeeds with the given output, and one that
    prints it and fails. *)
Definition answers (stdout : pystr) (_ : Claude.invocation) : Claude.outcome :=
  Claude.Exits 0 stdout [].
Definition fails_with (stdout : pystr) (_ : Claude.invocation) : Claude.outcome :=
  Claude.Exits 1 stdout (py "max turns reached").

(** A store in which the default context holds the id X. *)
Definition store_X : gmap Claude.Path pystr :=
  {[ Claude.session_file_of None := py "X" ]}.

Definition no_profile (reset : bool) : Claude.ProfileManager :=
  {| Claude.context_dir := Claude.default_context;
     Claude.current_profile := None;
     Claude.reset_context_mode := reset;
     Claude.session_id := Some (py "made-up-locally") |}.

(** A chunk with its probability, every clock reading of its turn of
    the loop being [t]. *)
Definition tick (t : Q) (d : chunk) (p : Q) : Recorder.vad_tick :=
  {| Recorder.t_timeout := t; Recorder.t_watchdog := t; Recorder.data := d;
     Recorder.speech_prob := p; Recorder.t_body := t |}.

(** Two chunks of speech followed by three of silence, read at the
    given times. *)
Definition short_utterance (t1 t2 t3 t4 t5 : Q) : list Recorder.vad_tick :=
  [tick t1 hum (9 # 10); tick t2 loud (9 # 10);
   tick t3 still (1 # 10); tick t4 still (1 # 10); tick t5 still (1 # 10)].

(** A trimming pass that finds no speech. *)
Definition no_rescore (_ : list chunk) (_ : nat) : Q := 0.

(** A trimming pass that scores [loud] chunks as speech. *)
Definition rescore_loud (frames : list chunk) (i : nat) : Q :=
  match nth_error frames i with
  | Some [Byte.x00; Byte.x40; Byte.x00; Byte.x40] => 9 # 10
  | _ => 1 # 10
  end.

(** One loud chunk and 32 chunks of silence, each read at the given
    time. *)
Definition silence_32 (t : Q) : list (Q * chunk) := repeat (t, still) 32.

(** The session file of a profile [work], and a store that holds an id
    for it beside the id of the default context. *)
Definition work_profile : Claude.Path := [".context"%string; "work"%string].
Definition store_two : gmap Claude.Path pystr :=
  <[ Claude.session_file_of (Some work_profile) := py "W" ]> store_X.

(** [json.loads] on the output [[]]. *)
Definition loads_list (_ : pystr) : option Claude.pyval :=
  Some (Claude.PyList []).

(** White space within ASCII. *)
Definition is_ascii_space (c : N) : bool := is_ascii c && isspace c.

(** A recognition model that hears the same words in every segment. *)
Definition hears (words : pystr) (_ : list chunk) : pystr := words.

(** A chunk as [record_with_vad] reads it with the default settings:
    512 samples, here of value 0; and twelve of them, which is 6144
    samples, 0.384 s at 16000 samples per second. *)
Definition vad_chunk : chunk := repeat Byte.x00 1024.
Definition short_vad_frames : list chunk := repeat vad_chunk 12.

(** A recognised text with a character outside ASCII. *)
Definition accented : pystr := [104; 233; 108; 108; 111]%N.

End Sample.

(** ** The rules as the specification words them *)

Module Stated.

(** The trimming rule without the guard on short lists: cut ten
    chunks past the last chunk whose probability exceeds 0.6, for
    every list. *)
Definition trim_rule (probs : nat -> Q) (frames : list chunk) : list chunk :=
  let last :=
    Recorder.last_speech_index probs (length frames) (length frames - 1) in
  firstn (Nat.min (last + 10) (length frames)) frames.

(** The total duration of a segment: the sample frames in its chunks
    (two bytes per sample and channel) over the sample rate, as the
    wave file written from it has it. *)
Definition segment_duration (audio_config : AudioConfig)
    (audio_frames : list chunk) : Q :=
  (inject_Z (Z.of_nat (length (concat audio_frames))
             / (2 * channels audio_config))
   / inject_Z (sample_rate audio_config))%Q.

(** Speech in the first chunk only. *)
Definition onset_only (i : nat) : Q := if Nat.eqb i 0 then 9 # 10 else 0.

End Stated.

(** * Properties *)

(** ** Numbers and strings *)

Lemma gt_true (x y : Q) : gt x y = true <-> (y < x)%Q.
Proof.
  unfold gt. rewrite negb_true_iff. split.
  - intros H. apply Qnot_le_lt. intros Hle.
    apply Qle_bool_iff in Hle. congruence.
  - intros H. destruct (Qle_bool x y) eqn:E; [|reflexivity].
    apply Qle_bool_iff in E. exfalso. apply (Qlt_not_le _ _ H E).
Qed.

Lemma gt_false (x y : Q) : gt x y = false <-> (x <= y)%Q.
Proof.
  unfold gt. rewrite negb_false_iff. apply Qle_bool_iff.
Qed.

Lemma max2_ge_l (a b : Q) : (a <= max2 a b)%Q.
Proof.
  unfold max2. destruct (gt b a) eqn:E.
  - apply gt_true in E. apply Qlt_le_weak, E.
  - apply Qle_refl.
Qed.

Lemma max2_ge_r (a b : Q) : (b <= max2 a b)%Q.
Proof.
  unfold max2. destruct (gt b a) eqn:E.
  - apply Qle_refl.
  - apply gt_false in E. exact E.
Qed.

Lemma max2_cases (a b : Q) : max2 a b = a \/ max2 a b = b.
Proof. unfold max2. destruct (gt b a); auto. Qed.

Lemma str_eqb_eq (a b : pystr) : str_eqb a b = true <-> a = b.
Proof.
  revert b. induction a as [|x a IH]; intros [|y b]; simpl; try easy.
  rewrite andb_true_iff, N.eqb_eq, IH. split.
  - intros [-> ->]. reflexivity.
  - intros [= -> ->]. auto.
Qed.

Lemma str_in_In (x : pystr) (l : list pystr) : str_in x l = true <-> In x l.
Proof.
  unfold str_in. rewrite existsb_exists. split.
  - intros [y [Hy E]]. apply str_eqb_eq in E. subst. exact Hy.
  - intros H. exists x. split; [exact H | apply str_eqb_eq; reflexivity].
Qed.

Lemma filter_all {A} (f : A -> bool) (l : list A) :
  forallb f l = true -> List.filter f l = l.
Proof.
  induction l as [|a l IH]; simpl; [reflexivity|].
  intros H. apply andb_true_iff in H as [Ha Hl]. rewrite Ha, IH; auto.
Qed.

Lemma filter_Forall {A} (f : A -> bool) (l : list A) :
  Forall (fun x => f x = true) (List.filter f l).
Proof.
  induction l as [|a l IH]; simpl; [constructor|].
  destruct (f a) eqn:E; [constructor; assumption | assumption].
Qed.

(** ** The transcript filter *)

(** The text that [transcribe] tests and returns is the recognised
    text, stripped, without its characters outside ASCII; the test
    [text.encode('ascii')] only decides whether there is anything to
    remove. *)
Lemma transcribe_cases (config : TranscriptionConfig) (audio_config : AudioConfig)
    (model_loaded : bool) (recognised : pystr) (audio_frames : list chunk) :
  let text := List.filter is_ascii (strip recognised) in
  let duration :=
    (inject_Z (Z.of_nat (length audio_frames) * chunk_size audio_config)
     / inject_Z (sample_rate audio_config))%Q in
  Whisper.transcribe config audio_config model_loaded recognised audio_frames =
    if negb model_loaded || Nat.eqb (length audio_frames) 0 then None
    else if gt (min_audio_length config) duration then None
    else if (length text <=? 1)%nat || str_in text Whisper.noise_strings then None
    else Some text.
Proof.
  cbv zeta. unfold Whisper.transcribe.
  destruct (negb model_loaded || Nat.eqb (length audio_frames) 0); [reflexivity|].
  destruct (gt _ _); [reflexivity|].
  destruct (forallb is_ascii (strip recognised)) eqn:E; [|reflexivity].
  rewrite (filter_all _ _ E). reflexivity.
Qed.

Lemma digit_not_noise (text : pystr) (c : N) :
  In c text -> is_digit c = true -> ~ In text Whisper.noise_strings.
Proof.
  intros Hc Hd Hin. unfold Whisper.noise_strings in Hin. simpl in Hin.
  assert (Hno : forall d, In d [46; 44; 63; 33; 45]%N -> is_digit d = false).
  { intros d Hd'. simpl in Hd'.
    repeat (destruct Hd' as [<- | Hd']; [reflexivity|]). contradiction. }
  assert (Hsub : forall d, In d text -> In d [46; 44; 63; 33; 45]%N).
  { intros d Hd'.
    repeat (destruct Hin as [<- | Hin];
            [vm_compute in Hd'; vm_compute; tauto|]).
    contradiction. }
  specialize (Hno c (Hsub c Hc)). congruence.
Qed.

Lemma length_concat_uniform {A} (k : nat) (l : list (list A)) :
  Forall (fun x => length x = k) l -> length (concat l) = (length l * k)%nat.
Proof.
  induction 1 as [|x l Hx _ IH]; [reflexivity|].
  simpl. rewrite length_app, Hx, IH. reflexivity.
Qed.

(** C8.  What [transcribe] does where the claim fails.  It answers none
    when the duration it computes, the number of frames times the
    configured chunk size over the sample rate, is below the configured
    minimum, when the text left after stripping and removing the
    characters outside ASCII has at most one character, and when that
    text is one of the strings . , ? ! ... --- and otherwise, with a
    model loaded and a segment that is not empty, it answers that text.
    The computed duration is the duration of the segment when every
    frame holds [chunk_size] samples per channel.  Hence a text of
    punctuation that is not in the list is returned, a text that is a
    single digit is discarded, and twelve frames of 512 samples, which
    last 0.384 s, pass the test on the duration. *)
Theorem transcribe_filter (config : TranscriptionConfig) (audio_config : AudioConfig)
    (model_loaded : bool) (recognised : pystr) (audio_frames : list chunk) :
  let text := List.filter is_ascii (strip recognised) in
  let duration :=
    (inject_Z (Z.of_nat (length audio_frames) * chunk_size audio_config)
     / inject_Z (sample_rate audio_config))%Q in
  let answer :=
    Whisper.transcribe config audio_config model_loaded recognised audio_frames in
  (((duration < min_audio_length config)%Q -> answer = None) /\
   ((length text <= 1)%nat -> answer = None) /\
   (In text Whisper.noise_strings -> answer = None) /\
   (model_loaded = true -> audio_frames <> [] ->
    (min_audio_length config <= duration)%Q -> (2 <= length text)%nat ->
    ~ In text Whisper.noise_strings -> answer = Some text) /\
   (model_loaded = true -> audio_frames <> [] ->
    (min_audio_length config <= duration)%Q -> (2 <= length text)%nat ->
    (exists c, In c text /\ is_digit c = true) -> answer = Some text) /\
   ((0 < channels audio_config)%Z -> (0 <= chunk_size audio_config)%Z ->
    Forall (fun f => Z.of_nat (length f)
                     = (2 * channels audio_config * chunk_size audio_config)%Z)
      audio_frames ->
    duration = Stated.segment_duration audio_config audio_frames)) /\
  (forallb Sample.is_punctuation (py "?!") = true /\
   Whisper.transcribe default_transcription default_audio true
     (py "?!") (repeat Sample.still 100) = Some (py "?!")) /\
  (forallb is_digit (py "7") = true /\
   Whisper.transcribe default_transcription default_audio true
     (py "7") (repeat Sample.still 100) = None) /\
  ((Stated.segment_duration default_audio Sample.short_vad_frames
    < min_audio_length default_transcription)%Q /\
   Whisper.transcribe default_transcription default_audio true
     (py "hello") Sample.short_vad_frames = Some (py "hello")).
Proof.
  cbv zeta. split; [|vm_compute; repeat split].
  rewrite transcribe_cases. cbv zeta.
  set (text := List.filter is_ascii (strip recognised)).
  set (duration := (_ / _)%Q).
  assert (Hmain : model_loaded = true -> audio_frames <> [] ->
    (min_audio_length config <= duration)%Q -> (2 <= length text)%nat ->
    ~ In text Whisper.noise_strings ->
    (if negb model_loaded || Nat.eqb (length audio_frames) 0 then None
     else if gt (min_audio_length config) duration then None
     else if (length text <=? 1)%nat || str_in text Whisper.noise_strings
     then None else Some text) = Some text).
  { intros -> Hne Hd Hl Hn. simpl negb. rewrite orb_false_l.
    destruct audio_frames as [|f fs]; [contradiction|]. simpl Nat.eqb.
    apply gt_false in Hd. rewrite Hd.
    destruct (Nat.leb_spec (length text) 1) as [Hle|_]; [lia|].
    destruct (str_in text Whisper.noise_strings) eqn:E; [|reflexivity].
    apply str_in_In in E. contradiction. }
  split; [|split; [|split; [|split; [|split]]]].
  - intros Hd. apply gt_true in Hd. rewrite Hd.
    destruct (negb model_loaded || Nat.eqb (length audio_frames) 0); reflexivity.
  - intros Hl. apply Nat.leb_le in Hl. rewrite Hl. simpl.
    repeat match goal with |- context [if ?b then _ else _] => destruct b end;
      reflexivity.
  - intros Hin. apply str_in_In in Hin. rewrite Hin, orb_true_r.
    repeat match goal with |- context [if ?b then _ else _] => destruct b end;
      reflexivity.
  - exact Hmain.
  - intros Hm Hne Hd Hl [c [Hc Hdig]]. apply Hmain; auto.
    apply (digit_not_noise text c Hc Hdig).
  - intros Hch Hcs Hall. subst duration. unfold Stated.segment_duration.
    do 2 f_equal.
    rewrite (length_concat_uniform
               (Z.to_nat (2 * channels audio_config * chunk_size audio_config))
               audio_frames).
    + rewrite Nat2Z.inj_mul, Z2Nat.id by nia.
      unfold chunk. apply Z.div_unique_exact; [lia | ring].
    + eapply List.Forall_impl; [|exact Hall].
      intros f Hf. simpl in Hf. lia.
Qed.

Lemma transcribe_filter_witness :
  Whisper.transcribe default_transcription default_audio true
    (py " 5, 4, 6 ") (repeat Sample.still 100) = Some (py "5, 4, 6").
Proof.
  pose proof (transcribe_filter default_transcription default_audio true
                (py " 5, 4, 6 ") (repeat Sample.still 100)) as H.
  cbv zeta in H. destruct H as ((_ & _ & _ & _ & H & _) & _).
  apply H.
  - reflexivity.
  - discriminate.
  - vm_compute. discriminate.
  - vm_compute. lia.
  - exists 53%N. split; [vm_compute; tauto | reflexivity].
Defined.

(** C10.  With a model loaded, [transcribe] removes the characters
    outside ASCII from the stripped output of the recognition model
    before it tests and returns the text: it answers none when the
    text so cleaned has at most one character or is one of the noise
    strings, and otherwise, for a segment that is not empty and whose
    computed duration is not below the minimum, it returns the cleaned
    text, whether or not anything had to be removed.  Whatever it
    returns is that cleaned text and consists of ASCII characters
    only. *)
Theorem transcribe_ascii (config : TranscriptionConfig) (audio_config : AudioConfig)
    (model_loaded : bool) (recognised : pystr) (audio_frames : list chunk) :
  let cleaned := List.filter is_ascii (strip recognised) in
  let duration :=
    (inject_Z (Z.of_nat (length audio_frames) * chunk_size audio_config)
     / inject_Z (sample_rate audio_config))%Q in
  let answer :=
    Whisper.transcribe config audio_config model_loaded recognised audio_frames in
  (forall t, answer = Some t ->
     Forall (fun c => (c < 128)%N) t /\ t = cleaned) /\
  (model_loaded = true -> audio_frames <> [] ->
   (min_audio_length config <= duration)%Q ->
   (2 <= length cleaned)%nat -> ~ In cleaned Whisper.noise_strings ->
   answer = Some cleaned /\ Forall (fun c => (c < 128)%N) cleaned) /\
  ((length cleaned <= 1)%nat \/ In cleaned Whisper.noise_strings ->
   answer = None).
Proof.
  cbv zeta. rewrite transcribe_cases. cbv zeta.
  set (cleaned := List.filter is_ascii (strip recognised)).
  set (duration := (_ / _)%Q).
  assert (Hascii : Forall (fun c => (c < 128)%N) cleaned).
  { eapply List.Forall_impl; [|apply filter_Forall].
    intros c Hc. apply N.ltb_lt. exact Hc. }
  split; [|split].
  - intros t H.
    assert (E : t = cleaned).
    { repeat match type of H with
             | (if ?b then _ else _) = _ => destruct b; [discriminate|]
             end.
      congruence. }
    subst t. split; [exact Hascii | reflexivity].
  - intros -> Hne Hd Hl Hn. split; [|exact Hascii].
    simpl negb. rewrite orb_false_l.
    destruct audio_frames as [|f fs]; [contradiction|]. simpl Nat.eqb.
    apply gt_false in Hd. rewrite Hd.
    destruct (Nat.leb_spec (length cleaned) 1) as [Hle|_]; [lia|].
    destruct (str_in cleaned Whisper.noise_strings) eqn:E; [|reflexivity].
    apply str_in_In in E. contradiction.
  - intros H.
    assert (E : (length cleaned <=? 1)%nat
                || str_in cleaned Whisper.noise_strings = true).
    { destruct H as [H | H].
      - apply Nat.leb_le in H. rewrite H. reflexivity.
      - apply str_in_In in H. rewrite H. apply orb_true_r. }
    rewrite E.
    repeat match goal with |- context [if ?b then _ else _] => destruct b end;
      reflexivity.
Qed.

Lemma transcribe_ascii_witness :
  Whisper.transcribe default_transcription default_audio true Sample.accented
    (repeat Sample.still 100) = Some (py "hllo") /\
  Forall (fun c => (c < 128)%N) (py "hllo").
Proof.
  pose proof (transcribe_ascii default_transcription default_audio true
                Sample.accented (repeat Sample.still 100)) as H.
  cbv zeta in H. destruct H as (_ & H & _).
  apply H.
  - reflexivity.
  - discriminate.
  - vm_compute. discriminate.
  - vm_compute. lia.
  - vm_compute. intros H'.
    repeat (destruct H' as [H' | H']; [discriminate|]). exact H'.
Defined.

(** ** Goodbye detection *)

Section GoodbyeFacts.

Variable unicode_lower : N -> pystr.
Variable unicode_alnum : N -> bool.

Let lower := Interface.lower unicode_lower.
Let remove_punctuation := Interface.remove_punctuation unicode_alnum.
Let goodbye := Interface._is_goodbye_command unicode_lower unicode_alnum.

Lemma lower_app (a b : pystr) : lower (a ++ b) = lower a ++ lower b.
Proof. apply flat_map_app. Qed.

Lemma lower_ascii_upper (text : pystr) :
  lower (Sample.ascii_upper text) = lower text.
Proof.
  induction text as [|c text IH]; [reflexivity|].
  change (Interface.lower_char unicode_lower
            (if is_lower c then (c - 32)%N else c)
            ++ lower (Sample.ascii_upper text)
          = Interface.lower_char unicode_lower c ++ lower text).
  rewrite IH. f_equal.
  destruct (is_lower c) eqn:E; [|reflexivity].
  unfold is_lower, between in E.
  apply andb_true_iff in E as [E1 E2].
  apply N.leb_le in E1. apply N.leb_le in E2.
  unfold Interface.lower_char, is_ascii, is_upper, between.
  replace (c - 32 <? 128)%N with true by (symmetry; apply N.ltb_lt; lia).
  replace (c <? 128)%N with true by (symmetry; apply N.ltb_lt; lia).
  replace (65 <=? c - 32)%N with true by (symmetry; apply N.leb_le; lia).
  replace (c - 32 <=? 90)%N with true by (symmetry; apply N.leb_le; lia).
  replace (c <=? 90)%N with false by (symmetry; apply N.leb_gt; lia).
  rewrite andb_false_r. simpl. f_equal. lia.
Qed.

Lemma lower_punctuation (p : pystr) :
  forallb Sample.is_punctuation p = true -> lower p = p.
Proof.
  induction p as [|c p IH]; [reflexivity|]. simpl. intros H.
  apply andb_true_iff in H as [Hc Hp].
  change (Interface.lower_char unicode_lower c ++ lower p = c :: p).
  rewrite (IH Hp). unfold Interface.lower_char.
  unfold Sample.is_punctuation in Hc.
  apply andb_true_iff in Hc as [Hc _]. apply andb_true_iff in Hc as [Ha Hw].
  rewrite Ha. apply negb_true_iff in Hw.
  apply orb_false_iff in Hw as [Hw _]. apply orb_false_iff in Hw as [Hw _].
  apply orb_false_iff in Hw as [_ Hu]. rewrite Hu. reflexivity.
Qed.

Lemma remove_punctuation_app (a b : pystr) :
  remove_punctuation (a ++ b) = remove_punctuation a ++ remove_punctuation b.
Proof. apply List.filter_app. Qed.

Lemma remove_punctuation_all (p : pystr) :
  forallb Sample.is_punctuation p = true -> remove_punctuation p = [].
Proof.
  induction p as [|c p IH]; [reflexivity|]. simpl. intros H.
  apply andb_true_iff in H as [Hc Hp].
  unfold Sample.is_punctuation in Hc.
  apply andb_true_iff in Hc as [Hc Hs]. apply andb_true_iff in Hc as [Ha Hw].
  unfold Interface.word_char. rewrite Ha.
  apply negb_true_iff in Hw. apply negb_true_iff in Hs. rewrite Hw, Hs.
  simpl. apply (IH Hp).
Qed.


End GoodbyeFacts.


(** ** Trimming of a recorded segment *)

Lemma last_speech_index_found (probs : nat -> Q) (n d i : nat) :
  (i < n)%nat ->
  gt (probs i) Recorder.maybe_speech = true ->
  (forall j, (i < j < n)%nat -> gt (probs j) Recorder.maybe_speech = false) ->
  Recorder.last_speech_index probs n d = i.
Proof.
  induction n as [|m IH]; intros Hi Hp Hlater; [lia|].
  simpl. destruct (Nat.eq_dec i m) as [->|Hne].
  - rewrite Hp. reflexivity.
  - rewrite (Hlater m) by lia. apply IH; [lia | exact Hp |].
    intros j Hj. apply Hlater. lia.
Qed.

Lemma last_speech_index_none (probs : nat -> Q) (n d : nat) :
  (forall j, (j < n)%nat -> gt (probs j) Recorder.maybe_speech = false) ->
  Recorder.last_speech_index probs n d = d.
Proof.
  induction n as [|m IH]; intros H; [reflexivity|].
  simpl. rewrite (H m) by lia. apply IH. intros j Hj. apply H. lia.
Qed.

Lemma trim_is_prefix (vad_model : bool) (probs : nat -> Q) (frames : list chunk) :
  exists rest,
    frames = Recorder._trim_silence_with_vad vad_model probs frames ++ rest.
Proof.
  unfold Recorder._trim_silence_with_vad.
  destruct (negb vad_model || (length frames <? 20)%nat).
  - exists []. symmetry. apply app_nil_r.
  - eexists. symmetry. apply firstn_skipn.
Qed.

(** C7, as amended.  The trimming pass returns a prefix of the frames
    it is given.  A list of fewer than 20 frames, and any list when no
    speech model is loaded, is returned whole.  On a list of at least
    20 frames the pass cuts at index [i + 10], where [i] is the index
    of the last frame whose probability exceeds 0.6, so that the 9
    frames after it are kept, or fewer when the list ends earlier; and
    when no frame exceeds 0.6 the list is returned whole. *)
Theorem trim_silence_rule (vad_model : bool) (probs : nat -> Q)
    (frames : list chunk) :
  let trimmed := Recorder._trim_silence_with_vad vad_model probs frames in
  (exists rest, frames = trimmed ++ rest) /\
  (vad_model = false \/ (length frames < 20)%nat -> trimmed = frames) /\
  (vad_model = true -> (20 <= length frames)%nat ->
   forall i, (i < length frames)%nat ->
     (6 # 10 < probs i)%Q ->
     (forall j, (i < j < length frames)%nat -> (probs j <= 6 # 10)%Q) ->
     trimmed = firstn (i + 10) frames /\
     length trimmed = Nat.min (i + 10) (length frames)) /\
  (vad_model = true -> (20 <= length frames)%nat ->
   (forall j, (j < length frames)%nat -> (probs j <= 6 # 10)%Q) ->
   trimmed = frames).
Proof.
  cbv zeta. split; [apply trim_is_prefix|]. split; [|split].
  - intros H. unfold Recorder._trim_silence_with_vad.
    destruct H as [-> | H]; [reflexivity|].
    apply Nat.ltb_lt in H. rewrite H, orb_true_r. reflexivity.
  - intros -> Hlen i Hi Hp Hlater.
    unfold Recorder._trim_silence_with_vad. simpl negb. rewrite orb_false_l.
    destruct (Nat.ltb_spec (length frames) 20) as [Hlt|_]; [lia|].
    rewrite (last_speech_index_found probs (length frames) _ i Hi).
    + split.
      * destruct (Nat.le_ge_cases (i + 10) (length frames)) as [Hle|Hge].
        -- rewrite Nat.min_l by exact Hle. reflexivity.
        -- rewrite Nat.min_r by exact Hge.
           rewrite firstn_all. symmetry. apply firstn_all2. exact Hge.
      * rewrite length_firstn. lia.
    + apply gt_true. exact Hp.
    + intros j Hj. apply gt_false. apply Hlater. exact Hj.
  - intros -> Hlen Hnone.
    unfold Recorder._trim_silence_with_vad. simpl negb. rewrite orb_false_l.
    destruct (Nat.ltb_spec (length frames) 20) as [Hlt|_]; [lia|].
    rewrite last_speech_index_none.
    + rewrite Nat.min_r by lia. apply firstn_all.
    + intros j Hj. apply gt_false. apply Hnone. exact Hj.
Qed.

Lemma trim_silence_rule_witness :
  Recorder._trim_silence_with_vad true Stated.onset_only (repeat Sample.still 25)
    = firstn (0 + 10) (repeat Sample.still 25) /\
  length (Recorder._trim_silence_with_vad true Stated.onset_only
            (repeat Sample.still 25))
    = Nat.min (0 + 10) (length (repeat Sample.still 25)).
Proof.
  pose proof (trim_silence_rule true Stated.onset_only (repeat Sample.still 25))
    as H.
  cbv zeta in H. destruct H as (_ & _ & H & _).
  apply H.
  - reflexivity.
  - vm_compute. lia.
  - vm_compute. lia.
  - reflexivity.
  - intros j Hj. unfold Stated.onset_only.
    destruct j as [|j]; [lia|]. simpl. discriminate.
Defined.

(** C7, as stated, fails on the code: a list of 15 frames with speech
    in its first frame only is returned whole, where the rule cuts it to
    10 frames. *)
Lemma trim_silence_counterexample :
  length (Recorder._trim_silence_with_vad true Stated.onset_only
            (repeat Sample.still 15)) = 15%nat /\
  length (Stated.trim_rule Stated.onset_only (repeat Sample.still 15)) = 10%nat /\
  Recorder._trim_silence_with_vad true Stated.onset_only (repeat Sample.still 15)
    <> Stated.trim_rule Stated.onset_only (repeat Sample.still 15).
Proof.
  split; [reflexivity|]. split; [reflexivity|].
  intros H. apply (f_equal (@length chunk)) in H. vm_compute in H. discriminate.
Qed.

(** ** The amplitude endpointer on silence *)

Section Silence.

Variable fsqrt : Q -> Q.
Variable cfg : AudioConfig.

Let quiet := Recorder.quiet fsqrt cfg.

Lemma timed_out_true (t start now : Q) :
  ~ (t == 0)%Q -> (t < now - start)%Q ->
  Recorder.timed_out (Some t) start now = true.
Proof.
  intros Ht Hlt. unfold Recorder.timed_out, truthy.
  apply andb_true_iff. split.
  - apply negb_true_iff. destruct (Qeq_bool t 0) eqn:E; [|reflexivity].
    apply Qeq_bool_iff in E. contradiction.
  - apply gt_true. exact Hlt.
Qed.

(** While nothing has been recorded, quiet input leaves the loop where
    it is, so it can only end with no segment. *)
Lemma amp_loop_quiet_no_segment (timeout : option Q) (start : Q)
    (evs : list Recorder.amp_event) (k : Z) (seg : list chunk) :
  Forall quiet evs ->
  Recorder.amp_loop fsqrt cfg timeout start [] k false evs
    <> Recorder.Done (Some seg).
Proof.
  induction evs as [|ev evs IH]; intros Hq; [discriminate|].
  inversion Hq as [|? ? Hev Hrest]; subst.
  destruct ev as [now data|]; simpl; [|discriminate].
  destruct (Recorder.timed_out timeout start now); simpl; [discriminate|].
  simpl in Hev. rewrite Hev. apply IH. exact Hrest.
Qed.

Lemma amp_loop_quiet_timeout (timeout : option Q) (start : Q)
    (pre rest : list Recorder.amp_event) (now : Q) (data : chunk) (k : Z) :
  Forall quiet pre ->
  Recorder.timed_out timeout start now = true ->
  Recorder.amp_loop fsqrt cfg timeout start [] k false
    (pre ++ Recorder.AChunk now data :: rest) = Recorder.Done None.
Proof.
  intros Hq Hto. induction pre as [|ev pre IH]; simpl.
  - rewrite Hto. reflexivity.
  - inversion Hq as [|? ? Hev Hrest]; subst.
    destruct ev as [now' data'|]; [|reflexivity].
    destruct (Recorder.timed_out timeout start now'); simpl; [reflexivity|].
    simpl in Hev. rewrite Hev. apply IH. exact Hrest.
Qed.

(** C6.  On input in which no chunk read exceeds the silence threshold,
    [record_with_amplitude] never returns a segment; and when the clock
    passes the timeout after such input, it returns none, whatever the
    device would deliver afterwards. *)
Theorem silence_never_starts (start : Q) :
  (forall timeout evs seg,
     Forall quiet evs ->
     Recorder.record_with_amplitude fsqrt cfg timeout start evs
       <> Recorder.Done (Some seg)) /\
  (forall t pre now data rest,
     ~ (t == 0)%Q ->
     Forall quiet pre ->
     (t < now - start)%Q ->
     Recorder.record_with_amplitude fsqrt cfg (Some t) start
       (pre ++ Recorder.AChunk now data :: rest) = Recorder.Done None).
Proof.
  split.
  - intros timeout evs seg Hq. apply amp_loop_quiet_no_segment. exact Hq.
  - intros t pre now data rest Ht Hq Hlt.
    apply amp_loop_quiet_timeout; [exact Hq|].
    apply timed_out_true; assumption.
Qed.

End Silence.

Lemma silence_never_starts_witness :
  Recorder.record_with_amplitude Sample.sqrt_floor default_audio (Some 5%Q) 0
    ([Recorder.AChunk 1 Sample.hum; Recorder.AChunk 3 Sample.still;
      Recorder.AChunk 5 Sample.hum]
     ++ Recorder.AChunk 6 Sample.loud :: [Recorder.AChunk 7 Sample.loud])
  = Recorder.Done None.
Proof.
  apply (silence_never_starts Sample.sqrt_floor default_audio 0).
  - vm_compute. discriminate.
  - repeat constructor; vm_compute; reflexivity.
  - reflexivity.
Defined.

(** ** Noise calibration *)

Lemma fmax_num (a b : Q) : fmax (Num a) (Num b) = Num (max2 a b).
Proof. unfold fmax, max2, fgt. destruct (gt b a); reflexivity. Qed.

Lemma fadd_nan (a b : pyfloat) : fadd a b = NaN <-> a = NaN \/ b = NaN.
Proof. destruct a, b; simpl; split; intros H; try tauto; try discriminate;
  destruct H; discriminate. Qed.

Lemma fmul_nan (a b : pyfloat) : fmul a b = NaN <-> a = NaN \/ b = NaN.
Proof. destruct a, b; simpl; split; intros H; try tauto; try discriminate;
  destruct H; discriminate. Qed.

Lemma fsub_nan (a b : pyfloat) : fsub a b = NaN <-> a = NaN \/ b = NaN.
Proof. destruct a, b; simpl; split; intros H; try tauto; try discriminate;
  destruct H; discriminate. Qed.

Lemma fsum_nan (l : list pyfloat) : Recorder.fsum l = NaN <-> In NaN l.
Proof.
  induction l as [|a l IH]; simpl.
  - split; [discriminate | tauto].
  - change (Recorder.fsum (a :: l)) with (fadd a (Recorder.fsum l)).
    rewrite fadd_nan, IH. split; intros [H | H]; auto.
Qed.

(** The mean is NaN exactly for an empty array and for one that holds
    a NaN. *)
Lemma mean_nan (l : list pyfloat) :
  Recorder.mean l = NaN <-> l = [] \/ In NaN l.
Proof.
  destruct l as [|a l]; [split; auto|].
  unfold Recorder.mean. rewrite <- fsum_nan.
  destruct (Recorder.fsum (a :: l)); split; intros H;
    try discriminate; try reflexivity; auto.
  destruct H as [H | H]; discriminate.
Qed.

Lemma sqrt_nan (fsqrt : Q -> Q) (a : pyfloat) :
  Recorder.sqrt fsqrt a = NaN <-> a = NaN.
Proof. destruct a; simpl; split; intros H; try discriminate; reflexivity. Qed.

Lemma std_nan (fsqrt : Q -> Q) (l : list pyfloat) :
  Recorder.std fsqrt l = NaN <-> l = [] \/ In NaN l.
Proof.
  unfold Recorder.std. cbv zeta. rewrite sqrt_nan, mean_nan. split.
  - intros [H | H].
    + left. destruct l; [reflexivity | discriminate].
    + apply in_map_iff in H as (x & Hx & Hin).
      apply fmul_nan in Hx.
      assert (Hsub : fsub x (Recorder.mean l) = NaN) by tauto.
      apply fsub_nan in Hsub as [-> | Hm]; [right; exact Hin|].
      apply mean_nan. exact Hm.
  - intros [-> | H]; [left; reflexivity|].
    right. apply in_map_iff. exists NaN. split; [reflexivity | exact H].
Qed.

Lemma amplitude_nan (fsqrt : Q -> Q) (data : chunk) :
  Recorder._get_audio_amplitude fsqrt data = NaN
  <-> Recorder.unpack_shorts data = [].
Proof.
  unfold Recorder._get_audio_amplitude. rewrite sqrt_nan, mean_nan. split.
  - intros [H | H].
    + destruct (Recorder.unpack_shorts data); [reflexivity | discriminate].
    + apply in_map_iff in H as (x & Hx & _). discriminate.
  - intros ->. left. reflexivity.
Qed.

(** The noise floor that calibration computes is NaN exactly when no
    sample is taken or a chunk read holds no sample. *)
Lemma noise_floor_nan (fsqrt : Q -> Q) (cfg : AudioConfig)
    (stream : nat -> chunk) :
  let amplitudes := Recorder.calibration_amplitudes fsqrt cfg stream in
  fadd (Recorder.mean amplitudes) (fmul (Num 2) (Recorder.std fsqrt amplitudes))
  = NaN
  <-> calibration_samples cfg = 0%nat \/
      exists i, (i < calibration_samples cfg)%nat /\
                Recorder.unpack_shorts (stream i) = [].
Proof.
  cbv zeta. rewrite fadd_nan, fmul_nan, mean_nan, std_nan.
  unfold Recorder.calibration_amplitudes.
  assert (Hempty : map (fun i => Recorder._get_audio_amplitude fsqrt (stream i))
                     (seq 0 (calibration_samples cfg)) = []
                   <-> calibration_samples cfg = 0%nat).
  { destruct (calibration_samples cfg); simpl; split; intros H;
      try reflexivity; discriminate. }
  assert (Hin : In NaN (map (fun i => Recorder._get_audio_amplitude fsqrt
                                        (stream i))
                          (seq 0 (calibration_samples cfg)))
                <-> exists i, (i < calibration_samples cfg)%nat /\
                              Recorder.unpack_shorts (stream i) = []).
  { rewrite in_map_iff. split.
    - intros (i & Hi & Hseq). exists i. apply in_seq in Hseq.
      split; [lia | apply (amplitude_nan fsqrt), Hi].
    - intros (i & Hi & Hs). exists i.
      split; [apply amplitude_nan, Hs | apply in_seq; lia]. }
  rewrite Hempty, Hin. split.
  - intros [H | [H | H]]; [exact H | discriminate | exact H].
  - intros H. left. exact H.
Qed.

(** C5.  What [calibrate_noise_floor] does where the claim fails.  It
    sets the noise floor to the mean plus twice the standard deviation
    of the amplitudes of the chunks it reads, and the silence threshold
    to the greater of three times the noise floor and the constant
    1000, whatever threshold was configured; so, when the noise floor
    is a number, the threshold is at least three times the noise floor,
    and at least 1000.  The noise floor is NaN, and the threshold with
    it, exactly when no sample is taken or a chunk read holds no
    sample.  The noise floor depends on the chunks and on the number of
    samples only: calibrating again on the same input gives the same
    noise floor.  [_load_calibration] raises the configured threshold
    to three times the stored noise floor when that is greater.  Hence,
    with a configured threshold of 2000 and a noise floor of 100,
    calibration leaves the threshold at 1000, where the greater of 300
    and the configured threshold is 2000, which is also what
    [_load_calibration] sets from the noise floor just saved. *)
Theorem calibration_threshold (fsqrt : Q -> Q) (cfg : AudioConfig)
    (stream : nat -> chunk) :
  let amplitudes := Recorder.calibration_amplitudes fsqrt cfg stream in
  let nf :=
    fadd (Recorder.mean amplitudes)
      (fmul (Num 2) (Recorder.std fsqrt amplitudes)) in
  let cfg' := Recorder.calibrate_noise_floor fsqrt cfg stream in
  ((noise_floor cfg' = Some nf /\
    silence_threshold cfg' = fmax (fmul nf (Num 3)) (Num 1000)) /\
   (forall v, nf = Num v ->
      silence_threshold cfg' = Num (max2 (v * 3) 1000) /\
      (v * 3 <= max2 (v * 3) 1000)%Q /\
      (1000 <= max2 (v * 3) 1000)%Q) /\
   ((nf = NaN <->
     calibration_samples cfg = 0%nat \/
     exists i, (i < calibration_samples cfg)%nat /\
               Recorder.unpack_shorts (stream i) = []) /\
    (nf = NaN -> silence_threshold cfg' = NaN)) /\
   (forall cfg2,
      calibration_samples cfg2 = calibration_samples cfg ->
      noise_floor (Recorder.calibrate_noise_floor fsqrt cfg2 stream)
        = noise_floor cfg') /\
   noise_floor (Recorder.calibrate_noise_floor fsqrt cfg' stream)
     = noise_floor cfg' /\
   (forall v t,
      ~ (v == 0)%Q -> silence_threshold cfg = Num t ->
      let loaded := Recorder._load_calibration cfg (Some (Some (Num v))) in
      noise_floor loaded = Some (Num v) /\
      silence_threshold loaded = Num (max2 (v * 3) t) /\
      (v * 3 <= max2 (v * 3) t)%Q /\
      (t <= max2 (v * 3) t)%Q)) /\
  (let at_2000 :=
     Recorder.calibrate_noise_floor Sample.sqrt_floor Sample.threshold_2000
       (fun _ => Sample.hum) in
   exists floor,
     noise_floor at_2000 = Some (Num floor) /\ (floor == 100)%Q /\
     silence_threshold at_2000 = Num 1000 /\
     fmax (fmul (Num floor) (Num 3)) (silence_threshold Sample.threshold_2000)
     = Num 2000 /\
     silence_threshold
       (Recorder._load_calibration Sample.threshold_2000
          (Recorder._save_calibration at_2000))
     = Num 2000).
Proof.
  cbv zeta. split.
  - split; [split; reflexivity|].
    split; [|split; [|split; [|split]]].
    + intros v Hv. unfold Recorder.calibrate_noise_floor. cbv zeta.
      cbn [silence_threshold]. rewrite Hv. simpl fmul. rewrite fmax_num.
      split; [reflexivity|]. split; [apply max2_ge_l | apply max2_ge_r].
    + split; [apply noise_floor_nan|].
      intros Hnan. unfold Recorder.calibrate_noise_floor. cbv zeta.
      cbn [silence_threshold]. rewrite Hnan. reflexivity.
    + intros cfg2 Hn. unfold Recorder.calibrate_noise_floor,
        Recorder.calibration_amplitudes. simpl. rewrite Hn. reflexivity.
    + reflexivity.
    + intros v t Hv Ht. unfold Recorder._load_calibration, float_truthy. simpl.
      destruct (Qeq_bool v 0) eqn:E.
      * apply Qeq_bool_iff in E. contradiction.
      * simpl. rewrite Ht. simpl fmul. rewrite fmax_num.
        repeat split; [apply max2_ge_l | apply max2_ge_r].
  - eexists. split; [vm_compute; reflexivity|].
    split; [vm_compute; reflexivity|].
    split; [vm_compute; reflexivity|].
    split; vm_compute; reflexivity.
Qed.

Lemma calibration_threshold_witness :
  silence_threshold
    (Recorder.calibrate_noise_floor Sample.sqrt_floor
       {| chunk_size := 1024; channels := 1; sample_rate := 16000;
          silence_threshold := Num 2000; silence_duration := 2;
          noise_floor := None; calibration_samples := 0 |}
       (fun _ => Sample.hum))
  = NaN.
Proof.
  pose proof (calibration_threshold Sample.sqrt_floor
                {| chunk_size := 1024; channels := 1; sample_rate := 16000;
                   silence_threshold := Num 2000; silence_duration := 2;
                   noise_floor := None; calibration_samples := 0 |}
                (fun _ => Sample.hum)) as H.
  cbv zeta in H. destruct H as ((_ & _ & (_ & H) & _) & _).
  apply H. reflexivity.
Defined.

(** ** Dispatch to the assistant process *)

Lemma universal_newlines_fixed (s : pystr) :
  Forall (fun c => c <> 13%N) s -> Claude.universal_newlines s = s.
Proof.
  induction 1 as [|c s Hc _ IH]; [reflexivity|]. simpl.
  destruct (N.eqb_spec c 13) as [E|_]; [contradiction|].
  rewrite IH. reflexivity.
Qed.

Section Dispatch.

Variable json_loads : pystr -> option Claude.pyval.
Variable exc_text : Claude.exc -> pystr.
Variable encodable : N -> bool.

Local Abbreviation send_query :=
  (Claude.send_query json_loads exc_text encodable).
Local Abbreviation send_to_claude :=
  (Claude.send_to_claude json_loads exc_text encodable).
Local Abbreviation handle_reply := (Claude.handle_reply encodable).
Local Abbreviation written := (Claude.written encodable).

(** The invocation is fixed before the process runs. *)
Lemma send_query_invoked (fs : gmap Claude.Path pystr)
    (claude : Claude.invocation -> Claude.outcome) (text : pystr)
    (profile_path : option Claude.Path) (reset_context : bool) :
  let session_file := Claude.session_file_of profile_path in
  let fs1 :=
    if reset_context && bool_decide (is_Some (fs !! session_file))
    then delete session_file fs else fs in
  Claude.invoked (send_query fs claude text profile_path reset_context) =
    {| Claude.cmd :=
         (Claude.base_cmd ++
          match fs1 !! session_file with
          | Some content =>
              if negb reset_context
              then [py "--resume"; strip (Claude.read_text content)] else []
          | None => []
          end) ++ [text];
       Claude.cwd := match profile_path with
                     | Some p => p
                     | None => Claude.default_context
                     end;
       Claude.files := fs1 |}.
Proof.
  cbv zeta. unfold Claude.send_query.
  destruct (claude _) as [m|rc out err]; [reflexivity|].
  destruct (negb (rc =? 0)%Z); [reflexivity|].
  destruct (json_loads out) as [v|]; [|reflexivity].
  destruct (Claude.handle_reply _ _ _ v). reflexivity.
Qed.

Lemma reset_removes (fs : gmap Claude.Path pystr) (p : Claude.Path) :
  (if bool_decide (is_Some (fs !! p)) then delete p fs else fs) !! p = None.
Proof.
  case_bool_decide as H.
  - apply lookup_delete_eq.
  - destruct (fs !! p) eqn:E; [|reflexivity]. exfalso. apply H. eauto.
Qed.

Lemma reset_keeps_others (fs : gmap Claude.Path pystr) (p q : Claude.Path) :
  q <> p ->
  (if bool_decide (is_Some (fs !! p)) then delete p fs else fs) !! q = fs !! q.
Proof.
  intros Hne. case_bool_decide; [|reflexivity].
  apply lookup_delete_ne. congruence.
Qed.

(** What [send_query] answers for each outcome of the process. *)
Lemma send_query_outcome (fs : gmap Claude.Path pystr)
    (claude : Claude.invocation -> Claude.outcome) (text : pystr)
    (profile_path : option Claude.Path) (reset_context : bool) :
  let r := send_query fs claude text profile_path reset_context in
  let fs1 := Claude.files (Claude.invoked r) in
  let session_file := Claude.session_file_of profile_path in
  (forall m,
     claude (Claude.invoked r) = Claude.Raises m ->
     Claude.response r = Claude.error_reply m /\ Claude.files_after r = fs1) /\
  (forall rc out err,
     claude (Claude.invoked r) = Claude.Exits rc out err -> rc <> 0%Z ->
     Claude.response r
     = Claude.error_reply match err with
                          | [] => py "Unknown error"
                          | _ => strip err
                          end /\
     Claude.files_after r = fs1) /\
  (forall out err,
     claude (Claude.invoked r) = Claude.Exits 0 out err ->
     json_loads out = None ->
     Claude.response r = strip out /\ Claude.files_after r = fs1) /\
  (forall out err v,
     claude (Claude.invoked r) = Claude.Exits 0 out err ->
     json_loads out = Some v ->
     Claude.files_after r = fst (handle_reply fs1 session_file v) /\
     Claude.response r = match snd (handle_reply fs1 session_file v) with
                         | inl e => Claude.error_reply (exc_text e)
                         | inr t => t
                         end).
Proof.
  cbv zeta. rewrite send_query_invoked. cbv zeta.
  unfold Claude.send_query.
  set (fs1 := if reset_context && _ then _ else fs).
  set (inv := {| Claude.cmd := _ |}). simpl Claude.files.
  split; [|split; [|split]].
  - intros m Hc. rewrite Hc. split; reflexivity.
  - intros rc out err Hc Hrc. rewrite Hc.
    destruct (Z.eqb_spec rc 0) as [E|_]; [contradiction|].
    split; reflexivity.
  - intros out err Hc Hj. rewrite Hc. simpl negb. cbv iota. rewrite Hj.
    split; reflexivity.
  - intros out err v Hc Hj. rewrite Hc. simpl negb. cbv iota. rewrite Hj.
    destruct (Claude.handle_reply encodable fs1 _ v) as [fs' a].
    split; reflexivity.
Qed.

Lemma handle_reply_session_id (fs : gmap Claude.Path pystr)
    (session_file : Claude.Path) (d : list (pystr * Claude.pyval)) (y : pystr) :
  Claude.dict_get d (py "session_id") = Some (Claude.PyStr y) ->
  handle_reply fs session_file (Claude.PyDict d)
  = (<[session_file := written y]> fs,
     if forallb encodable y then Claude.get_result d
     else inl Claude.UnicodeEncodeError).
Proof.
  intros H. unfold Claude.handle_reply, Claude.write_text. rewrite H.
  destruct (forallb encodable y); reflexivity.
Qed.

(** What a reply can do to the store: nothing, or write the
    [session_id] of the reply to the session file. *)
Lemma handle_reply_files (fs : gmap Claude.Path pystr)
    (session_file : Claude.Path) (v : Claude.pyval) :
  fst (handle_reply fs session_file v) = fs \/
  exists d y,
    v = Claude.PyDict d /\
    Claude.dict_get d (py "session_id") = Some (Claude.PyStr y) /\
    fst (handle_reply fs session_file v) = <[session_file := written y]> fs.
Proof.
  destruct v as [| | | | s | l | d]; try (left; reflexivity).
  - left. simpl. destruct (is_infix _ _); reflexivity.
  - left. simpl. destruct (existsb _ _); reflexivity.
  - destruct (Claude.dict_get d (py "session_id")) as [v|] eqn:E.
    + destruct v as [| | | | y | |];
        try (left; unfold Claude.handle_reply; rewrite E; reflexivity).
      right. exists d, y. split; [reflexivity|]. split; [exact E|].
      rewrite (handle_reply_session_id fs session_file d y E). reflexivity.
    + left. unfold Claude.handle_reply. rewrite E. reflexivity.
Qed.

Lemma send_query_files_after (fs : gmap Claude.Path pystr)
    (claude : Claude.invocation -> Claude.outcome) (text : pystr)
    (profile_path : option Claude.Path) (reset_context : bool) :
  let r := send_query fs claude text profile_path reset_context in
  let session_file := Claude.session_file_of profile_path in
  Claude.files_after r = Claude.files (Claude.invoked r) \/
  exists stdout stderr d y,
    claude (Claude.invoked r) = Claude.Exits 0 stdout stderr /\
    json_loads stdout = Some (Claude.PyDict d) /\
    Claude.dict_get d (py "session_id") = Some (Claude.PyStr y) /\
    Claude.files_after r
    = <[session_file := written y]> (Claude.files (Claude.invoked r)).
Proof.
  cbv zeta.
  destruct (send_query_outcome fs claude text profile_path reset_context)
    as (Hraise & Hexit & Hraw & Hparsed).
  destruct (claude _) as [m|rc out err] eqn:Hc.
  - left. exact (proj2 (Hraise m eq_refl)).
  - destruct (Z.eq_dec rc 0%Z) as [->|Hrc];
      [|left; exact (proj2 (Hexit rc out err eq_refl Hrc))].
    destruct (json_loads out) as [v|] eqn:Hj;
      [|left; exact (proj2 (Hraw out err eq_refl Hj))].
    destruct (Hparsed out err v eq_refl Hj) as [Hfiles _].
    destruct (handle_reply_files
                (Claude.files
                   (Claude.invoked
                      (send_query fs claude text profile_path reset_context)))
                (Claude.session_file_of profile_path) v)
      as [Hsame | (d & y & -> & Hd & Hput)].
    + left. rewrite Hfiles. exact Hsame.
    + right. exists out, err, d, y. repeat split; try assumption.
      rewrite Hfiles. exact Hput.
Qed.

Lemma send_query_resume (fs : gmap Claude.Path pystr)
    (claude : Claude.invocation -> Claude.outcome) (text : pystr)
    (profile_path : option Claude.Path) (x : pystr) :
  fs !! Claude.session_file_of profile_path = Some x ->
  let r := send_query fs claude text profile_path false in
  Claude.cmd (Claude.invoked r)
    = Claude.base_cmd ++ [py "--resume"; strip (Claude.read_text x); text] /\
  Claude.files (Claude.invoked r) = fs.
Proof.
  intros Hx. cbv zeta. rewrite send_query_invoked. cbv zeta.
  simpl. rewrite Hx. split; reflexivity.
Qed.

Lemma send_query_adopts (fs : gmap Claude.Path pystr)
    (claude : Claude.invocation -> Claude.outcome) (text : pystr)
    (profile_path : option Claude.Path) (reset_context : bool)
    (stdout stderr : pystr) (d : list (pystr * Claude.pyval)) (y : pystr) :
  let r := send_query fs claude text profile_path reset_context in
  claude (Claude.invoked r) = Claude.Exits 0 stdout stderr ->
  json_loads stdout = Some (Claude.PyDict d) ->
  Claude.dict_get d (py "session_id") = Some (Claude.PyStr y) ->
  Claude.files_after r
  = <[Claude.session_file_of profile_path := written y]>
      (Claude.files (Claude.invoked r)) /\
  Claude.response r
  = match (if forallb encodable y then Claude.get_result d
           else inl Claude.UnicodeEncodeError) with
    | inl e => Claude.error_reply (exc_text e)
    | inr t => t
    end.
Proof.
  cbv zeta. intros Hc Hj Hd.
  destruct (send_query_outcome fs claude text profile_path reset_context)
    as (_ & _ & _ & Hparsed).
  destruct (Hparsed stdout stderr _ Hc Hj) as [Hfiles Hresp].
  rewrite Hfiles, Hresp, (handle_reply_session_id _ _ d y Hd).
  split; reflexivity.
Qed.

(** The session file after a dispatch that started without one: there
    is none still, or it holds what writing the [session_id] of the
    reply left in it. *)
Lemma send_query_new_file (fs : gmap Claude.Path pystr)
    (claude : Claude.invocation -> Claude.outcome) (text : pystr)
    (profile_path : option Claude.Path) (reset_context : bool) :
  let r := send_query fs claude text profile_path reset_context in
  let session_file := Claude.session_file_of profile_path in
  Claude.files (Claude.invoked r) !! session_file = None ->
  Claude.files_after r !! session_file = None \/
  exists stdout stderr d y,
    claude (Claude.invoked r) = Claude.Exits 0 stdout stderr /\
    json_loads stdout = Some (Claude.PyDict d) /\
    Claude.dict_get d (py "session_id") = Some (Claude.PyStr y) /\
    Claude.files_after r !! session_file = Some (written y).
Proof.
  cbv zeta. intros Hnone.
  destruct (send_query_files_after fs claude text profile_path reset_context)
    as [Hsame | (out & err & d & y & Hc & Hj & Hd & Hput)].
  - left. rewrite Hsame. exact Hnone.
  - right. exists out, err, d, y. repeat split; try assumption.
    rewrite Hput. apply lookup_insert_eq.
Qed.

(** C2.  A dispatch with the reset flag set starts the process without
    a resume argument, on a store from which the session file has been
    removed, whatever it held, and which is otherwise unchanged.  The
    process is run on that invocation and its outcome decides what the
    dispatch returns and leaves in the store: an error message and the
    store as the process found it when the process cannot be run or
    exits with a status other than 0, the stripped output when that is
    not JSON, and for a reply object with a [session_id] and a [result]
    that are strings the stripped result, the id having been written to
    the session file.  So afterwards there is no session file, or it
    holds what writing the id of the reply left in it: the old id is
    gone.  After the dispatch the flag is clear: the next dispatch is an
    ordinary one and starts on the store as this one left it. *)
Theorem reset_dispatch (pm : Claude.ProfileManager)
    (fs : gmap Claude.Path pystr)
    (claude : Claude.invocation -> Claude.outcome) (text : pystr) :
  Claude.reset_context_mode pm = true ->
  let session_file :=
    Claude.session_file_of (Claude.get_current_profile_path pm) in
  let r := fst (send_to_claude pm fs claude text) in
  let pm' := snd (send_to_claude pm fs claude text) in
  let fs1 := Claude.files (Claude.invoked r) in
  (Claude.cmd (Claude.invoked r) = Claude.base_cmd ++ [text] /\
   fs1 !! session_file = None /\
   (forall p, p <> session_file -> fs1 !! p = fs !! p)) /\
  ((forall m,
      claude (Claude.invoked r) = Claude.Raises m ->
      Claude.response r = Claude.error_reply m /\ Claude.files_after r = fs1) /\
   (forall rc out err,
      claude (Claude.invoked r) = Claude.Exits rc out err -> rc <> 0%Z ->
      Claude.response r
      = Claude.error_reply match err with
                           | [] => py "Unknown error"
                           | _ => strip err
                           end /\
      Claude.files_after r = fs1) /\
   (forall out err,
      claude (Claude.invoked r) = Claude.Exits 0 out err ->
      json_loads out = None ->
      Claude.response r = strip out /\ Claude.files_after r = fs1) /\
   (forall out err d y t,
      claude (Claude.invoked r) = Claude.Exits 0 out err ->
      json_loads out = Some (Claude.PyDict d) ->
      Claude.dict_get d (py "session_id") = Some (Claude.PyStr y) ->
      forallb encodable y = true ->
      Claude.dict_get d (py "result") = Some (Claude.PyStr t) ->
      Claude.response r = strip t /\
      Claude.files_after r = <[session_file := y]> fs1)) /\
  (Claude.files_after r !! session_file = None \/
   exists out err d y,
     claude (Claude.invoked r) = Claude.Exits 0 out err /\
     json_loads out = Some (Claude.PyDict d) /\
     Claude.dict_get d (py "session_id") = Some (Claude.PyStr y) /\
     Claude.files_after r !! session_file
     = Some (if forallb encodable y then y else [])) /\
  Claude.reset_context_mode pm' = false /\
  (forall claude2 text2,
     fst (send_to_claude pm' (Claude.files_after r) claude2 text2)
     = send_query (Claude.files_after r) claude2 text2
         (Claude.get_current_profile_path pm) false /\
     Claude.files
       (Claude.invoked
          (fst (send_to_claude pm' (Claude.files_after r) claude2 text2)))
     = Claude.files_after r).
Proof.
  intros Hreset. cbv zeta.
  unfold Claude.send_to_claude. simpl fst. simpl snd.
  rewrite Hreset.
  change (Claude.get_current_profile_path
            {| Claude.context_dir := Claude.context_dir pm;
               Claude.current_profile := Claude.current_profile pm;
               Claude.reset_context_mode := false;
               Claude.session_id := Claude.session_id pm |})
    with (Claude.get_current_profile_path pm).
  set (pp := Claude.get_current_profile_path pm).
  destruct (send_query_outcome fs claude text pp true)
    as (Hraise & Hexit & Hraw & Hparsed).
  assert (Hnone : Claude.files
                    (Claude.invoked (send_query fs claude text pp true))
                  !! Claude.session_file_of pp = None).
  { rewrite send_query_invoked. cbv zeta. simpl Claude.files.
    apply reset_removes. }
  split; [|split; [|split; [|split]]].
  - split; [|split; [exact Hnone|]].
    + rewrite send_query_invoked in *. cbv zeta in *. simpl in *.
      rewrite Hnone. reflexivity.
    + intros p Hp. rewrite send_query_invoked. cbv zeta. simpl Claude.files.
      apply reset_keeps_others. exact Hp.
  - split; [exact Hraise|]. split; [exact Hexit|]. split; [exact Hraw|].
    intros out err d y t Hc Hj Hd Hy Ht.
    destruct (send_query_adopts fs claude text pp true out err d y Hc Hj Hd)
      as [Hfiles Hresp].
    rewrite Hfiles, Hresp. unfold Claude.written, Claude.get_result.
    rewrite Hy, Ht. split; reflexivity.
  - apply (send_query_new_file fs claude text pp true Hnone).
  - reflexivity.
  - intros claude2 text2. split; [reflexivity|].
    rewrite send_query_invoked. reflexivity.
Qed.

(** C1, as amended.  A dispatch without reset, on a store whose
    session file holds the text [x], starts the process with the
    arguments [--resume] and [x] as text mode reads it, stripped of
    surrounding white space, and the identifier the profile manager
    makes up has no part in the invocation.  When the process exits
    with status 0 and its output parses to an object whose [session_id]
    is a string [y], then [y] is written to the session file: as it is
    when the encoding of the locale has all its characters, and
    otherwise the file is left empty and an error is returned.  Every
    following dispatch without reset resumes with what the file then
    holds, read in text mode and stripped; that is [y] itself when [y]
    has no carriage return and no surrounding white space.  In every
    case the session file afterwards holds either what it held or what
    writing the [session_id] of such a reply left in it. *)
Theorem resume_uses_stored_id (pm : Claude.ProfileManager)
    (fs : gmap Claude.Path pystr)
    (claude : Claude.invocation -> Claude.outcome) (text x : pystr) :
  Claude.reset_context_mode pm = false ->
  fs !! Claude.session_file_of (Claude.get_current_profile_path pm) = Some x ->
  let session_file :=
    Claude.session_file_of (Claude.get_current_profile_path pm) in
  let r := fst (send_to_claude pm fs claude text) in
  let pm' := snd (send_to_claude pm fs claude text) in
  let next claude2 text2 :=
    Claude.cmd
      (Claude.invoked
         (fst (send_to_claude pm' (Claude.files_after r) claude2 text2))) in
  Claude.cmd (Claude.invoked r)
    = Claude.base_cmd ++ [py "--resume"; strip (Claude.read_text x); text] /\
  (forall made_up,
     Claude.invoked
       (fst (send_to_claude
               {| Claude.context_dir := Claude.context_dir pm;
                  Claude.current_profile := Claude.current_profile pm;
                  Claude.reset_context_mode := Claude.reset_context_mode pm;
                  Claude.session_id := made_up |} fs claude text))
     = Claude.invoked r) /\
  (forall stdout stderr d y,
     claude (Claude.invoked r) = Claude.Exits 0 stdout stderr ->
     json_loads stdout = Some (Claude.PyDict d) ->
     Claude.dict_get d (py "session_id") = Some (Claude.PyStr y) ->
     (forallb encodable y = true ->
      Claude.files_after r !! session_file = Some y /\
      (forall claude2 text2,
         next claude2 text2
         = Claude.base_cmd ++ [py "--resume"; strip (Claude.read_text y); text2]) /\
      (Forall (fun c => c <> 13%N) y -> strip y = y ->
       forall claude2 text2,
         next claude2 text2 = Claude.base_cmd ++ [py "--resume"; y; text2])) /\
     (forallb encodable y = false ->
      Claude.files_after r !! session_file = Some [] /\
      Claude.response r
      = Claude.error_reply (exc_text Claude.UnicodeEncodeError) /\
      forall claude2 text2,
        next claude2 text2 = Claude.base_cmd ++ [py "--resume"; []; text2])) /\
  (Claude.files_after r !! session_file = Some x \/
   exists stdout stderr d y,
     claude (Claude.invoked r) = Claude.Exits 0 stdout stderr /\
     json_loads stdout = Some (Claude.PyDict d) /\
     Claude.dict_get d (py "session_id") = Some (Claude.PyStr y) /\
     Claude.files_after r !! session_file
     = Some (if forallb encodable y then y else [])).
Proof.
  intros Hflag Hx. cbv zeta.
  unfold Claude.send_to_claude. simpl fst. simpl snd.
  rewrite Hflag.
  change (Claude.get_current_profile_path
            {| Claude.context_dir := Claude.context_dir pm;
               Claude.current_profile := Claude.current_profile pm;
               Claude.reset_context_mode := false;
               Claude.session_id := Claude.session_id pm |})
    with (Claude.get_current_profile_path pm).
  set (pp := Claude.get_current_profile_path pm) in *.
  destruct (send_query_resume fs claude text pp x Hx) as [Hcmd Hfiles].
  split; [exact Hcmd|]. split; [reflexivity|]. split.
  - intros stdout stderr d y Hc Hj Hd.
    destruct (send_query_adopts fs claude text pp false stdout stderr d y
                Hc Hj Hd) as [Hafter Hresp].
    assert (Hy : Claude.files_after (send_query fs claude text pp false)
                 !! Claude.session_file_of pp = Some (written y)).
    { rewrite Hafter. apply lookup_insert_eq. }
    assert (Hnext : forall claude2 text2,
              Claude.cmd
                (Claude.invoked
                   (send_query
                      (Claude.files_after (send_query fs claude text pp false))
                      claude2 text2 pp false))
              = Claude.base_cmd
                ++ [py "--resume"; strip (Claude.read_text (written y)); text2]).
    { intros claude2 text2.
      apply (send_query_resume _ claude2 text2 pp (written y) Hy). }
    unfold Claude.written in Hy, Hnext. split; intros Henc;
      rewrite Henc in Hy, Hnext.
    + split; [exact Hy|]. split; [exact Hnext|].
      intros Hcr Hstrip claude2 text2. rewrite Hnext.
      unfold Claude.read_text. rewrite (universal_newlines_fixed y Hcr), Hstrip.
      reflexivity.
    + split; [exact Hy|]. split; [|exact Hnext].
      rewrite Hresp, Henc. reflexivity.
  - destruct (send_query_files_after fs claude text pp false)
      as [Hsame | (stdout & stderr & d & y & Hc & Hj & Hd & Hput)].
    + left. rewrite Hsame, Hfiles. exact Hx.
    + right. exists stdout, stderr, d, y. repeat split; try assumption.
      rewrite Hput. apply lookup_insert_eq.
Qed.

End Dispatch.

Lemma reset_dispatch_witness :
  Claude.response
    (fst (Claude.send_to_claude Sample.loads Sample.exc_text Sample.utf8
            (Sample.no_profile true) Sample.store_X
            (Sample.answers (Sample.reply_text (py "Y"))) (py "hello")))
  = strip (py "ok") /\
  Claude.files_after
    (fst (Claude.send_to_claude Sample.loads Sample.exc_text Sample.utf8
            (Sample.no_profile true) Sample.store_X
            (Sample.answers (Sample.reply_text (py "Y"))) (py "hello")))
  = <[Claude.session_file_of None := py "Y"]>
      (Claude.files
         (Claude.invoked
            (fst (Claude.send_to_claude Sample.loads Sample.exc_text
                    Sample.utf8 (Sample.no_profile true) Sample.store_X
                    (Sample.answers (Sample.reply_text (py "Y")))
                    (py "hello"))))).
Proof.
  pose proof (reset_dispatch Sample.loads Sample.exc_text Sample.utf8
                (Sample.no_profile true) Sample.store_X
                (Sample.answers (Sample.reply_text (py "Y"))) (py "hello")
                eq_refl) as H.
  cbv zeta in H. destruct H as (_ & (_ & _ & _ & H) & _).
  apply (H (Sample.reply_text (py "Y")) []
           [(py "result", Claude.PyStr (py "ok"));
            (py "session_id", Claude.PyStr (py "Y"))] (py "Y") (py "ok"));
    reflexivity.
Defined.

Lemma resume_uses_stored_id_witness :
  Claude.cmd
    (Claude.invoked
       (fst (Claude.send_to_claude Sample.loads Sample.exc_text Sample.utf8
               (Sample.no_profile false) Sample.store_X
               (Sample.answers (Sample.reply_text (py "Y"))) (py "hello"))))
  = Claude.base_cmd
    ++ [py "--resume"; strip (Claude.read_text (py "X")); py "hello"].
Proof.
  pose proof (resume_uses_stored_id Sample.loads Sample.exc_text Sample.utf8
                (Sample.no_profile false) Sample.store_X
                (Sample.answers (Sample.reply_text (py "Y"))) (py "hello")
                (py "X") eq_refl eq_refl) as H.
  cbv zeta in H. destruct H as [H _]. exact H.
Defined.

(** C1, as stated, fails on the code.  A reply whose [session_id] is
    the string [ y], with a leading space, is written to the session
    file as it is, and the next dispatch resumes with [y], not with the
    identifier of the reply.  A reply object that carries the
    [session_id] [Y] while the process exits with status 1 is not
    written: the next dispatch resumes with [X] again.  And a
    [session_id] with a carriage return between [a] and [b] is resumed
    with a line feed in its place. *)
Lemma resume_counterexample :
  let sf := Claude.session_file_of None in
  let first (claude : Claude.invocation -> Claude.outcome) :=
    Claude.send_query Sample.loads Sample.exc_text Sample.utf8 Sample.store_X
      claude (py "hello") None false in
  let second (claude : Claude.invocation -> Claude.outcome) :=
    Claude.send_query Sample.loads Sample.exc_text Sample.utf8
      (Claude.files_after (first claude))
      (Sample.answers (Sample.reply_text (py "Y"))) (py "again") None false in
  (Claude.files_after (first (Sample.answers (Sample.reply_text (py " y"))))
     !! sf = Some (py " y") /\
   Claude.cmd (Claude.invoked
                 (second (Sample.answers (Sample.reply_text (py " y")))))
     = Claude.base_cmd ++ [py "--resume"; py "y"; py "again"]) /\
  (Sample.loads (Sample.reply_text (py "Y")) = Some (Sample.reply_value (py "Y")) /\
   Claude.files_after (first (Sample.fails_with (Sample.reply_text (py "Y"))))
     !! sf = Some (py "X") /\
   Claude.cmd (Claude.invoked
                 (second (Sample.fails_with (Sample.reply_text (py "Y")))))
     = Claude.base_cmd ++ [py "--resume"; py "X"; py "again"]) /\
  (Claude.files_after (first (Sample.answers (Sample.reply_text (py "a\rb"))))
     !! sf = Some [97; 13; 98]%N /\
   Claude.cmd (Claude.invoked
                 (second (Sample.answers (Sample.reply_text (py "a\rb")))))
     = Claude.base_cmd ++ [py "--resume"; [97; 10; 98]%N; py "again"]).
Proof.
  cbv zeta. repeat split.
Qed.

(** ** The cancel listener *)

Lemma total_insert (f : Cancel.kpc * Cancel.vpc -> nat)
    (l : list (Cancel.kpc * Cancel.vpc)) (i : nat)
    (w w' : Cancel.kpc * Cancel.vpc) :
  l !! i = Some w ->
  (Cancel.total f (<[i := w']> l) + f w = Cancel.total f l + f w')%nat.
Proof.
  revert i. unfold Cancel.total.
  induction l as [|x l IH]; intros [|i] H; simpl in *; try discriminate.
  - injection H as ->. lia.
  - specialize (IH i H). lia.
Qed.

Lemma total_app (f : Cancel.kpc * Cancel.vpc -> nat)
    (l : list (Cancel.kpc * Cancel.vpc)) (w : Cancel.kpc * Cancel.vpc) :
  Cancel.total f (l ++ [w]) = (Cancel.total f l + f w)%nat.
Proof.
  unfold Cancel.total. rewrite map_app, list_sum_app. simpl. lia.
Qed.

(** The totals after the watcher at [i] has moved. *)
Ltac moved Hi :=
  match goal with
  | |- context [<[?i := ?w']> ?l] =>
      pose proof (total_insert Cancel.k_left l i _ w' Hi);
      pose proof (total_insert Cancel.v_left l i _ w' Hi);
      pose proof (total_insert Cancel.at_cancel l i _ w' Hi);
      pose proof (total_insert Cancel.at_stop l i _ w' Hi)
  end;
  unfold Cancel.k_left, Cancel.v_left, Cancel.at_cancel, Cancel.at_stop in *;
  cbn [fst snd] in *; rewrite ?length_insert.

Ltac settle :=
  repeat match goal with
         | |- _ /\ _ => split
         | |- _ -> _ => intro
         | H : _ /\ _ |- _ => destruct H
         end;
  try discriminate; try lia; try tauto; try congruence; auto;
  try (exfalso;
       match goal with
       | H : true = true -> _ \/ _ |- _ =>
           destruct (H eq_refl); discriminate
       end).

Lemma cancel_step_invariant (a : Cancel.actor) (input : bool) (s : Cancel.state) :
  Cancel.invariant s -> Cancel.invariant (Cancel.step a input s).
Proof.
  intros Hinv. destruct a as [i|i|]; simpl.
  - unfold Cancel.step_keyboard.
    destruct (Cancel.watchers s !! i) as [[k v]|] eqn:Hi; [|exact Hinv].
    destruct s as [flag ws m proc d t kt vt cc tc sc].
    unfold Cancel.invariant, Cancel.dispatching, Cancel.lock_free in *.
    cbn [Cancel.watchers Cancel.cancel_requested Cancel.mn] in *.
    destruct Hinv as (H1 & H2 & H3 & H4 & H5 & H6 & H7 & H8 & H9 & H10).
    cbn -[Cancel.total] in *. destruct k.
    + destruct v; cbn -[Cancel.total]; moved Hi; settle.
    + destruct flag; cbn -[Cancel.total]; moved Hi; settle.
    + destruct input; cbn -[Cancel.total]; moved Hi; settle.
    + cbn -[Cancel.total]; moved Hi; settle.
    + destruct m; cbn -[Cancel.total]; try (moved Hi); destruct proc; settle.
    + cbn -[Cancel.total]; moved Hi; settle.
    + cbn -[Cancel.total]; moved Hi; settle.
    + settle.
  - unfold Cancel.step_voice.
    destruct (Cancel.watchers s !! i) as [[k v]|] eqn:Hi; [|exact Hinv].
    destruct s as [flag ws m proc d t kt vt cc tc sc].
    unfold Cancel.invariant, Cancel.dispatching, Cancel.lock_free in *.
    cbn [Cancel.watchers Cancel.cancel_requested Cancel.mn] in *.
    destruct Hinv as (H1 & H2 & H3 & H4 & H5 & H6 & H7 & H8 & H9 & H10).
    cbn -[Cancel.total] in *. destruct v.
    + settle.
    + destruct flag; cbn -[Cancel.total]; moved Hi; settle.
    + destruct input; cbn -[Cancel.total]; moved Hi; settle.
    + cbn -[Cancel.total]; moved Hi; settle.
    + destruct m; cbn -[Cancel.total]; try (moved Hi); destruct proc; settle.
    + cbn -[Cancel.total]; moved Hi; settle.
    + cbn -[Cancel.total]; moved Hi; settle.
    + settle.
  - destruct s as [flag ws m proc d t kt vt cc tc sc].
    unfold Cancel.invariant, Cancel.dispatching, Cancel.step_main in *.
    cbn [Cancel.watchers Cancel.cancel_requested Cancel.mn] in *.
    destruct Hinv as (H1 & H2 & H3 & H4 & H5 & H6 & H7 & H8 & H9 & H10).
    destruct m; try (destruct input); destruct proc;
      cbn -[Cancel.total] in *;
      rewrite ?total_app, ?length_app in *;
      unfold Cancel.k_left, Cancel.v_left, Cancel.at_cancel, Cancel.at_stop
        in *;
      cbn -[Cancel.total] in *; settle.
Qed.

Lemma cancel_run_invariant (sch : Cancel.schedule) (s : Cancel.state) :
  Cancel.invariant s -> Cancel.invariant (Cancel.run_schedule sch s).
Proof.
  revert s. induction sch as [|[a input] sch IH]; intros s Hs; [exact Hs|].
  apply IH. apply cancel_step_invariant. exact Hs.
Qed.

Lemma cancel_init_invariant : Cancel.invariant Cancel.init.
Proof.
  unfold Cancel.invariant, Cancel.total. simpl.
  repeat split; intros; try lia; try discriminate.
Qed.

(** A watcher of a kind that never observes its trigger never sets the
    flag for it. *)
Lemma cancel_voice_silent (sch : Cancel.schedule) (s : Cancel.state) :
  Cancel.never_triggers Cancel.VoiceWatcher sch ->
  Cancel.total Cancel.v_set (Cancel.watchers s) = 0%nat ->
  Cancel.v_triggers (Cancel.run_schedule sch s) = Cancel.v_triggers s.
Proof.
  revert s. induction sch as [|[a input] sch IH]; intros s Hq Hv;
    [reflexivity|].
  inversion Hq as [|? ? Ha Hrest]; subst. simpl in Ha. simpl.
  assert (Hstep : Cancel.v_triggers (Cancel.step a input s)
                  = Cancel.v_triggers s /\
                  Cancel.total Cancel.v_set
                    (Cancel.watchers (Cancel.step a input s)) = 0%nat).
  { destruct a as [i|i|]; simpl.
    - unfold Cancel.step_keyboard.
      destruct (Cancel.watchers s !! i) as [[k v]|] eqn:Hi; [|auto].
      destruct k; try (destruct v); try (destruct (Cancel.cancel_requested s));
        try (destruct input); try (destruct (Cancel.lock_free s));
        cbn -[Cancel.total]; (split; [reflexivity|]); try exact Hv;
        match goal with
        | |- context [<[?i := ?w']> ?l] =>
            pose proof (total_insert Cancel.v_set l i _ w' Hi) as Ht
        end; unfold Cancel.v_set in *; cbn [fst snd] in *; lia.
    - unfold Cancel.step_voice.
      destruct (Cancel.watchers s !! i) as [[k v]|] eqn:Hi; [|auto].
      destruct v; try (destruct (Cancel.cancel_requested s));
        try (destruct (Cancel.lock_free s)); subst;
        cbn -[Cancel.total]; try (split; [reflexivity | exact Hv]);
        try (split; [reflexivity|];
             match goal with
             | |- context [<[?i := ?w']> ?l] =>
                 pose proof (total_insert Cancel.v_set l i _ w' Hi) as Ht
             end; unfold Cancel.v_set in *; cbn [fst snd] in *; lia).
      all: exfalso;
        pose proof (total_insert Cancel.v_set (Cancel.watchers s) i
                      (k, Cancel.VSetFlag) (k, Cancel.VDone) Hi) as Ht;
        unfold Cancel.v_set in *; cbn [fst snd] in *; lia.
    - unfold Cancel.step_main.
      destruct (Cancel.mn s); try (destruct input); cbn -[Cancel.total];
        rewrite ?total_app; unfold Cancel.v_set in *; simpl;
        (split; [reflexivity | lia]). }
  destruct Hstep as [Ht Hv']. rewrite (IH _ Hrest Hv'). exact Ht.
Qed.

Lemma cancel_keyboard_silent (sch : Cancel.schedule) (s : Cancel.state) :
  Cancel.never_triggers Cancel.KeyboardWatcher sch ->
  Cancel.total Cancel.k_set (Cancel.watchers s) = 0%nat ->
  Cancel.k_triggers (Cancel.run_schedule sch s) = Cancel.k_triggers s.
Proof.
  revert s. induction sch as [|[a input] sch IH]; intros s Hq Hv;
    [reflexivity|].
  inversion Hq as [|? ? Ha Hrest]; subst. simpl in Ha. simpl.
  assert (Hstep : Cancel.k_triggers (Cancel.step a input s)
                  = Cancel.k_triggers s /\
                  Cancel.total Cancel.k_set
                    (Cancel.watchers (Cancel.step a input s)) = 0%nat).
  { destruct a as [i|i|]; simpl.
    - unfold Cancel.step_keyboard.
      destruct (Cancel.watchers s !! i) as [[k v]|] eqn:Hi; [|auto].
      destruct k; try (destruct (Cancel.cancel_requested s));
        try (destruct (Cancel.lock_free s)); subst;
        cbn -[Cancel.total]; try (split; [reflexivity | exact Hv]);
        try (split; [reflexivity|];
             match goal with
             | |- context [<[?i := ?w']> ?l] =>
                 pose proof (total_insert Cancel.k_set l i _ w' Hi) as Ht
             end; unfold Cancel.k_set in *; cbn [fst snd] in *; lia).
      all: exfalso;
        pose proof (total_insert Cancel.k_set (Cancel.watchers s) i
                      (Cancel.KSetFlag, v) (Cancel.KDone, v) Hi) as Ht;
        unfold Cancel.k_set in *; cbn [fst snd] in *; lia.
    - unfold Cancel.step_voice.
      destruct (Cancel.watchers s !! i) as [[k v]|] eqn:Hi; [|auto].
      destruct v; try (destruct (Cancel.cancel_requested s));
        try (destruct input); try (destruct (Cancel.lock_free s));
        cbn -[Cancel.total]; (split; [reflexivity|]); try exact Hv;
        match goal with
        | |- context [<[?i := ?w']> ?l] =>
            pose proof (total_insert Cancel.k_set l i _ w' Hi) as Ht
        end; unfold Cancel.k_set in *; cbn [fst snd] in *; lia.
    - unfold Cancel.step_main.
      destruct (Cancel.mn s); try (destruct input); cbn -[Cancel.total];
        rewrite ?total_app; unfold Cancel.k_set in *; simpl;
        (split; [reflexivity | lia]). }
  destruct Hstep as [Ht Hv']. rewrite (IH _ Hrest Hv'). exact Ht.
Qed.

(** C4, as amended.  Each watcher that observes its trigger sets the
    cancellation flag and then calls [cancel()] and [stop()] once, and
    ends; the flag is an attribute written without a lock.  So in every
    interleaving the watchers invoke [stop()] at most as often as
    [cancel()], and [cancel()] at most once for every watcher that has
    observed its trigger and set the flag, and a listener has one
    keyboard and one voice watcher; the body of [cancel()], which alone
    runs under the lock of the client, terminates each process at most
    once.  Until the listener of a second dispatch is started the
    watchers therefore invoke each of them at most twice, at most once
    when only one kind of watcher observes its trigger, and during the
    first dispatch not before the flag is set.  Later more invocations
    are possible: the voice watcher of the first dispatch that is
    inside its recording while the listener is stopped and the answer
    is spoken is still running in the second dispatch, in which
    [stop()] and [cancel()] are then invoked three times. *)
Theorem cancel_actions (sch : Cancel.schedule) :
  let s := Cancel.run_schedule sch Cancel.init in
  ((Cancel.stop_calls s <= Cancel.cancel_calls s)%nat /\
   (Cancel.cancel_calls s <= Cancel.k_triggers s + Cancel.v_triggers s)%nat /\
   (Cancel.k_triggers s <= length (Cancel.watchers s))%nat /\
   (Cancel.v_triggers s <= length (Cancel.watchers s))%nat /\
   (Cancel.terminated s <= 1)%nat /\
   (Cancel.terminate_calls s <= Cancel.dispatches s)%nat) /\
  ((length (Cancel.watchers s) <= 1)%nat ->
   ((Cancel.stop_calls s <= 2)%nat /\ (Cancel.cancel_calls s <= 2)%nat /\
    (Cancel.terminate_calls s <= 1)%nat) /\
   (Cancel.dispatching s = true ->
    (0 < Cancel.stop_calls s + Cancel.cancel_calls s)%nat ->
    Cancel.cancel_requested s = true) /\
   (Cancel.never_triggers Cancel.VoiceWatcher sch \/
    Cancel.never_triggers Cancel.KeyboardWatcher sch ->
    (Cancel.stop_calls s <= 1)%nat /\ (Cancel.cancel_calls s <= 1)%nat)) /\
  (let before := Cancel.run_schedule Cancel.survivor_start Cancel.init in
   let after := Cancel.run_schedule Cancel.survivor_fires before in
   (length (Cancel.watchers before) = 2%nat /\
    Cancel.watchers before !! 0%nat = Some (Cancel.KDone, Cancel.VListen) /\
    Cancel.dispatching before = true /\
    Cancel.stop_calls before = 0%nat /\ Cancel.cancel_calls before = 0%nat) /\
   Cancel.stop_calls after = 3%nat /\ Cancel.cancel_calls after = 3%nat).
Proof.
  cbv zeta.
  pose proof (cancel_run_invariant sch Cancel.init cancel_init_invariant)
    as (H1 & H2 & H3 & H4 & H5 & H6 & H7 & H8 & H9 & H10).
  split; [|split; [|vm_compute; repeat split]].
  - repeat split; lia.
  - intros Hfirst. split; [|split].
    + assert (Hd : (Cancel.dispatches
                      (Cancel.run_schedule sch Cancel.init) <= 1)%nat).
      { destruct (Cancel.mn _); lia. }
      repeat split; lia.
    + intros Hd Hpos. apply (H10 Hfirst Hd). lia.
    + intros [Hq | Hq].
      * pose proof (cancel_voice_silent sch Cancel.init Hq eq_refl) as Hv.
        simpl in Hv. lia.
      * pose proof (cancel_keyboard_silent sch Cancel.init Hq eq_refl) as Hk.
        simpl in Hk. lia.
Qed.

Lemma cancel_actions_witness :
  (Cancel.stop_calls
     (Cancel.run_schedule
        [(Cancel.Main, false); (Cancel.Main, false);
         (Cancel.Keyboard 0, false); (Cancel.Main, false);
         (Cancel.Keyboard 0, false); (Cancel.Keyboard 0, true);
         (Cancel.Voice 0, false); (Cancel.Voice 0, false);
         (Cancel.Keyboard 0, false); (Cancel.Main, false);
         (Cancel.Keyboard 0, false); (Cancel.Keyboard 0, false)]
        Cancel.init) <= 1)%nat /\
  (Cancel.cancel_calls
     (Cancel.run_schedule
        [(Cancel.Main, false); (Cancel.Main, false);
         (Cancel.Keyboard 0, false); (Cancel.Main, false);
         (Cancel.Keyboard 0, false); (Cancel.Keyboard 0, true);
         (Cancel.Voice 0, false); (Cancel.Voice 0, false);
         (Cancel.Keyboard 0, false); (Cancel.Main, false);
         (Cancel.Keyboard 0, false); (Cancel.Keyboard 0, false)]
        Cancel.init) <= 1)%nat.
Proof.
  pose proof (cancel_actions
                [(Cancel.Main, false); (Cancel.Main, false);
                 (Cancel.Keyboard 0, false); (Cancel.Main, false);
                 (Cancel.Keyboard 0, false); (Cancel.Keyboard 0, true);
                 (Cancel.Voice 0, false); (Cancel.Voice 0, false);
                 (Cancel.Keyboard 0, false); (Cancel.Main, false);
                 (Cancel.Keyboard 0, false); (Cancel.Keyboard 0, false)])
    as H.
  cbv zeta in H. destruct H as (_ & H & _).
  destruct H as (_ & _ & H); [vm_compute; lia|].
  apply H. left. unfold Cancel.never_triggers. repeat constructor.
Defined.

(** C4, as stated, fails on the code: when the keyboard watcher reads
    the cancel key and the voice watcher hears a cancel word before
    either has set the flag, each of them goes on to call [cancel()] and
    [stop()], which are thus invoked twice. *)
Lemma cancel_race_counterexample :
  let before := Cancel.run_schedule (firstn 6 Cancel.race) Cancel.init in
  let s := Cancel.run_schedule Cancel.race Cancel.init in
  (Cancel.cancel_requested before = false /\
   Cancel.watchers before = [(Cancel.KPoll, Cancel.VListen)] /\
   Cancel.mn before = Cancel.MRunning) /\
  nth 6 Cancel.race (Cancel.Main, false) = (Cancel.Keyboard 0, true) /\
  nth 7 Cancel.race (Cancel.Main, false) = (Cancel.Voice 0, true) /\
  Cancel.stop_calls s = 2%nat /\ Cancel.cancel_calls s = 2%nat /\
  Cancel.watchers s = [(Cancel.KDone, Cancel.VDone)].
Proof. cbv zeta. repeat split. Qed.

(** ** The probabilistic endpointer on one utterance *)

Section Utterance.

Variable cfg : AudioConfig.
Variable vcfg : VADConfig.
Variable timeout : option Q.
Variable start_time : Q.

Local Abbreviation loop := (Recorder.vad_loop cfg vcfg timeout start_time).
Local Abbreviation prebuffer_after := (Recorder.prebuffer_after vcfg).

Lemma watchdog_silent (lo last : Q) (tk : Recorder.vad_tick) :
  (lo <= last)%Q -> Recorder.in_window vcfg lo tk ->
  gt (Recorder.t_watchdog tk - last)%Q (inactivity_timeout vcfg) = false.
Proof.
  intros Hlo [_ Hw]. apply gt_false. lra.
Qed.

(** Before the start, chunks below the start threshold only feed the
    pre-buffer. *)
Lemma loop_before_start (lo : Q) (pre : list Recorder.vad_tick)
    (pb : list chunk) (last : Q) (rest : list Recorder.vad_event) :
  (lo <= last)%Q ->
  Forall (fun tk =>
            (Recorder.speech_prob tk <= speech_start_threshold vcfg)%Q /\
            Recorder.on_time timeout start_time tk /\
            Recorder.in_window vcfg lo tk) pre ->
  loop [] pb false 0%Z None last (map Recorder.VChunk pre ++ rest)
  = loop [] (prebuffer_after pb pre) false 0%Z None last rest.
Proof.
  intros Hlo Hpre. revert pb.
  induction Hpre as [|tk pre (Hp & Ht & Hw) _ IH]; intros pb; [reflexivity|].
  simpl. unfold Recorder.on_time in Ht. rewrite Ht. simpl.
  rewrite (watchdog_silent lo last tk Hlo Hw).
  apply gt_false in Hp. rewrite Hp.
  destruct (gt (Recorder.speech_prob tk) Recorder.maybe_speech); apply IH.
Qed.

(** The chunks that meet the start threshold: the last of the needed
    number starts the recording, with the pre-buffer and then the chunk
    itself as first frames. *)
Lemma loop_trigger (lo : Q) (early : list Recorder.vad_tick)
    (b : Recorder.vad_tick) (pb : list chunk) (c : Z) (last : Q)
    (rest : list Recorder.vad_event) :
  (lo <= last)%Q -> (0 <= c)%Z ->
  consecutive_speech_needed vcfg = (c + Z.of_nat (length early) + 1)%Z ->
  Forall (fun tk =>
            (speech_start_threshold vcfg < Recorder.speech_prob tk)%Q /\
            Recorder.on_time timeout start_time tk /\
            Recorder.in_window vcfg lo tk) (early ++ [b]) ->
  loop [] pb false c None last (map Recorder.VChunk (early ++ [b]) ++ rest)
  = loop (prebuffer_after pb (early ++ [b]) ++ [Recorder.data b]) [] true
      (consecutive_speech_needed vcfg) None (Recorder.t_body b) rest.
Proof.
  revert pb c last.
  induction early as [|tk early IH]; intros pb c last Hlo Hc Hn Hall.
  - inversion Hall as [|? ? (Hp & Ht & Hw) _]; subst.
    simpl. unfold Recorder.on_time in Ht. rewrite Ht. simpl.
    rewrite (watchdog_silent lo last b Hlo Hw).
    apply gt_true in Hp. rewrite Hp.
    simpl in Hn.
    replace (consecutive_speech_needed vcfg <=? c + 1)%Z with true
      by (symmetry; apply Z.leb_le; lia).
    replace (c + 1)%Z with (consecutive_speech_needed vcfg) by lia.
    reflexivity.
  - inversion Hall as [|? ? (Hp & Ht & Hw) Hrest]; subst.
    simpl. unfold Recorder.on_time in Ht. rewrite Ht. simpl.
    rewrite (watchdog_silent lo last tk Hlo Hw).
    apply gt_true in Hp. rewrite Hp.
    replace (consecutive_speech_needed vcfg <=? c + 1)%Z with false
      by (symmetry; apply Z.leb_gt; simpl length in Hn; lia).
    destruct Hw as [Hb _].
    apply IH; [exact Hb | lia | simpl length in Hn; lia | exact Hrest].
Qed.

(** While recording, chunks below the continue threshold are appended
    as long as the clock stays within the silence duration. *)
Lemma loop_waiting (lo : Q) (mid : list Recorder.vad_tick)
    (frames pb : list chunk) (s last : Q) (rest : list Recorder.vad_event) :
  (lo <= last)%Q ->
  Forall (fun tk =>
            (Recorder.speech_prob tk <= speech_continue_threshold vcfg)%Q /\
            Recorder.in_window vcfg lo tk) mid ->
  Forall (fun tk => (Recorder.t_body tk - s <= silence_duration cfg)%Q) mid ->
  loop frames pb true 0%Z (Some s) last (map Recorder.VChunk mid ++ rest)
  = loop (frames ++ map Recorder.data mid) pb true 0%Z (Some s) last rest.
Proof.
  intros Hlo Hmid. revert frames.
  induction Hmid as [|tk mid (Hp & Hw) _ IH]; intros frames Hshort.
  - simpl. rewrite app_nil_r. reflexivity.
  - inversion Hshort as [|? ? Hs Hrest]; subst.
    simpl. rewrite andb_false_r.
    rewrite (watchdog_silent lo last tk Hlo Hw).
    apply gt_false in Hp. rewrite Hp.
    apply gt_false in Hs. rewrite Hs.
    rewrite (IH (frames ++ [Recorder.data tk]) Hrest).
    rewrite <- app_assoc. reflexivity.
Qed.

(** The loop on a whole utterance. *)
Lemma loop_utterance (last0 lo : Q) (pre early : list Recorder.vad_tick)
    (b s1 : Recorder.vad_tick) (mid : list Recorder.vad_tick)
    (sk : Recorder.vad_tick) (rest : list Recorder.vad_event) :
  Recorder.utterance cfg vcfg timeout start_time last0 lo pre early b s1 mid sk ->
  loop [] [] false 0%Z None last0
    (map Recorder.VChunk (pre ++ (early ++ [b]) ++ s1 :: mid ++ [sk]) ++ rest)
  = Recorder.Done
      (Recorder.Broke
         (Recorder.gathered vcfg pre early b (s1 :: mid ++ [sk])) true).
Proof.
  intros [Hclock Hneeded Hpre Htrig Hsil Hwait Hend].
  rewrite !map_app, <- !app_assoc.
  rewrite (loop_before_start lo pre [] last0 _ Hclock Hpre).
  rewrite app_assoc, <- map_app.
  rewrite (loop_trigger lo early b _ 0%Z last0 _ Hclock (Z.le_refl 0)
             ltac:(rewrite Hneeded; lia) Htrig).
  assert (Hb : (lo <= Recorder.t_body b)%Q).
  { apply Forall_app in Htrig as [_ Hb].
    inversion Hb as [|? ? (_ & _ & [H _]) _]. exact H. }
  inversion Hsil as [|? ? (Hp1 & Hw1) Hsil']; subst.
  apply Forall_app in Hsil' as [Hmid Hsk].
  inversion Hsk as [|? ? (Hpk & Hwk) _]; subst.
  (* the first silent chunk *)
  simpl map at 1. cbn [Recorder.vad_loop app].
  rewrite andb_false_r.
  rewrite (watchdog_silent lo _ s1 Hb Hw1).
  apply gt_false in Hp1. rewrite Hp1.
  (* the chunks within the silence duration *)
  cbn [negb andb].
  rewrite (map_app _ mid), <- (app_assoc (map Recorder.VChunk mid)).
  rewrite (loop_waiting lo mid _ [] (Recorder.t_body s1) _ _ Hb Hmid Hwait).
  (* the chunk that ends the recording *)
  simpl. rewrite andb_false_r.
  rewrite (watchdog_silent lo _ sk Hb Hwk).
  apply gt_false in Hpk. rewrite Hpk.
  apply gt_true in Hend. rewrite Hend.
  unfold Recorder.gathered, Recorder.prebuffer_after.
  rewrite !fold_left_app. cbn [map]. rewrite map_app. cbn [map].
  rewrite <- !app_assoc. reflexivity.
Qed.

Lemma deque_append_last (cap : nat) (l : list chunk) (x : chunk) :
  Recorder.deque_append cap (skipn (length l - cap) l) x
  = skipn (length (l ++ [x]) - cap) (l ++ [x]).
Proof.
  unfold Recorder.deque_append.
  rewrite !skipn_app, skipn_skipn, !length_app, !length_skipn. simpl length.
  f_equal; f_equal; lia.
Qed.

Lemma prebuffer_cons (pb : list chunk) (tk : Recorder.vad_tick)
    (ticks : list Recorder.vad_tick) :
  prebuffer_after pb (tk :: ticks)
  = prebuffer_after
      (if gt (Recorder.speech_prob tk) Recorder.maybe_speech
       then Recorder.deque_append (pre_buffer_size vcfg) pb (Recorder.data tk)
       else pb) ticks.
Proof. reflexivity. Qed.

(** The pre-buffer is a bounded queue: it holds the last
    [pre_buffer_size] of the chunks that may be speech. *)
Lemma prebuffer_is_last (ticks : list Recorder.vad_tick) (l : list chunk) :
  prebuffer_after (skipn (length l - pre_buffer_size vcfg) l) ticks
  = skipn (length (l ++ Recorder.maybe_speech_chunks ticks)
           - pre_buffer_size vcfg)
      (l ++ Recorder.maybe_speech_chunks ticks).
Proof.
  revert l. induction ticks as [|tk ticks IH]; intros l.
  - simpl. rewrite app_nil_r. reflexivity.
  - rewrite prebuffer_cons. unfold Recorder.maybe_speech_chunks. simpl.
    destruct (gt (Recorder.speech_prob tk) Recorder.maybe_speech).
    + rewrite deque_append_last, IH.
      unfold Recorder.maybe_speech_chunks. simpl.
      rewrite <- !app_assoc. reflexivity.
    + rewrite IH. reflexivity.
Qed.

Lemma prebuffer_bounded (ticks : list Recorder.vad_tick) :
  prebuffer_after [] ticks
  = skipn (length (Recorder.maybe_speech_chunks ticks) - pre_buffer_size vcfg)
      (Recorder.maybe_speech_chunks ticks) /\
  (length (prebuffer_after [] ticks) <= pre_buffer_size vcfg)%nat.
Proof.
  pose proof (prebuffer_is_last ticks []) as H. simpl in H.
  split; [exact H|]. rewrite H, length_skipn. lia.
Qed.

(** The pre-buffer depends on the chunks and their probabilities only. *)
Lemma prebuffer_observed (t1 t2 : list Recorder.vad_tick) (pb : list chunk) :
  map Recorder.observed t1 = map Recorder.observed t2 ->
  prebuffer_after pb t1 = prebuffer_after pb t2.
Proof.
  revert t2 pb. induction t1 as [|a t1 IH]; intros [|c t2] pb H;
    try discriminate; [reflexivity|].
  simpl in H. injection H as Hd Hp Hrest.
  rewrite !prebuffer_cons, Hd, Hp.
  apply IH. exact Hrest.
Qed.

Lemma data_observed (t1 t2 : list Recorder.vad_tick) :
  map Recorder.observed t1 = map Recorder.observed t2 ->
  map Recorder.data t1 = map Recorder.data t2.
Proof.
  intros H. apply (f_equal (map fst)) in H.
  rewrite !map_map in H. exact H.
Qed.

(** Trimming, when the last frame scored as speech is known. *)
Lemma trim_cut (probs : nat -> Q) (frames : list chunk) (i : nat) :
  (20 <= length frames)%nat -> (i < length frames)%nat ->
  (Recorder.maybe_speech < probs i)%Q ->
  (forall j, (i < j < length frames)%nat -> (probs j <= Recorder.maybe_speech)%Q) ->
  Recorder._trim_silence_with_vad true probs frames = firstn (i + 10) frames.
Proof.
  intros Hlen Hi Hp Hlater.
  unfold Recorder._trim_silence_with_vad. simpl negb. rewrite orb_false_l.
  destruct (Nat.ltb_spec (length frames) 20) as [Hlt|_]; [lia|].
  rewrite (last_speech_index_found probs (length frames) _ i Hi).
  - destruct (Nat.le_ge_cases (i + 10) (length frames)) as [Hle|Hge].
    + rewrite Nat.min_l by exact Hle. reflexivity.
    + rewrite Nat.min_r by exact Hge.
      rewrite firstn_all. symmetry. apply firstn_all2. exact Hge.
  - apply gt_true. exact Hp.
  - intros j Hj. apply gt_false. apply Hlater. exact Hj.
Qed.

Lemma trim_short (probs : nat -> Q) (frames : list chunk) :
  (length frames < 20)%nat ->
  Recorder._trim_silence_with_vad true probs frames = frames.
Proof.
  intros H. unfold Recorder._trim_silence_with_vad.
  apply Nat.ltb_lt in H. rewrite H. reflexivity.
Qed.

Lemma gathered_length (pre early : list Recorder.vad_tick)
    (b : Recorder.vad_tick) (trailing : list Recorder.vad_tick) :
  length (Recorder.gathered vcfg pre early b trailing)
  = (length (prebuffer_after [] (pre ++ early ++ [b])) + 1 + length trailing)%nat.
Proof.
  unfold Recorder.gathered. rewrite !length_app, length_map. simpl. lia.
Qed.

(** What [record_with_vad] returns on an utterance: the gathered frames,
    trimmed. *)
Lemma vad_result (fsqrt : Q -> Q) (last0 lo : Q)
    (pre early : list Recorder.vad_tick) (b s1 : Recorder.vad_tick)
    (mid : list Recorder.vad_tick) (sk : Recorder.vad_tick)
    (rest : list Recorder.vad_event) (rescore : list chunk -> nat -> Q)
    (fallback : list Recorder.amp_event) :
  Recorder.utterance cfg vcfg timeout start_time last0 lo pre early b s1 mid sk ->
  Recorder.record_with_vad fsqrt cfg vcfg true timeout start_time last0
    (map Recorder.VChunk (pre ++ (early ++ [b]) ++ s1 :: mid ++ [sk]) ++ rest)
    rescore fallback
  = Recorder.Done
      (Some (Recorder._trim_silence_with_vad true
               (rescore (Recorder.gathered vcfg pre early b (s1 :: mid ++ [sk])))
               (Recorder.gathered vcfg pre early b (s1 :: mid ++ [sk])))).
Proof.
  intros Hu. unfold Recorder.record_with_vad. simpl negb. cbv iota.
  rewrite (loop_utterance last0 lo pre early b s1 mid sk rest Hu).
  pose proof (gathered_length pre early b (s1 :: mid ++ [sk])) as Hlen.
  destruct (Recorder.gathered vcfg pre early b (s1 :: mid ++ [sk])) as [|f fs].
  - simpl in Hlen. lia.
  - reflexivity.
Qed.

(** The trimmed segment when at least 20 frames were gathered. *)
Lemma gathered_trimmed (rescore : list chunk -> nat -> Q)
    (pre early : list Recorder.vad_tick) (b : Recorder.vad_tick)
    (trailing : list Recorder.vad_tick) :
  (20 <= length (Recorder.gathered vcfg pre early b trailing))%nat ->
  Recorder.rescored_alike vcfg rescore pre early b trailing ->
  Recorder._trim_silence_with_vad true
    (rescore (Recorder.gathered vcfg pre early b trailing))
    (Recorder.gathered vcfg pre early b trailing)
  = prebuffer_after [] (pre ++ early ++ [b]) ++ [Recorder.data b]
    ++ firstn 9 (map Recorder.data trailing).
Proof.
  intros Hlen [Hb Hlater].
  rewrite (trim_cut _ _ (length (prebuffer_after [] (pre ++ early ++ [b])))
             Hlen).
  - unfold Recorder.gathered. rewrite firstn_app, firstn_all2 by lia.
    f_equal.
    replace (length (prebuffer_after [] (pre ++ early ++ [b])) + 10
             - length (prebuffer_after [] (pre ++ early ++ [b])))%nat
      with 10%nat by lia.
    reflexivity.
  - rewrite gathered_length. lia.
  - exact Hb.
  - exact Hlater.
Qed.

End Utterance.

Lemma observed_last (early1 early2 : list Recorder.vad_tick)
    (b1 b2 : Recorder.vad_tick) :
  map Recorder.observed (early1 ++ [b1]) = map Recorder.observed (early2 ++ [b2]) ->
  Recorder.data b1 = Recorder.data b2.
Proof.
  rewrite !map_app. simpl. intros H.
  apply app_inj_tail in H as [_ H]. injection H as Hd _. exact Hd.
Qed.

Lemma gathered_observed (vcfg : VADConfig)
    (pre1 early1 : list Recorder.vad_tick) (b1 : Recorder.vad_tick)
    (pre2 early2 : list Recorder.vad_tick) (b2 : Recorder.vad_tick) :
  map Recorder.observed pre1 = map Recorder.observed pre2 ->
  map Recorder.observed (early1 ++ [b1]) = map Recorder.observed (early2 ++ [b2]) ->
  Recorder.prebuffer_after vcfg [] (pre1 ++ early1 ++ [b1])
  = Recorder.prebuffer_after vcfg [] (pre2 ++ early2 ++ [b2]).
Proof.
  intros Hpre Htrig. apply prebuffer_observed.
  rewrite !(map_app _ pre1), !(map_app _ pre2), Hpre, Htrig. reflexivity.
Qed.

Lemma firstn_data_observed (n : nat) (t1 t2 : list Recorder.vad_tick) :
  firstn n (map Recorder.observed t1) = firstn n (map Recorder.observed t2) ->
  firstn n (map Recorder.data t1) = firstn n (map Recorder.data t2).
Proof.
  intros H. apply (f_equal (map fst)) in H.
  rewrite <- !firstn_map, !map_map in H. exact H.
Qed.


Ltac decide_q :=
  vm_compute; first [reflexivity | discriminate].

Ltac solve_utterance :=
  constructor;
  [ decide_q
  | reflexivity
  | repeat constructor; decide_q
  | repeat constructor; decide_q
  | repeat constructor; decide_q
  | repeat constructor; decide_q
  | decide_q ].

(** Speech in chunks 1 and 2, then silence; the clock finds the
    silence long enough at the second silent chunk. *)
Lemma utterance_early_end :
  Recorder.utterance default_audio default_vad None 0 0 0
    [] [Sample.tick 1 Sample.hum (9 # 10)] (Sample.tick 2 Sample.loud (9 # 10))
    (Sample.tick 3 Sample.still (1 # 10)) []
    (Sample.tick 6 Sample.still (1 # 10)).
Proof. solve_utterance. Qed.

(** The same chunks; the clock finds the silence long enough at the
    third silent chunk. *)
Lemma utterance_late_end :
  Recorder.utterance default_audio default_vad None 0 0 0
    [] [Sample.tick 1 Sample.hum (9 # 10)] (Sample.tick 2 Sample.loud (9 # 10))
    (Sample.tick 3 Sample.still (1 # 10))
    [Sample.tick 4 Sample.still (1 # 10)]
    (Sample.tick 6 Sample.still (1 # 10)).
Proof. solve_utterance. Qed.

(** Speech in chunks 1 and 2, then 18 chunks of silence, of which the
    last is the first that the clock finds long enough after the
    first. *)
Lemma utterance_long_silence :
  Recorder.utterance default_audio default_vad None 0 0 0
    [] [Sample.tick 1 Sample.hum (9 # 10)] (Sample.tick 2 Sample.loud (9 # 10))
    (Sample.tick 3 Sample.still (1 # 10))
    (repeat (Sample.tick 4 Sample.still (1 # 10)) 16)
    (Sample.tick 6 Sample.still (1 # 10)).
Proof. solve_utterance. Qed.



(** * Further properties of the code *)

(** ** The amplitude endpointer *)

Section AmplitudeFacts.

Variable fsqrt : Q -> Q.
Variable cfg : AudioConfig.
Variable timeout : option Q.
Variable start_time : Q.

Local Abbreviation aloop := (Recorder.amp_loop fsqrt cfg timeout start_time).
Local Abbreviation amp := (Recorder._get_audio_amplitude fsqrt).

(** What the loop keeps true of the frames gathered so far: there are
    none before the recording has started, and the first one, if any,
    exceeds the silence threshold. *)
Lemma amp_finish_head (d : chunk) (rest seg : list chunk) :
  Recorder.Done (Recorder.amp_finish (d :: rest)) = Recorder.Done (Some seg) ->
  exists rest', seg = d :: rest'.
Proof.
  unfold Recorder.amp_finish. simpl length. intros [= <-].
  destruct (20 <? S (length rest))%nat eqn:Hlt; [|eauto].
  apply Nat.ltb_lt in Hlt.
  destruct (length rest - 9)%nat as [|k] eqn:E; [lia|].
  simpl. eauto.
Qed.

Lemma amp_loop_head (evs : list Recorder.amp_event) (frames : list chunk)
    (sc : Z) (started : bool) (seg : list chunk) :
  match frames with
  | [] => started = false
  | d :: _ => fgt (amp d) (silence_threshold cfg) = true
  end ->
  aloop frames sc started evs = Recorder.Done (Some seg) ->
  exists d rest,
    seg = d :: rest /\ fgt (amp d) (silence_threshold cfg) = true.
Proof.
  revert frames sc started.
  induction evs as [|ev evs IH]; intros frames sc started Hinv H;
    [discriminate|].
  destruct ev as [now data|]; [|discriminate].
  cbn [Recorder.amp_loop] in H.
  destruct (Recorder.timed_out timeout start_time now && negb started) eqn:Hto.
  - destruct frames as [|d rest]; [discriminate|].
    destruct (amp_finish_head d rest seg H) as [rest' ->]. eauto.
  - destruct (fgt (amp data) (silence_threshold cfg)) eqn:Hloud.
    + eapply IH; [|exact H]. destruct frames; simpl; assumption.
    + destruct started.
      * destruct frames as [|d rest]; [discriminate|].
        destruct (gt _ (silence_duration cfg)).
        -- destruct (amp_finish_head d (rest ++ [data]) seg H) as [rest' ->].
           eauto.
        -- eapply IH; [|exact H]. simpl. assumption.
      * eapply IH; [|exact H]. exact Hinv.
Qed.

(** Loud chunks while recording are appended and reset the count of
    silent chunks. *)
Lemma amp_loop_loud (more : list (Q * chunk)) (frames : list chunk)
    (rest : list Recorder.amp_event) :
  Forall (fun p => Recorder.loud fsqrt cfg (snd p)) more ->
  aloop frames 0%Z true (map Recorder.chunk_event more ++ rest)
  = aloop (frames ++ map snd more) 0%Z true rest.
Proof.
  intros Hmore. revert frames.
  induction Hmore as [|[t d] more Hd _ IH]; intros frames.
  - simpl. rewrite app_nil_r. reflexivity.
  - simpl. rewrite andb_false_r.
    unfold Recorder.loud in Hd. simpl in Hd. rewrite Hd.
    rewrite IH, <- app_assoc. reflexivity.
Qed.

(** Silent chunks while recording are counted, and the recording ends
    with the first one whose count makes the silence long enough. *)
Lemma amp_loop_silence (sil : list (Q * chunk)) (frames : list chunk)
    (c : Z) (rest : list Recorder.amp_event) :
  sil <> [] ->
  Forall (fun p => Recorder.quiet fsqrt cfg (Recorder.chunk_event p)) sil ->
  (forall j, (c < j < c + Z.of_nat (length sil))%Z ->
             (Recorder.silence_time cfg j <= silence_duration cfg)%Q) ->
  (silence_duration cfg
   < Recorder.silence_time cfg (c + Z.of_nat (length sil)))%Q ->
  aloop frames c true (map Recorder.chunk_event sil ++ rest)
  = Recorder.Done (Recorder.amp_finish (frames ++ map snd sil)).
Proof.
  revert frames c.
  induction sil as [|[t d] sil IH]; intros frames c Hne Hq Hbelow Hend;
    [contradiction|].
  inversion Hq as [|? ? Hd Hq']; subst. simpl in Hd.
  simpl. rewrite andb_false_r. rewrite Hd.
  fold (Recorder.silence_time cfg (c + 1)).
  destruct sil as [|p sil].
  - replace (c + Z.of_nat (length [(t, d)]))%Z with (c + 1)%Z in Hend
      by (simpl length; lia).
    apply gt_true in Hend. rewrite Hend. reflexivity.
  - assert (Hc : (Recorder.silence_time cfg (c + 1) <= silence_duration cfg)%Q).
    { apply Hbelow. simpl length. lia. }
    apply gt_false in Hc. rewrite Hc.
    rewrite (IH (frames ++ [d]) (c + 1)%Z).
    + rewrite <- app_assoc. reflexivity.
    + discriminate.
    + exact Hq'.
    + intros j Hj. apply Hbelow. simpl length in *. lia.
    + replace (c + 1 + Z.of_nat (length (p :: sil)))%Z
        with (c + Z.of_nat (length ((t, d) :: p :: sil)))%Z
        by (simpl length; lia).
      exact Hend.
Qed.

(** The loop that is still waiting after some input ends with none when
    the interrupt comes next. *)
Lemma amp_loop_interrupt (pre rest : list Recorder.amp_event)
    (frames : list chunk) (sc : Z) (started : bool) :
  aloop frames sc started pre = Recorder.Pending ->
  aloop frames sc started (pre ++ Recorder.AInterrupt :: rest)
  = Recorder.Done None.
Proof.
  revert frames sc started.
  induction pre as [|ev pre IH]; intros frames sc started H; [reflexivity|].
  destruct ev as [now data|]; [|discriminate]. simpl in *.
  destruct (Recorder.timed_out timeout start_time now && negb started);
    [discriminate|].
  destruct (fgt (amp data) (silence_threshold cfg)); [apply IH; exact H|].
  destruct started; [|apply IH; exact H].
  destruct (gt _ (silence_duration cfg)); [discriminate|].
  apply IH. exact H.
Qed.

End AmplitudeFacts.

(** X1.  A segment returned by the amplitude endpointer is never empty,
    and its first chunk is one whose amplitude exceeds the silence
    threshold: the tail trimming never reaches the chunk that started
    the recording. *)
Theorem amplitude_segment_starts_loud (fsqrt : Q -> Q) (cfg : AudioConfig)
    (timeout : option Q) (start_time : Q) (evs : list Recorder.amp_event)
    (seg : list chunk) :
  Recorder.record_with_amplitude fsqrt cfg timeout start_time evs
    = Recorder.Done (Some seg) ->
  exists d rest, seg = d :: rest /\ Recorder.loud fsqrt cfg d.
Proof.
  intros H. unfold Recorder.record_with_amplitude in H.
  destruct (amp_loop_head fsqrt cfg timeout start_time evs [] 0%Z false seg
              eq_refl H) as (d & rest & -> & Hd).
  exists d, rest. split; [reflexivity | exact Hd].
Qed.

(** X2.  Once a loud chunk has been read, the amplitude endpointer no
    longer looks at the clock: it appends the loud chunks that follow,
    and after them the silent ones up to the first whose count makes
    [count * chunk_size / sample_rate] exceed the silence duration;
    then it returns these frames, without the last 10 when they are
    more than 20. *)
Theorem amplitude_end_counts_chunks (fsqrt : Q -> Q) (cfg : AudioConfig)
    (timeout : option Q) (start_time now0 : Q) (d0 : chunk)
    (more sil : list (Q * chunk)) (rest : list Recorder.amp_event) :
  Recorder.timed_out timeout start_time now0 = false ->
  Recorder.loud fsqrt cfg d0 ->
  Forall (fun p => Recorder.loud fsqrt cfg (snd p)) more ->
  sil <> [] ->
  Forall (fun p => Recorder.quiet fsqrt cfg (Recorder.chunk_event p)) sil ->
  (forall j, (0 < j < Z.of_nat (length sil))%Z ->
             (Recorder.silence_time cfg j <= silence_duration cfg)%Q) ->
  (silence_duration cfg
   < Recorder.silence_time cfg (Z.of_nat (length sil)))%Q ->
  let frames := d0 :: map snd more ++ map snd sil in
  Recorder.record_with_amplitude fsqrt cfg timeout start_time
    (Recorder.AChunk now0 d0
     :: map Recorder.chunk_event more ++ map Recorder.chunk_event sil ++ rest)
  = Recorder.Done
      (Some (if (20 <? length frames)%nat
             then firstn (length frames - 10) frames else frames)).
Proof.
  intros Hto Hd0 Hmore Hne Hsil Hbelow Hend. cbv zeta.
  unfold Recorder.record_with_amplitude. simpl.
  rewrite Hto. simpl. unfold Recorder.loud in Hd0. rewrite Hd0.
  rewrite (amp_loop_loud fsqrt cfg timeout start_time more [d0] _ Hmore).
  rewrite (amp_loop_silence fsqrt cfg timeout start_time sil _ 0%Z rest
             Hne Hsil Hbelow Hend).
  reflexivity.
Qed.

Lemma amplitude_end_counts_chunks_witness :
  Recorder.record_with_amplitude Sample.sqrt_floor default_audio (Some 5%Q) 0
    (Recorder.AChunk 1 Sample.loud
     :: map Recorder.chunk_event [] ++
        map Recorder.chunk_event (Sample.silence_32 100) ++ [])
  = Recorder.Done (Some (Sample.loud :: repeat Sample.still 22)).
Proof.
  apply (amplitude_end_counts_chunks Sample.sqrt_floor default_audio
           (Some 5%Q) 0 1 Sample.loud [] (Sample.silence_32 100) []).
  - reflexivity.
  - reflexivity.
  - constructor.
  - discriminate.
  - repeat constructor; vm_compute; reflexivity.
  - intros j Hj. unfold Recorder.silence_time, Qle. simpl in *. lia.
  - reflexivity.
Defined.

Lemma amplitude_segment_starts_loud_witness :
  exists d rest,
    Sample.loud :: repeat Sample.still 22 = d :: rest /\
    Recorder.loud Sample.sqrt_floor default_audio d.
Proof.
  apply (amplitude_segment_starts_loud Sample.sqrt_floor default_audio
           (Some 5%Q) 0
           (Recorder.AChunk 1 Sample.loud
            :: map Recorder.chunk_event (Sample.silence_32 100))).
  vm_compute. reflexivity.
Defined.

(** ** The probabilistic endpointer *)

Section VadFacts.

Variable cfg : AudioConfig.
Variable vcfg : VADConfig.
Variable timeout : option Q.
Variable start_time : Q.

Local Abbreviation vloop := (Recorder.vad_loop cfg vcfg timeout start_time).

Lemma vad_loop_interrupt (pre rest : list Recorder.vad_event)
    (frames pb : list chunk) (started : bool) (c : Z) (sil : option Q)
    (last : Q) :
  vloop frames pb started c sil last pre = Recorder.Pending ->
  vloop frames pb started c sil last (pre ++ Recorder.VInterrupt :: rest)
  = Recorder.Done Recorder.Cancelled.
Proof.
  revert frames pb started c sil last.
  induction pre as [|ev pre IH]; intros frames pb started c sil last H;
    [reflexivity|].
  destruct ev as [tk|]; [|discriminate].
  cbn [Recorder.vad_loop app] in *.
  destruct (Recorder.timed_out timeout start_time (Recorder.t_timeout tk)
            && negb started); [discriminate|].
  destruct (gt (Recorder.t_watchdog tk - last) (inactivity_timeout vcfg));
    [discriminate|].
  destruct started; cbn [negb andb] in *.
  - destruct (gt (Recorder.speech_prob tk) (speech_continue_threshold vcfg)).
    + apply IH. exact H.
    + destruct sil as [s|]; [|apply IH; exact H].
      destruct (gt (Recorder.t_body tk - s) (silence_duration cfg));
        [discriminate|].
      apply IH. exact H.
  - destruct (gt (Recorder.speech_prob tk) (speech_start_threshold vcfg)).
    + destruct (consecutive_speech_needed vcfg <=? c + 1)%Z;
        apply IH; exact H.
    + apply IH. exact H.
Qed.

(** Chunks that do not meet the start threshold leave the loop without
    frames, so that it can only end without a recording. *)
Lemma vad_loop_below_start (evs : list Recorder.vad_event) (pb : list chunk)
    (c : Z) (last : Q) (r : Recorder.loop_exit) :
  Forall (Recorder.below_start vcfg) evs ->
  vloop [] pb false c None last evs = Recorder.Done r ->
  r = Recorder.Cancelled \/ r = Recorder.Broke [] false.
Proof.
  intros Hall. revert pb c.
  induction Hall as [|ev evs Hev _ IH]; intros pb c H; [discriminate|].
  destruct ev as [tk|]; [|injection H as <-; auto].
  cbn [Recorder.vad_loop] in H. cbn [negb andb] in H.
  destruct (Recorder.timed_out timeout start_time (Recorder.t_timeout tk)
            && true); [injection H as <-; auto|].
  destruct (gt (Recorder.t_watchdog tk - last) (inactivity_timeout vcfg));
    [injection H as <-; auto|].
  simpl in Hev. apply gt_false in Hev. rewrite Hev in H.
  apply (IH _ _ H).
Qed.

Lemma vad_loop_gives_up (pre rest : list Recorder.vad_event)
    (tk : Recorder.vad_tick) (pb : list chunk) (c : Z) (last : Q) :
  Forall (Recorder.below_start vcfg) pre ->
  Recorder.timed_out timeout start_time (Recorder.t_timeout tk) = true \/
  (inactivity_timeout vcfg < Recorder.t_watchdog tk - last)%Q ->
  exists r,
    vloop [] pb false c None last (pre ++ Recorder.VChunk tk :: rest)
    = Recorder.Done r /\
    (r = Recorder.Cancelled \/ r = Recorder.Broke [] false).
Proof.
  intros Hall Hfire. revert pb c.
  induction Hall as [|ev evs Hev _ IH]; intros pb c.
  - cbn [Recorder.vad_loop app]. cbn [negb andb].
    destruct Hfire as [Hto | Hw].
    + rewrite Hto. eauto.
    + apply gt_true in Hw. rewrite Hw.
      destruct (_ && true); eauto.
  - destruct ev as [tk'|]; [|simpl; eauto].
    cbn [Recorder.vad_loop app]. cbn [negb andb].
    destruct (Recorder.timed_out timeout start_time (Recorder.t_timeout tk')
              && true); [eauto|].
    destruct (gt (Recorder.t_watchdog tk' - last) (inactivity_timeout vcfg));
      [eauto|].
    simpl in Hev. apply gt_false in Hev. rewrite Hev. apply IH.
Qed.

End VadFacts.

Lemma trim_length (vad_model : bool) (probs : nat -> Q) (frames : list chunk) :
  (Nat.min (length frames) 10
   <= length (Recorder._trim_silence_with_vad vad_model probs frames))%nat.
Proof.
  unfold Recorder._trim_silence_with_vad.
  destruct (negb vad_model); simpl; [lia|].
  destruct (Nat.ltb_spec (length frames) 20) as [Hlt|Hge]; [lia|].
  rewrite length_firstn. lia.
Qed.

Lemma last_speech_index_ge (probs : nat -> Q) (n d i : nat) :
  (i < n)%nat -> gt (probs i) Recorder.maybe_speech = true ->
  (i <= Recorder.last_speech_index probs n d)%nat.
Proof.
  induction n as [|m IH]; intros Hi Hp; [lia|].
  simpl. destruct (gt (probs m) Recorder.maybe_speech) eqn:E; [lia|].
  apply IH; [|exact Hp].
  destruct (Nat.eq_dec i m) as [->|Hne]; [congruence | lia].
Qed.

(** X3.  The keyboard interrupt discards what has been recorded: an
    endpointer that is still waiting after some input answers none
    when the interrupt comes next, whether or not the recording had
    started. *)
Theorem interrupt_discards_recording (fsqrt : Q -> Q) (cfg : AudioConfig)
    (vcfg : VADConfig) (timeout : option Q) (start_time last0 : Q)
    (rescore : list chunk -> nat -> Q) :
  (forall pre rest,
     Recorder.record_with_amplitude fsqrt cfg timeout start_time pre
       = Recorder.Pending ->
     Recorder.record_with_amplitude fsqrt cfg timeout start_time
       (pre ++ Recorder.AInterrupt :: rest) = Recorder.Done None) /\
  (forall pre rest fallback,
     Recorder.record_with_vad fsqrt cfg vcfg true timeout start_time last0
       pre rescore fallback = Recorder.Pending ->
     Recorder.record_with_vad fsqrt cfg vcfg true timeout start_time last0
       (pre ++ Recorder.VInterrupt :: rest) rescore fallback
     = Recorder.Done None).
Proof.
  split.
  - intros pre rest H. apply amp_loop_interrupt. exact H.
  - intros pre rest fallback H. unfold Recorder.record_with_vad in *.
    simpl negb in *. cbv iota in *.
    destruct (Recorder.vad_loop cfg vcfg timeout start_time [] [] false 0 None
                last0 pre) as [[frames started|]|] eqn:E.
    + destruct frames; [discriminate|]. destruct started; discriminate.
    + discriminate.
    + rewrite (vad_loop_interrupt cfg vcfg timeout start_time pre rest _ _ _ _
                 _ _ E).
      reflexivity.
Qed.

Lemma interrupt_discards_recording_witness :
  Recorder.record_with_amplitude Sample.sqrt_floor default_audio None 0
    ([Recorder.AChunk 1 Sample.loud; Recorder.AChunk 2 Sample.still]
     ++ Recorder.AInterrupt :: [])
  = Recorder.Done None.
Proof.
  apply (interrupt_discards_recording Sample.sqrt_floor default_audio
           default_vad None 0 0 Sample.no_rescore).
  reflexivity.
Defined.

(** X4.  The probabilistic endpointer never returns a segment made of
    chunks that do not meet the start threshold, even though such
    chunks enter the pre-buffer; and when after such chunks the timeout
    or the inactivity watchdog fires, it returns none. *)
Theorem vad_needs_speech (fsqrt : Q -> Q) (cfg : AudioConfig)
    (vcfg : VADConfig) (timeout : option Q) (start_time last0 : Q)
    (rescore : list chunk -> nat -> Q) (fallback : list Recorder.amp_event) :
  (forall evs seg,
     Forall (Recorder.below_start vcfg) evs ->
     Recorder.record_with_vad fsqrt cfg vcfg true timeout start_time last0
       evs rescore fallback <> Recorder.Done (Some seg)) /\
  (forall pre tk rest,
     Forall (Recorder.below_start vcfg) pre ->
     Recorder.timed_out timeout start_time (Recorder.t_timeout tk) = true \/
     (inactivity_timeout vcfg < Recorder.t_watchdog tk - last0)%Q ->
     Recorder.record_with_vad fsqrt cfg vcfg true timeout start_time last0
       (pre ++ Recorder.VChunk tk :: rest) rescore fallback
     = Recorder.Done None).
Proof.
  split.
  - intros evs seg Hall. unfold Recorder.record_with_vad.
    simpl negb. cbv iota.
    destruct (Recorder.vad_loop cfg vcfg timeout start_time [] [] false 0 None
                last0 evs) as [r|] eqn:E; [|discriminate].
    destruct (vad_loop_below_start cfg vcfg timeout start_time evs [] 0%Z
                last0 r Hall E) as [-> | ->]; discriminate.
  - intros pre tk rest Hall Hfire. unfold Recorder.record_with_vad.
    simpl negb. cbv iota.
    destruct (vad_loop_gives_up cfg vcfg timeout start_time pre rest tk []
                0%Z last0 Hall Hfire) as (r & -> & [-> | ->]); reflexivity.
Qed.

Lemma vad_needs_speech_witness :
  Recorder.record_with_vad Sample.sqrt_floor default_audio default_vad true
    (Some 5%Q) 0 0
    ([Recorder.VChunk (Sample.tick 1 Sample.hum (7 # 10));
      Recorder.VChunk (Sample.tick 2 Sample.hum (8 # 10))]
     ++ Recorder.VChunk (Sample.tick 6 Sample.loud (9 # 10)) :: [])
    Sample.no_rescore []
  = Recorder.Done None.
Proof.
  apply (vad_needs_speech Sample.sqrt_floor default_audio default_vad
           (Some 5%Q) 0 0 Sample.no_rescore []).
  - repeat constructor; vm_compute; discriminate.
  - left. reflexivity.
Defined.

(** X5.  A segment returned by [record_with_vad] is never empty,
    whether the probabilistic endpointer produced it or the amplitude
    endpointer it falls back to. *)
Theorem recorded_segment_not_empty (fsqrt : Q -> Q) (cfg : AudioConfig)
    (vcfg : VADConfig) (vad_model : bool) (timeout : option Q)
    (start_time last0 : Q) (evs : list Recorder.vad_event)
    (rescore : list chunk -> nat -> Q) (fallback : list Recorder.amp_event)
    (seg : list chunk) :
  Recorder.record_with_vad fsqrt cfg vcfg vad_model timeout start_time last0
    evs rescore fallback = Recorder.Done (Some seg) ->
  (1 <= length seg)%nat.
Proof.
  unfold Recorder.record_with_vad. destruct vad_model; simpl negb; cbv iota.
  - destruct (Recorder.vad_loop cfg vcfg timeout start_time [] [] false 0 None
                last0 evs) as [[frames started|]|]; try discriminate.
    destruct frames as [|f frames]; [discriminate|].
    destruct started; [|discriminate]. simpl negb. cbv iota.
    intros [= <-].
    pose proof (trim_length true (rescore (f :: frames)) (f :: frames)) as H.
    simpl length in H. lia.
  - intros H. unfold Recorder.record_with_amplitude in H.
    destruct (amp_loop_head fsqrt cfg timeout start_time fallback [] 0%Z false
                seg eq_refl H) as (d & rest & -> & _).
    simpl. lia.
Qed.

Lemma recorded_segment_not_empty_witness :
  (1 <= length [Sample.hum; Sample.loud; Sample.loud; Sample.still;
                Sample.still])%nat.
Proof.
  apply (recorded_segment_not_empty Sample.sqrt_floor default_audio
           default_vad true None 0 0
           (map Recorder.VChunk (Sample.short_utterance 1 2 3 6 7))
           Sample.no_rescore []).
  reflexivity.
Defined.

(** X6.  The trimming pass never removes a frame that it scores above
    0.6, nor any frame before one: such frames stay where they are.  And
    of a list of 10 frames or more it keeps at least 10. *)
Theorem trim_keeps_speech (vad_model : bool) (probs : nat -> Q)
    (frames : list chunk) :
  (forall i j,
     (j <= i < length frames)%nat -> (6 # 10 < probs i)%Q ->
     nth_error (Recorder._trim_silence_with_vad vad_model probs frames) j
     = nth_error frames j) /\
  (Nat.min (length frames) 10
   <= length (Recorder._trim_silence_with_vad vad_model probs frames))%nat.
Proof.
  split; [|apply trim_length].
  intros i j Hij Hp. unfold Recorder._trim_silence_with_vad.
  destruct (negb vad_model || (length frames <? 20)%nat); [reflexivity|].
  rewrite nth_error_firstn.
  pose proof (last_speech_index_ge probs (length frames) (length frames - 1) i
                ltac:(lia) ltac:(apply gt_true; exact Hp)) as Hge.
  destruct (Nat.ltb_spec j
              (Nat.min (Recorder.last_speech_index probs (length frames)
                          (length frames - 1) + 10) (length frames)))
    as [_|Hle]; [reflexivity | lia].
Qed.

Lemma trim_keeps_speech_witness :
  nth_error
    (Recorder._trim_silence_with_vad true Stated.onset_only
       (repeat Sample.still 25)) 0
  = nth_error (repeat Sample.still 25) 0.
Proof.
  apply (trim_keeps_speech true Stated.onset_only (repeat Sample.still 25))
    with (i := 0%nat).
  - vm_compute. lia.
  - reflexivity.
Defined.

(** ** The calibration file *)

Lemma float_truthy_zero (v : Q) :
  (v == 0)%Q -> float_truthy (Num v) = false.
Proof.
  intros Hv. unfold float_truthy. apply Qeq_bool_iff in Hv. rewrite Hv.
  reflexivity.
Qed.

(** X7.  Loading a calibration never lowers the silence threshold: a
    threshold that is a number is at most the threshold afterwards,
    unless that is NaN, which no amplitude exceeds, so that no
    amplitude exceeds the threshold afterwards without exceeding the
    one before.  When there is no calibration file the configuration is
    left as it is; otherwise the noise floor is replaced by what the
    file holds, also when that is nothing; a stored noise floor that is
    missing or zero leaves the threshold unchanged, and one that is NaN
    makes it NaN. *)
Theorem load_calibration_never_lowers (cfg : AudioConfig)
    (saved : option (option pyfloat)) :
  let cfg' := Recorder._load_calibration cfg saved in
  ((forall t, silence_threshold cfg = Num t ->
      silence_threshold cfg' = NaN \/
      exists t', silence_threshold cfg' = Num t' /\ (t <= t')%Q) /\
   (forall t amplitude,
      silence_threshold cfg = Num t ->
      fgt amplitude (silence_threshold cfg') = true ->
      fgt amplitude (silence_threshold cfg) = true)) /\
  (saved = None -> cfg' = cfg) /\
  (forall nf, saved = Some nf -> noise_floor cfg' = nf) /\
  (saved = Some None -> silence_threshold cfg' = silence_threshold cfg) /\
  (forall v, saved = Some (Some (Num v)) -> (v == 0)%Q ->
             silence_threshold cfg' = silence_threshold cfg) /\
  (saved = Some (Some NaN) -> silence_threshold cfg' = NaN).
Proof.
  cbv zeta.
  assert (Hle : forall t, silence_threshold cfg = Num t ->
            silence_threshold (Recorder._load_calibration cfg saved) = NaN \/
            exists t',
              silence_threshold (Recorder._load_calibration cfg saved) = Num t'
              /\ (t <= t')%Q).
  { intros t Ht. destruct saved as [[[v|]|]|]; simpl; rewrite ?Ht.
    - destruct (negb (Qeq_bool v 0)).
      + right. simpl fmul. rewrite fmax_num. eexists.
        split; [reflexivity | apply max2_ge_r].
      + right. exists t. split; [reflexivity | apply Qle_refl].
    - left. reflexivity.
    - right. exists t. split; [reflexivity | apply Qle_refl].
    - right. exists t. split; [reflexivity | apply Qle_refl]. }
  split; [split; [exact Hle|]|].
  - intros t amplitude Ht Hgt.
    destruct (Hle t Ht) as [Hnan | (t' & Ht' & Hle')].
    + rewrite Hnan in Hgt. destruct amplitude; discriminate.
    + rewrite Ht' in Hgt. rewrite Ht.
      destruct amplitude as [a|]; [|discriminate]. simpl in *.
      apply gt_true. apply gt_true in Hgt.
      eapply Qle_lt_trans; eassumption.
  - repeat split.
    + intros ->. reflexivity.
    + intros nf ->. reflexivity.
    + intros ->. reflexivity.
    + intros v -> Hv. unfold Recorder._load_calibration.
      rewrite (float_truthy_zero v Hv). reflexivity.
    + intros ->. simpl. destruct (silence_threshold cfg); reflexivity.
Qed.

Lemma load_calibration_never_lowers_witness :
  silence_threshold (Recorder._load_calibration Sample.threshold_2000
                       (Some (Some (Num 0))))
  = silence_threshold Sample.threshold_2000.
Proof.
  pose proof (load_calibration_never_lowers Sample.threshold_2000
                (Some (Some (Num 0)))) as H.
  cbv zeta in H. destruct H as (_ & _ & _ & _ & H & _).
  apply (H 0%Q); reflexivity.
Defined.

(** X8.  What calibration saves, a recorder with the default threshold
    of 1000 loads back: after [_save_calibration] and
    [_load_calibration] it has the noise floor and the silence threshold
    that the calibration had set, also when these are NaN. *)
Theorem calibration_round_trip (fsqrt : Q -> Q) (cfg fresh : AudioConfig)
    (stream : nat -> chunk) :
  silence_threshold fresh = Num 1000 ->
  let calibrated := Recorder.calibrate_noise_floor fsqrt cfg stream in
  let loaded :=
    Recorder._load_calibration fresh (Recorder._save_calibration calibrated) in
  noise_floor loaded = noise_floor calibrated /\
  silence_threshold loaded = silence_threshold calibrated.
Proof.
  intros Hfresh. cbv zeta. split; [reflexivity|].
  unfold Recorder._save_calibration, Recorder._load_calibration,
    Recorder.calibrate_noise_floor. cbv zeta.
  cbn [noise_floor silence_threshold]. rewrite Hfresh.
  set (nf := fadd _ _).
  destruct nf as [v|]; [|reflexivity].
  unfold float_truthy.
  destruct (Qeq_bool v 0) eqn:E; simpl negb; cbv iota; [|reflexivity].
  apply Qeq_bool_iff in E. simpl fmul. rewrite fmax_num. unfold max2.
  replace (gt 1000 (v * 3)) with true; [reflexivity|].
  symmetry. apply gt_true. lra.
Qed.

Lemma calibration_round_trip_witness :
  noise_floor
    (Recorder._load_calibration default_audio
       (Recorder._save_calibration
          (Recorder.calibrate_noise_floor Sample.sqrt_floor
             Sample.threshold_2000 (fun _ => Sample.hum))))
  = noise_floor
      (Recorder.calibrate_noise_floor Sample.sqrt_floor Sample.threshold_2000
         (fun _ => Sample.hum)) /\
  silence_threshold
    (Recorder._load_calibration default_audio
       (Recorder._save_calibration
          (Recorder.calibrate_noise_floor Sample.sqrt_floor
             Sample.threshold_2000 (fun _ => Sample.hum))))
  = silence_threshold
      (Recorder.calibrate_noise_floor Sample.sqrt_floor Sample.threshold_2000
         (fun _ => Sample.hum)).
Proof.
  apply (calibration_round_trip Sample.sqrt_floor Sample.threshold_2000
           default_audio (fun _ => Sample.hum)).
  reflexivity.
Defined.

(** ** More on the dispatch *)

Section DispatchFacts.

Variable json_loads : pystr -> option Claude.pyval.
Variable exc_text : Claude.exc -> pystr.
Variable encodable : N -> bool.

Local Abbreviation send_query :=
  (Claude.send_query json_loads exc_text encodable).

(** What [send_query] returns after a parsed reply. *)
Lemma send_query_parsed (fs : gmap Claude.Path pystr)
    (claude : Claude.invocation -> Claude.outcome) (text : pystr)
    (profile_path : option Claude.Path) (reset_context : bool)
    (stdout stderr : pystr) (v : Claude.pyval) :
  let r := send_query fs claude text profile_path reset_context in
  let handled :=
    Claude.handle_reply encodable (Claude.files (Claude.invoked r))
      (Claude.session_file_of profile_path) v in
  claude (Claude.invoked r) = Claude.Exits 0 stdout stderr ->
  json_loads stdout = Some v ->
  Claude.files_after r = fst handled /\
  Claude.response r = match snd handled with
                      | inl e => Claude.error_reply (exc_text e)
                      | inr t => t
                      end.
Proof.
  cbv zeta. intros Hc Hj.
  destruct (send_query_outcome json_loads exc_text encodable fs claude text
              profile_path reset_context) as (_ & _ & _ & Hparsed).
  apply (Hparsed stdout stderr v Hc Hj).
Qed.

(** A call that fails leaves the store as the process found it. *)
Lemma failed_keeps_files (fs : gmap Claude.Path pystr)
    (claude : Claude.invocation -> Claude.outcome) (text : pystr)
    (profile_path : option Claude.Path) (reset_context : bool) :
  let r := send_query fs claude text profile_path reset_context in
  Claude.failed json_loads (claude (Claude.invoked r)) ->
  Claude.files_after r = Claude.files (Claude.invoked r).
Proof.
  cbv zeta. intros Hfail.
  destruct (send_query_files_after json_loads exc_text encodable fs claude
              text profile_path reset_context)
    as [Hsame | (out & err & d & y & Hc & Hj & _ & _)]; [exact Hsame|].
  rewrite Hc in Hfail. simpl in Hfail.
  destruct Hfail as [Hrc | [Hnone | (v & Hv & Hnot)]].
  - contradiction.
  - congruence.
  - rewrite Hj in Hv. injection Hv as <-. exfalso. apply (Hnot d). reflexivity.
Qed.

Lemma invoked_files (fs : gmap Claude.Path pystr)
    (claude : Claude.invocation -> Claude.outcome) (text : pystr)
    (profile_path : option Claude.Path) (reset_context : bool)
    (p : Claude.Path) :
  p <> Claude.session_file_of profile_path ->
  Claude.files
    (Claude.invoked (send_query fs claude text profile_path reset_context))
    !! p = fs !! p.
Proof.
  intros Hp. rewrite (send_query_invoked json_loads exc_text encodable).
  cbv zeta. simpl Claude.files.
  destruct reset_context; simpl; [|reflexivity].
  apply reset_keeps_others. exact Hp.
Qed.

(** X9.  A dispatch reads and writes one file of the store only, the
    session file of the profile it runs in: every other file, the
    session files of the other profiles among them, is the same before
    the process starts and after the dispatch as it was. *)
Theorem dispatch_touches_one_file (fs : gmap Claude.Path pystr)
    (claude : Claude.invocation -> Claude.outcome) (text : pystr)
    (profile_path : option Claude.Path) (reset_context : bool)
    (p : Claude.Path) :
  p <> Claude.session_file_of profile_path ->
  let r := send_query fs claude text profile_path reset_context in
  Claude.files (Claude.invoked r) !! p = fs !! p /\
  Claude.files_after r !! p = fs !! p.
Proof.
  intros Hp. cbv zeta.
  pose proof (invoked_files fs claude text profile_path reset_context p Hp)
    as Hinv.
  split; [exact Hinv|].
  destruct (send_query_files_after json_loads exc_text encodable fs claude
              text profile_path reset_context)
    as [Hsame | (out & err & d & y & _ & _ & _ & Hput)].
  - rewrite Hsame. exact Hinv.
  - rewrite Hput, lookup_insert_ne by congruence. exact Hinv.
Qed.

(** X10.  A call that fails does not touch the stored continuation id:
    after a dispatch without reset that could not run the process, or
    saw it exit with a status other than 0, or got output that is not a
    JSON object, the store is as before and the next dispatch resumes
    with the same id, which is the text of the session file as text
    mode reads it, stripped.  A reset dispatch, however, has discarded
    the id by then: after it fails there is no stored id. *)
Theorem failed_dispatch_keeps_id (fs : gmap Claude.Path pystr)
    (claude : Claude.invocation -> Claude.outcome) (text x : pystr)
    (profile_path : option Claude.Path) :
  fs !! Claude.session_file_of profile_path = Some x ->
  (let r := send_query fs claude text profile_path false in
   Claude.failed json_loads (claude (Claude.invoked r)) ->
   Claude.files_after r = fs /\
   Claude.cmd (Claude.invoked r)
   = Claude.base_cmd ++ [py "--resume"; strip (Claude.read_text x); text] /\
   forall claude2 text2,
     Claude.cmd
       (Claude.invoked
          (send_query (Claude.files_after r) claude2 text2 profile_path false))
     = Claude.base_cmd ++ [py "--resume"; strip (Claude.read_text x); text2]) /\
  (let r := send_query fs claude text profile_path true in
   Claude.failed json_loads (claude (Claude.invoked r)) ->
   Claude.files_after r !! Claude.session_file_of profile_path = None /\
   forall claude2 text2,
     Claude.cmd
       (Claude.invoked
          (send_query (Claude.files_after r) claude2 text2 profile_path false))
     = Claude.base_cmd ++ [text2]).
Proof.
  intros Hx. split; cbv zeta; intros Hfail.
  - pose proof (failed_keeps_files fs claude text profile_path false Hfail)
      as Hkeep.
    destruct (send_query_resume json_loads exc_text encodable fs claude text
                profile_path x Hx) as [Hcmd Hfiles].
    assert (Hfs : Claude.files_after
                    (send_query fs claude text profile_path false) = fs)
      by (rewrite Hkeep; exact Hfiles).
    split; [exact Hfs|]. split; [exact Hcmd|].
    intros claude2 text2. rewrite Hfs.
    apply (send_query_resume json_loads exc_text encodable fs claude2 text2
             profile_path x Hx).
  - pose proof (failed_keeps_files fs claude text profile_path true Hfail)
      as Hkeep.
    assert (Hnone : Claude.files_after
                      (send_query fs claude text profile_path true)
                    !! Claude.session_file_of profile_path = None).
    { rewrite Hkeep, (send_query_invoked json_loads exc_text encodable).
      cbv zeta. simpl Claude.files. apply reset_removes. }
    split; [exact Hnone|]. intros claude2 text2.
    rewrite (send_query_invoked json_loads exc_text encodable). cbv zeta.
    simpl. rewrite Hnone. reflexivity.
Qed.

(** X11.  A reply that is JSON but not a usable object is answered with
    an error message and not with the raw output.  If it is not an
    object at all, or an object whose [session_id] is not a string,
    nothing is stored; if it is an object with a string [session_id]
    whose [result] is not a string, the error is returned although the
    id has already been written; and if the encoding of the locale
    lacks a character of the [session_id], the error is returned and
    the session file is left empty, whatever the [result]. *)
Theorem unusable_reply_is_error (fs : gmap Claude.Path pystr)
    (claude : Claude.invocation -> Claude.outcome) (text : pystr)
    (profile_path : option Claude.Path) (reset_context : bool)
    (stdout stderr : pystr) (v : Claude.pyval) :
  let r := send_query fs claude text profile_path reset_context in
  let session_file := Claude.session_file_of profile_path in
  claude (Claude.invoked r) = Claude.Exits 0 stdout stderr ->
  json_loads stdout = Some v ->
  ((forall d, v <> Claude.PyDict d) ->
   (exists e, Claude.response r = Claude.error_reply (exc_text e)) /\
   Claude.files_after r = Claude.files (Claude.invoked r)) /\
  (forall d w,
     v = Claude.PyDict d ->
     Claude.dict_get d (py "session_id") = Some w ->
     (forall y, w <> Claude.PyStr y) ->
     Claude.response r = Claude.error_reply (exc_text Claude.TypeError) /\
     Claude.files_after r = Claude.files (Claude.invoked r)) /\
  (forall d y w,
     v = Claude.PyDict d ->
     Claude.dict_get d (py "session_id") = Some (Claude.PyStr y) ->
     forallb encodable y = true ->
     Claude.dict_get d (py "result") = Some w ->
     (forall t, w <> Claude.PyStr t) ->
     Claude.response r = Claude.error_reply (exc_text Claude.AttributeError) /\
     Claude.files_after r !! session_file = Some y) /\
  (forall d y,
     v = Claude.PyDict d ->
     Claude.dict_get d (py "session_id") = Some (Claude.PyStr y) ->
     forallb encodable y = false ->
     Claude.response r
     = Claude.error_reply (exc_text Claude.UnicodeEncodeError) /\
     Claude.files_after r !! session_file = Some []).
Proof.
  cbv zeta. intros Hc Hj.
  destruct (send_query_parsed fs claude text profile_path reset_context
              stdout stderr v Hc Hj) as [Hfiles Hresp].
  rewrite Hfiles, Hresp. clear Hfiles Hresp.
  set (fs1 := Claude.files _).
  split; [|split; [|split]].
  - intros Hnot. destruct v as [| | | | s | l | d]; simpl.
    + split; [exists Claude.TypeError|]; reflexivity.
    + split; [exists Claude.TypeError|]; reflexivity.
    + split; [exists Claude.TypeError|]; reflexivity.
    + split; [exists Claude.TypeError|]; reflexivity.
    + destruct (is_infix _ s); simpl; split; eauto.
    + destruct (existsb _ l); simpl; split; eauto.
    + exfalso. apply (Hnot d). reflexivity.
  - intros d w -> Hd Hw. unfold Claude.handle_reply. rewrite Hd.
    destruct w; try (split; reflexivity).
    exfalso. apply (Hw s). reflexivity.
  - intros d y w -> Hd Hy Hr Hw.
    rewrite (handle_reply_session_id encodable fs1 _ d y Hd).
    unfold Claude.written, Claude.get_result. rewrite Hy, Hr. simpl.
    destruct w; simpl; try (split; [reflexivity | apply lookup_insert_eq]).
    exfalso. apply (Hw s). reflexivity.
  - intros d y -> Hd Hy.
    rewrite (handle_reply_session_id encodable fs1 _ d y Hd).
    unfold Claude.written. rewrite Hy. simpl.
    split; [reflexivity | apply lookup_insert_eq].
Qed.

(** X12.  A dispatch that finds no stored id, like one with the reset
    flag set, starts the process without a resume argument.  When the
    reply then carries a string [session_id] that the encoding of the
    locale can write, that id is stored and the next dispatch without
    reset resumes with it as text mode reads it back, a carriage
    return as a line feed, stripped of surrounding white space: with
    the id itself when it holds no carriage return and no surrounding
    white space.  When the encoding lacks one of its characters, the
    session file is left empty and the next dispatch resumes with the
    empty string. *)
Theorem new_session_adopts_id (fs : gmap Claude.Path pystr)
    (claude : Claude.invocation -> Claude.outcome) (text : pystr)
    (profile_path : option Claude.Path) (reset_context : bool) :
  reset_context = true \/ fs !! Claude.session_file_of profile_path = None ->
  let r := send_query fs claude text profile_path reset_context in
  let session_file := Claude.session_file_of profile_path in
  let next claude2 text2 :=
    Claude.cmd
      (Claude.invoked
         (send_query (Claude.files_after r) claude2 text2 profile_path false)) in
  Claude.cmd (Claude.invoked r) = Claude.base_cmd ++ [text] /\
  Claude.files (Claude.invoked r) !! session_file = None /\
  (forall stdout stderr d y,
     claude (Claude.invoked r) = Claude.Exits 0 stdout stderr ->
     json_loads stdout = Some (Claude.PyDict d) ->
     Claude.dict_get d (py "session_id") = Some (Claude.PyStr y) ->
     (forallb encodable y = true ->
      Claude.files_after r !! session_file = Some y /\
      (forall claude2 text2,
         next claude2 text2
         = Claude.base_cmd ++ [py "--resume"; strip (Claude.read_text y); text2]) /\
      (Forall (fun c => c <> 13%N) y -> strip y = y ->
       forall claude2 text2,
         next claude2 text2 = Claude.base_cmd ++ [py "--resume"; y; text2])) /\
     (forallb encodable y = false ->
      Claude.files_after r !! session_file = Some [] /\
      forall claude2 text2,
        next claude2 text2 = Claude.base_cmd ++ [py "--resume"; []; text2])).
Proof.
  intros Hnew. cbv zeta.
  assert (Hnone : Claude.files
                    (Claude.invoked
                       (send_query fs claude text profile_path reset_context))
                  !! Claude.session_file_of profile_path = None).
  { rewrite (send_query_invoked json_loads exc_text encodable). cbv zeta.
    simpl Claude.files. destruct reset_context; simpl.
    - apply reset_removes.
    - destruct Hnew as [Hr | Hn]; [discriminate | exact Hn]. }
  split; [|split; [exact Hnone|]].
  - rewrite (send_query_invoked json_loads exc_text encodable) in *.
    cbv zeta in *. simpl in *. rewrite Hnone. reflexivity.
  - intros stdout stderr d y Hc Hj Hd.
    destruct (send_query_adopts json_loads exc_text encodable fs claude text
                profile_path reset_context stdout stderr d y Hc Hj Hd)
      as [Hafter _].
    assert (Hy : Claude.files_after
                   (send_query fs claude text profile_path reset_context)
                 !! Claude.session_file_of profile_path
                 = Some (Claude.written encodable y))
      by (rewrite Hafter; apply lookup_insert_eq).
    assert (Hnext : forall claude2 text2,
              Claude.cmd
                (Claude.invoked
                   (send_query
                      (Claude.files_after
                         (send_query fs claude text profile_path
                            reset_context))
                      claude2 text2 profile_path false))
              = Claude.base_cmd
                ++ [py "--resume";
                    strip (Claude.read_text (Claude.written encodable y));
                    text2]).
    { intros claude2 text2.
      apply (send_query_resume json_loads exc_text encodable _ claude2 text2
               profile_path _ Hy). }
    unfold Claude.written in Hy, Hnext. split; intros Henc;
      rewrite Henc in Hy, Hnext.
    + split; [exact Hy|]. split; [exact Hnext|].
      intros Hcr Hstrip claude2 text2. rewrite Hnext.
      unfold Claude.read_text. rewrite (universal_newlines_fixed y Hcr), Hstrip.
      reflexivity.
    + split; [exact Hy | exact Hnext].
Qed.

(** X13.  The session status shown at start-up agrees with what the
    next dispatch does: with no reset pending, a session is reported
    exactly when the dispatch passes a resume argument, the id shown in
    verbose mode is that argument, and otherwise its first eight
    characters are shown, followed by three dots. *)
Theorem session_status_matches_resume (pm : Claude.ProfileManager)
    (fs : gmap Claude.Path pystr)
    (claude : Claude.invocation -> Claude.outcome) (text : pystr) :
  Claude.reset_context_mode pm = false ->
  let r :=
    fst (Claude.send_to_claude json_loads exc_text encodable pm fs claude text)
  in
  (Claude.check_session_status pm fs true = None <->
   Claude.cmd (Claude.invoked r) = Claude.base_cmd ++ [text]) /\
  (forall id,
     Claude.check_session_status pm fs true
       = Some (Claude.status_prefix ++ id) <->
     Claude.cmd (Claude.invoked r)
       = Claude.base_cmd ++ [py "--resume"; id; text]) /\
  (forall id,
     Claude.check_session_status pm fs true
       = Some (Claude.status_prefix ++ id) ->
     Claude.check_session_status pm fs false
       = Some (Claude.status_prefix ++ firstn 8 id ++ py "...")).
Proof.
  intros Hflag. cbv zeta. unfold Claude.send_to_claude. simpl fst.
  rewrite Hflag, (send_query_invoked json_loads exc_text encodable).
  cbv zeta. simpl Claude.cmd. unfold Claude.check_session_status.
  destruct (fs !! Claude.session_file_of (Claude.get_current_profile_path pm))
    as [content|]; simpl.
  - split; [|split].
    + split; [discriminate|]. intros H.
      apply (f_equal (@length pystr)) in H. simpl in H. lia.
    + intros id. split.
      * intros [= H]. rewrite H. reflexivity.
      * intros [= H]. rewrite H. reflexivity.
    + intros id [= H]. rewrite H. reflexivity.
  - split; [|split].
    + split; reflexivity.
    + intros id. split; [discriminate|]. intros H.
      apply (f_equal (@length pystr)) in H. simpl in H. lia.
    + intros id H. discriminate.
Qed.

End DispatchFacts.

Lemma dispatch_touches_one_file_witness :
  Claude.files
    (Claude.invoked
       (Claude.send_query Sample.loads Sample.exc_text Sample.utf8
          Sample.store_two (Sample.answers (Sample.reply_text (py "Y")))
          (py "hello") None true))
    !! Claude.session_file_of (Some Sample.work_profile)
  = Sample.store_two !! Claude.session_file_of (Some Sample.work_profile) /\
  Claude.files_after
    (Claude.send_query Sample.loads Sample.exc_text Sample.utf8
       Sample.store_two (Sample.answers (Sample.reply_text (py "Y")))
       (py "hello") None true)
    !! Claude.session_file_of (Some Sample.work_profile)
  = Sample.store_two !! Claude.session_file_of (Some Sample.work_profile).
Proof.
  apply (dispatch_touches_one_file Sample.loads Sample.exc_text Sample.utf8
           Sample.store_two (Sample.answers (Sample.reply_text (py "Y")))
           (py "hello") None true).
  vm_compute. discriminate.
Defined.

Lemma failed_dispatch_keeps_id_witness :
  Claude.files_after
    (Claude.send_query Sample.loads Sample.exc_text Sample.utf8 Sample.store_X
       (Sample.fails_with (Sample.reply_text (py "Y"))) (py "hello") None false)
  = Sample.store_X.
Proof.
  pose proof (failed_dispatch_keeps_id Sample.loads Sample.exc_text
                Sample.utf8 Sample.store_X
                (Sample.fails_with (Sample.reply_text (py "Y")))
                (py "hello") (py "X") None eq_refl) as [H _].
  cbv zeta in H. apply H. left. discriminate.
Defined.

Lemma unusable_reply_is_error_witness :
  (exists e,
     Claude.response
       (Claude.send_query Sample.loads_list Sample.exc_text Sample.utf8
          Sample.store_X (Sample.answers (py "[]")) (py "hello") None false)
     = Claude.error_reply (Sample.exc_text e)) /\
  Claude.files_after
    (Claude.send_query Sample.loads_list Sample.exc_text Sample.utf8
       Sample.store_X (Sample.answers (py "[]")) (py "hello") None false)
  = Claude.files
      (Claude.invoked
         (Claude.send_query Sample.loads_list Sample.exc_text Sample.utf8
            Sample.store_X (Sample.answers (py "[]")) (py "hello") None
            false)).
Proof.
  pose proof (unusable_reply_is_error Sample.loads_list Sample.exc_text
                Sample.utf8 Sample.store_X (Sample.answers (py "[]"))
                (py "hello") None false (py "[]") [] (Claude.PyList [])
                eq_refl eq_refl)
    as [H _].
  apply H. discriminate.
Defined.

Lemma new_session_adopts_id_witness :
  Claude.files_after
    (Claude.send_query Sample.loads Sample.exc_text Sample.utf8 ∅
       (Sample.answers (Sample.reply_text (py "a\rb"))) (py "hello") None
       false)
    !! Claude.session_file_of None = Some [97; 13; 98]%N /\
  (forall claude2 text2,
     Claude.cmd
       (Claude.invoked
          (Claude.send_query Sample.loads Sample.exc_text Sample.utf8
             (Claude.files_after
                (Claude.send_query Sample.loads Sample.exc_text Sample.utf8 ∅
                   (Sample.answers (Sample.reply_text (py "a\rb")))
                   (py "hello") None false))
             claude2 text2 None false))
     = Claude.base_cmd
       ++ [py "--resume"; strip (Claude.read_text [97; 13; 98]%N); text2]).
Proof.
  pose proof (new_session_adopts_id Sample.loads Sample.exc_text Sample.utf8 ∅
                (Sample.answers (Sample.reply_text (py "a\rb"))) (py "hello")
                None false (or_intror eq_refl)) as H.
  cbv zeta in H. destruct H as (_ & _ & H).
  destruct (H (Sample.reply_text (py "a\rb")) []
              [(py "result", Claude.PyStr (py "ok"));
               (py "session_id", Claude.PyStr [97; 13; 98]%N)]
              [97; 13; 98]%N eq_refl eq_refl eq_refl) as [Hy _].
  destruct (Hy eq_refl) as (Hfile & Hnext & _).
  split; [exact Hfile | exact Hnext].
Defined.

Lemma session_status_matches_resume_witness :
  Claude.check_session_status (Sample.no_profile false) Sample.store_X false
  = Some (Claude.status_prefix ++ firstn 8 (py "X") ++ py "...").
Proof.
  pose proof (session_status_matches_resume Sample.loads Sample.exc_text
                Sample.utf8 (Sample.no_profile false) Sample.store_X
                (Sample.answers (Sample.reply_text (py "Y"))) (py "hello")
                eq_refl) as (_ & _ & H).
  apply H. reflexivity.
Defined.

(** ** More on the cancel listener *)

(** While [send_query] is inside its [with] block, no step of a watcher
    touches the process. *)
Lemma cancel_locked_step (a : Cancel.actor) (input : bool) (s : Cancel.state) :
  Cancel.mn s = Cancel.MRunning -> a <> Cancel.Main ->
  Cancel.mn (Cancel.step a input s) = Cancel.MRunning /\
  Cancel.current_process (Cancel.step a input s) = Cancel.current_process s /\
  Cancel.terminate_calls (Cancel.step a input s) = Cancel.terminate_calls s /\
  Cancel.terminated (Cancel.step a input s) = Cancel.terminated s.
Proof.
  intros Hm Ha. destruct a as [i|i|]; [| |contradiction]; simpl.
  - unfold Cancel.step_keyboard, Cancel.lock_free. rewrite Hm.
    destruct (Cancel.watchers s !! i) as [[k v]|]; [|auto].
    destruct k; try (destruct (Cancel.cancel_requested s));
      try (destruct input); simpl; auto.
  - unfold Cancel.step_voice, Cancel.lock_free. rewrite Hm.
    destruct (Cancel.watchers s !! i) as [[k v]|]; [|auto].
    destruct v; try (destruct (Cancel.cancel_requested s));
      try (destruct input); simpl; auto.
Qed.

Lemma cancel_locked_run (more : Cancel.schedule) (s : Cancel.state) :
  Cancel.mn s = Cancel.MRunning ->
  Forall (fun e => fst e <> Cancel.Main) more ->
  Cancel.mn (Cancel.run_schedule more s) = Cancel.MRunning /\
  Cancel.current_process (Cancel.run_schedule more s)
  = Cancel.current_process s /\
  Cancel.terminate_calls (Cancel.run_schedule more s)
  = Cancel.terminate_calls s /\
  Cancel.terminated (Cancel.run_schedule more s) = Cancel.terminated s.
Proof.
  revert s. induction more as [|[a input] more IH]; intros s Hm Hall;
    [auto|].
  inversion Hall as [|? ? Ha Hrest]; subst. simpl in Ha. simpl.
  destruct (cancel_locked_step a input s Hm Ha) as (Hm' & Hp & Ht & Hc).
  destruct (IH _ Hm' Hrest) as (Hm'' & Hp' & Ht' & Hc').
  repeat split; congruence.
Qed.

(** X14.  [cancel()] cannot stop a process that is still running:
    [send_query] holds the lock of the client from [Popen] until
    [communicate()] has returned, so in every interleaving, as long as
    the main thread has not left that block, the process has not been
    terminated and is still the current process, whatever the watchers
    do meanwhile; and before [Popen] there is no process to terminate.
    In particular nothing has been terminated up to that point of the
    first dispatch. *)
Theorem cancel_waits_for_the_process (sch : Cancel.schedule) :
  let s := Cancel.run_schedule sch Cancel.init in
  (Cancel.mn s = Cancel.MRunning ->
   Cancel.current_process s = true /\ Cancel.terminated s = 0%nat) /\
  (Cancel.mn s = Cancel.MStart -> Cancel.current_process s = false) /\
  ((length (Cancel.watchers s) <= 1)%nat ->
   Cancel.mn s = Cancel.MStart \/ Cancel.mn s = Cancel.MRunning ->
   Cancel.terminate_calls s = 0%nat) /\
  (forall more,
     Cancel.mn s = Cancel.MRunning ->
     Forall (fun e => fst e <> Cancel.Main) more ->
     let s' := Cancel.run_schedule more s in
     Cancel.mn s' = Cancel.MRunning /\
     Cancel.current_process s' = true /\
     Cancel.terminated s' = 0%nat /\
     Cancel.terminate_calls s' = Cancel.terminate_calls s).
Proof.
  cbv zeta.
  pose proof (cancel_run_invariant sch Cancel.init cancel_init_invariant)
    as (H1 & H2 & H3 & H4 & H5 & H6 & H7 & H8 & H9 & H10).
  split; [exact H9|]. split; [|split].
  - intros Hm.
    destruct (Cancel.current_process _) eqn:E; [|reflexivity].
    destruct (H8 eq_refl); congruence.
  - intros Hfirst [Hm | Hm].
    + rewrite Hm in H7.
      destruct (Cancel.current_process _); lia.
    + destruct (H9 Hm) as [Hp _]. rewrite Hp, Hm in *. lia.
  - intros more Hm Hall.
    destruct (cancel_locked_run more _ Hm Hall) as (Hm' & Hp & Ht & Hc).
    destruct (H9 Hm) as [Hp0 Hc0].
    repeat split; congruence.
Qed.

Lemma cancel_waits_for_the_process_witness :
  Cancel.terminate_calls
    (Cancel.run_schedule
       [(Cancel.Main, false); (Cancel.Main, false);
        (Cancel.Keyboard 0, false); (Cancel.Main, false);
        (Cancel.Keyboard 0, false); (Cancel.Keyboard 0, true);
        (Cancel.Keyboard 0, false); (Cancel.Keyboard 0, false);
        (Cancel.Keyboard 0, false)]
       Cancel.init) = 0%nat.
Proof.
  pose proof (cancel_waits_for_the_process
                [(Cancel.Main, false); (Cancel.Main, false);
                 (Cancel.Keyboard 0, false); (Cancel.Main, false);
                 (Cancel.Keyboard 0, false); (Cancel.Keyboard 0, true);
                 (Cancel.Keyboard 0, false); (Cancel.Keyboard 0, false);
                 (Cancel.Keyboard 0, false)]) as H.
  cbv zeta in H. destruct H as (_ & _ & H & _).
  apply H; [vm_compute; lia | right; reflexivity].
Defined.

Lemma set_watcher_lookup (s : Cancel.state) (i : nat)
    (w0 w : Cancel.kpc * Cancel.vpc) :
  Cancel.watchers s !! i = Some w0 ->
  Cancel.watchers (Cancel.set_watcher i w s) !! i = Some w.
Proof.
  intros H. unfold Cancel.set_watcher.
  cbn [Cancel.watchers Cancel.set_watchers].
  apply list_lookup_insert_eq. apply (lookup_lt_Some _ _ _ H).
Qed.

(** A statement of a voice watcher, given where it stands. *)
Lemma step_voice_at (s : Cancel.state) (i : nat) (k : Cancel.kpc)
    (v : Cancel.vpc) (heard : bool) :
  Cancel.watchers s !! i = Some (k, v) ->
  Cancel.step (Cancel.Voice i) heard s
  = match v with
    | Cancel.VIdle => s
    | Cancel.VLoop =>
        if Cancel.cancel_requested s
        then Cancel.set_watcher i (k, Cancel.VDone) s
        else Cancel.set_watcher i (k, Cancel.VListen) s
    | Cancel.VListen =>
        if heard then Cancel.set_watcher i (k, Cancel.VSetFlag) s
        else Cancel.set_watcher i (k, Cancel.VSleep) s
    | Cancel.VSetFlag =>
        Cancel.set_watcher i (k, Cancel.VCancel) (Cancel.trigger true s)
    | Cancel.VCancel =>
        if Cancel.lock_free s
        then Cancel.set_watcher i (k, Cancel.VStop) (Cancel.cancel s)
        else s
    | Cancel.VStop => Cancel.set_watcher i (k, Cancel.VDone) (Cancel.stop s)
    | Cancel.VSleep => Cancel.set_watcher i (k, Cancel.VLoop) s
    | Cancel.VDone => s
    end.
Proof.
  intros H. cbn [Cancel.step]. unfold Cancel.step_voice. rewrite H.
  reflexivity.
Qed.

(** X15.  The voice watcher is not stopped with its dispatch.
    [_stop_cancel_listener] sets the flag and joins the keyboard thread
    only, and the flag is cleared again by the [speak] or the
    [_start_cancel_listener] that follows: a voice watcher that is
    inside its recording meanwhile finds the flag clear at its next
    test and goes on listening.  When it then hears a cancel word it
    sets the flag and calls [cancel()] and [stop()]. *)
Theorem voice_watcher_outlives_dispatch (s : Cancel.state) (i : nat)
    (k : Cancel.kpc) (speaks : bool) :
  Cancel.watchers s !! i = Some (k, Cancel.VListen) ->
  Cancel.mn s = Cancel.MStopListener ->
  let stopped :=
    Cancel.run_schedule [(Cancel.Main, false); (Cancel.Main, false)] s in
  let cleared := Cancel.step Cancel.Main speaks stopped in
  let later :=
    Cancel.run_schedule
      [(Cancel.Voice i, false); (Cancel.Voice i, false);
       (Cancel.Voice i, false)] cleared in
  let fired :=
    Cancel.run_schedule
      [(Cancel.Voice i, true); (Cancel.Voice i, false);
       (Cancel.Voice i, false); (Cancel.Voice i, false)] later in
  (Cancel.cancel_requested stopped = true /\ Cancel.mn stopped = Cancel.MIdle) /\
  Cancel.cancel_requested cleared = false /\
  (Cancel.watchers later !! i = Some (k, Cancel.VListen) /\
   Cancel.cancel_requested later = false) /\
  (Cancel.watchers fired !! i = Some (k, Cancel.VDone) /\
   Cancel.cancel_requested fired = true /\
   Cancel.cancel_calls fired = S (Cancel.cancel_calls s) /\
   Cancel.stop_calls fired = S (Cancel.stop_calls s)).
Proof.
  intros Hi Hm. cbv zeta. unfold Cancel.run_schedule.
  cbn [fold_left fst snd].
  assert (E1 : Cancel.step Cancel.Main false s
               = Cancel.at_m Cancel.MJoin (Cancel.set_flag true s)).
  { cbn [Cancel.step]. unfold Cancel.step_main. rewrite Hm. reflexivity. }
  rewrite E1.
  change (Cancel.step Cancel.Main false
            (Cancel.at_m Cancel.MJoin (Cancel.set_flag true s)))
    with (Cancel.at_m Cancel.MIdle (Cancel.set_flag true s)).
  split; [split; reflexivity|].
  set (c := Cancel.step Cancel.Main speaks
              (Cancel.at_m Cancel.MIdle (Cancel.set_flag true s))).
  assert (Hc : Cancel.cancel_requested c = false /\
               Cancel.watchers c = Cancel.watchers s /\
               Cancel.lock_free c = true /\
               Cancel.cancel_calls c = Cancel.cancel_calls s /\
               Cancel.stop_calls c = Cancel.stop_calls s).
  { subst c. destruct speaks; repeat split; reflexivity. }
  clearbody c. destruct Hc as (Hflag & Hws & Hlock & Hcc & Hsc).
  split; [exact Hflag|].
  assert (H0 : Cancel.watchers c !! i = Some (k, Cancel.VListen))
    by (rewrite Hws; exact Hi).
  rewrite (step_voice_at c i k Cancel.VListen false H0). cbv iota.
  pose proof (set_watcher_lookup c i _ (k, Cancel.VSleep) H0) as H1.
  set (c1 := Cancel.set_watcher i (k, Cancel.VSleep) c) in *.
  rewrite (step_voice_at c1 i k Cancel.VSleep false H1). cbv iota.
  pose proof (set_watcher_lookup c1 i _ (k, Cancel.VLoop) H1) as H2.
  set (c2 := Cancel.set_watcher i (k, Cancel.VLoop) c1) in *.
  rewrite (step_voice_at c2 i k Cancel.VLoop false H2).
  change (Cancel.cancel_requested c2) with (Cancel.cancel_requested c).
  rewrite Hflag. cbv iota.
  pose proof (set_watcher_lookup c2 i _ (k, Cancel.VListen) H2) as H3.
  set (c3 := Cancel.set_watcher i (k, Cancel.VListen) c2) in *.
  split; [split; [exact H3 | exact Hflag]|].
  rewrite (step_voice_at c3 i k Cancel.VListen true H3). cbv iota.
  pose proof (set_watcher_lookup c3 i _ (k, Cancel.VSetFlag) H3) as H4.
  set (c4 := Cancel.set_watcher i (k, Cancel.VSetFlag) c3) in *.
  rewrite (step_voice_at c4 i k Cancel.VSetFlag false H4). cbv iota.
  assert (H5 : Cancel.watchers
                 (Cancel.set_watcher i (k, Cancel.VCancel)
                    (Cancel.trigger true c4)) !! i
               = Some (k, Cancel.VCancel)).
  { apply (set_watcher_lookup (Cancel.trigger true c4) i
             (k, Cancel.VSetFlag)). exact H4. }
  set (c5 := Cancel.set_watcher i (k, Cancel.VCancel)
               (Cancel.trigger true c4)) in *.
  rewrite (step_voice_at c5 i k Cancel.VCancel false H5).
  change (Cancel.lock_free c5) with (Cancel.lock_free c).
  rewrite Hlock. cbv iota.
  assert (H6 : Cancel.watchers
                 (Cancel.set_watcher i (k, Cancel.VStop) (Cancel.cancel c5))
                 !! i = Some (k, Cancel.VStop)).
  { apply (set_watcher_lookup (Cancel.cancel c5) i (k, Cancel.VCancel)).
    exact H5. }
  set (c6 := Cancel.set_watcher i (k, Cancel.VStop) (Cancel.cancel c5)) in *.
  rewrite (step_voice_at c6 i k Cancel.VStop false H6). cbv iota.
  split; [|split; [reflexivity|split]].
  - apply (set_watcher_lookup (Cancel.stop c6) i (k, Cancel.VStop)).
    exact H6.
  - change (S (Cancel.cancel_calls c) = S (Cancel.cancel_calls s)).
    rewrite Hcc. reflexivity.
  - change (S (Cancel.stop_calls c) = S (Cancel.stop_calls s)).
    rewrite Hsc. reflexivity.
Qed.

Lemma voice_watcher_outlives_dispatch_witness :
  Cancel.watchers
    (Cancel.run_schedule
       [(Cancel.Voice 0, false); (Cancel.Voice 0, false);
        (Cancel.Voice 0, false)]
       (Cancel.step Cancel.Main true
          (Cancel.run_schedule [(Cancel.Main, false); (Cancel.Main, false)]
             (Cancel.run_schedule (firstn 7 Cancel.survivor_start)
                Cancel.init))))
    !! 0%nat
  = Some (Cancel.KLoop, Cancel.VListen).
Proof.
  pose proof (voice_watcher_outlives_dispatch
                (Cancel.run_schedule (firstn 7 Cancel.survivor_start)
                   Cancel.init)
                0 Cancel.KLoop true eq_refl eq_refl) as H.
  cbv zeta in H. destruct H as (_ & _ & (H & _) & _). exact H.
Defined.

(** ** Listening *)

Lemma transcribe_some (config : TranscriptionConfig) (audio_config : AudioConfig)
    (model_loaded : bool) (recognised : pystr) (audio_frames : list chunk)
    (t : pystr) :
  Whisper.transcribe config audio_config model_loaded recognised audio_frames
    = Some t ->
  model_loaded = true /\
  t = List.filter is_ascii (strip recognised) /\
  (2 <= length t)%nat /\
  ~ In t Whisper.noise_strings.
Proof.
  rewrite transcribe_cases. cbv zeta.
  destruct model_loaded; simpl negb; [|discriminate]. rewrite orb_false_l.
  destruct (Nat.eqb (length audio_frames) 0); [discriminate|].
  destruct (gt _ _); [discriminate|].
  destruct (Nat.leb_spec (length (List.filter is_ascii (strip recognised))) 1)
    as [Hle|Hgt]; [discriminate|]. rewrite orb_false_l.
  destruct (str_in _ Whisper.noise_strings) eqn:E; [discriminate|].
  intros [= <-]. repeat split; [lia|].
  intros Hin. apply str_in_In in Hin. congruence.
Qed.

(** X16.  Whatever text [listen] returns was recognised in a segment,
    not empty, that the endpointer in use had returned; it consists of
    ASCII characters, has at least two of them, and is none of the
    strings that count as noise. *)
Theorem listen_returns_recognised_text (fsqrt : Q -> Q) (cfg : AudioConfig)
    (vcfg : VADConfig) (tcfg : TranscriptionConfig)
    (vad_model model_loaded : bool) (recognise : list chunk -> pystr)
    (timeout : option Q) (start_time last0 : Q)
    (evs : list Recorder.vad_event) (rescore : list chunk -> nat -> Q)
    (aevs : list Recorder.amp_event) (t : pystr) :
  Listening.listen fsqrt cfg vcfg tcfg vad_model model_loaded recognise timeout
    start_time last0 evs rescore aevs = Recorder.Done (Some t) ->
  (exists frames,
     frames <> [] /\
     (if vad_model
      then Recorder.record_with_vad fsqrt cfg vcfg true timeout start_time
             last0 evs rescore aevs
      else Recorder.record_with_amplitude fsqrt cfg timeout start_time aevs)
     = Recorder.Done (Some frames) /\
     t = List.filter is_ascii (strip (recognise frames))) /\
  Forall (fun c => (c < 128)%N) t /\
  (2 <= length t)%nat /\
  ~ In t Whisper.noise_strings.
Proof.
  unfold Listening.listen. intros H.
  assert (Hrec : exists frames,
    frames <> [] /\
    (if vad_model
     then Recorder.record_with_vad fsqrt cfg vcfg true timeout start_time
            last0 evs rescore aevs
     else Recorder.record_with_amplitude fsqrt cfg timeout start_time aevs)
    = Recorder.Done (Some frames) /\
    Whisper.transcribe tcfg cfg model_loaded (recognise frames) frames = Some t).
  { destruct vad_model;
      match type of H with
      | match ?r with _ => _ end = _ => destruct r as [[[|f frames]|]|] eqn:E
      end; try discriminate;
      exists (f :: frames); (split; [discriminate|]);
      (split; [reflexivity|]); congruence. }
  destruct Hrec as (frames & Hne & Hrec & Ht).
  destruct (transcribe_some _ _ _ _ _ _ Ht) as (_ & Heq & Hlen & Hnoise).
  split; [exists frames; auto|]. split; [|split; assumption].
  rewrite Heq. eapply List.Forall_impl; [|apply filter_Forall].
  intros c Hc. apply N.ltb_lt. exact Hc.
Qed.

Lemma listen_returns_recognised_text_witness :
  Forall (fun c => (c < 128)%N) (py "hllo") /\
  (2 <= length (py "hllo"))%nat /\
  ~ In (py "hllo") Whisper.noise_strings.
Proof.
  apply (listen_returns_recognised_text Sample.sqrt_floor default_audio
           default_vad default_transcription false true
           (Sample.hears Sample.accented) (Some 5%Q) 0 0 [] Sample.no_rescore
           (Recorder.AChunk 1 Sample.loud
            :: map Recorder.chunk_event (Sample.silence_32 100))).
  vm_compute. reflexivity.
Defined.

(** X17.  When nothing is said, [listen] returns none, whatever the
    recognition model would answer: with the amplitude endpointer, when
    no chunk exceeds the silence threshold before the clock passes the
    timeout, and with the probabilistic endpointer, when no chunk meets
    the start threshold before the timeout or the inactivity watchdog
    fires. *)
Theorem listen_hears_nothing (fsqrt : Q -> Q) (cfg : AudioConfig)
    (vcfg : VADConfig) (tcfg : TranscriptionConfig) (model_loaded : bool)
    (recognise : list chunk -> pystr) (start_time last0 : Q)
    (rescore : list chunk -> nat -> Q) :
  (forall t pre now data rest evs,
     ~ (t == 0)%Q ->
     Forall (Recorder.quiet fsqrt cfg) pre ->
     (t < now - start_time)%Q ->
     Listening.listen fsqrt cfg vcfg tcfg false model_loaded recognise (Some t)
       start_time last0 evs rescore (pre ++ Recorder.AChunk now data :: rest)
     = Recorder.Done None) /\
  (forall timeout pre tk rest aevs,
     Forall (Recorder.below_start vcfg) pre ->
     Recorder.timed_out timeout start_time (Recorder.t_timeout tk) = true \/
     (inactivity_timeout vcfg < Recorder.t_watchdog tk - last0)%Q ->
     Listening.listen fsqrt cfg vcfg tcfg true model_loaded recognise timeout
       start_time last0 (pre ++ Recorder.VChunk tk :: rest) rescore aevs
     = Recorder.Done None).
Proof.
  split.
  - intros t pre now data rest evs Ht Hq Hlt. unfold Listening.listen.
    unfold Recorder.record_with_amplitude.
    rewrite (amp_loop_quiet_timeout fsqrt cfg (Some t) start_time pre rest now
               data 0%Z Hq (timed_out_true t start_time now Ht Hlt)).
    reflexivity.
  - intros timeout pre tk rest aevs Hall Hfire. unfold Listening.listen.
    unfold Recorder.record_with_vad. simpl negb. cbv iota.
    destruct (vad_loop_gives_up cfg vcfg timeout start_time pre rest tk []
                0%Z last0 Hall Hfire) as (r & -> & [-> | ->]); reflexivity.
Qed.

Lemma listen_hears_nothing_witness :
  Listening.listen Sample.sqrt_floor default_audio default_vad
    default_transcription false true (Sample.hears (py "hello")) (Some 5%Q)
    0 0 [] Sample.no_rescore
    ([Recorder.AChunk 1 Sample.hum; Recorder.AChunk 3 Sample.still]
     ++ Recorder.AChunk 6 Sample.loud :: [])
  = Recorder.Done None.
Proof.
  apply (listen_hears_nothing Sample.sqrt_floor default_audio default_vad
           default_transcription true (Sample.hears (py "hello")) 0 0
           Sample.no_rescore).
  - vm_compute. discriminate.
  - repeat constructor; vm_compute; discriminate.
  - reflexivity.
Defined.

(** ** Profile names *)

Lemma lower_ascii_chars (unicode_lower : N -> pystr) (name : pystr)
    (c : N) :
  Forall (fun c => is_ascii c = true) name ->
  In c (Interface.lower unicode_lower name) ->
  is_ascii c = true /\ is_upper c = false.
Proof.
  induction 1 as [|x name Hx _ IH]; simpl; [tauto|].
  unfold Interface.lower_char at 1. rewrite Hx. simpl.
  intros [<- | H]; [|auto].
  unfold is_ascii in Hx. apply N.ltb_lt in Hx.
  unfold is_ascii, is_upper, between.
  destruct (N.leb_spec 65 x), (N.leb_spec x 90); simpl;
    (split; [apply N.ltb_lt; lia|]);
    try (apply andb_false_iff; left; apply N.leb_gt; lia);
    try (apply andb_false_iff; right; apply N.leb_gt; lia).
Qed.

Lemma lower_fixed (unicode_lower : N -> pystr) (s : pystr) :
  Forall (fun c => is_ascii c = true /\ is_upper c = false) s ->
  Interface.lower unicode_lower s = s.
Proof.
  induction 1 as [|x s [Ha Hu] _ IH]; [reflexivity|].
  change (Interface.lower_char unicode_lower x
          ++ Interface.lower unicode_lower s = x :: s).
  rewrite IH. unfold Interface.lower_char. rewrite Ha, Hu. reflexivity.
Qed.

Section NameFacts.

Variable unicode_lower : N -> pystr.
Variable unicode_alnum : N -> bool.

Local Abbreviation word_char := (Interface.word_char unicode_alnum).
Local Abbreviation sanitize :=
  (Profiles._sanitize_name unicode_lower unicode_alnum).

Lemma lstrip_underscores_incl (s : pystr) (c : N) :
  In c (Profiles.lstrip_underscores s) -> In c s.
Proof.
  induction s as [|x s IH]; simpl; [auto|].
  destruct (x =? Profiles.underscore)%N; [auto|]. simpl. auto.
Qed.

Lemma strip_underscores_incl (s : pystr) (c : N) :
  In c (Profiles.strip_underscores s) -> In c s.
Proof.
  unfold Profiles.strip_underscores. intros H.
  apply List.in_rev in H. apply lstrip_underscores_incl in H.
  apply List.in_rev in H. apply lstrip_underscores_incl in H. exact H.
Qed.

Lemma lstrip_underscores_head (s : pystr) (c : N) (rest : pystr) :
  Profiles.lstrip_underscores s = c :: rest -> c <> Profiles.underscore.
Proof.
  induction s as [|x s IH]; simpl; [discriminate|].
  destruct (N.eqb_spec x Profiles.underscore) as [E|E]; [exact IH|].
  intros [= <- _]. exact E.
Qed.

Lemma lstrip_underscores_suffix (s : pystr) :
  exists pre, s = pre ++ Profiles.lstrip_underscores s.
Proof.
  induction s as [|x s [pre IH]]; simpl; [exists []; reflexivity|].
  destruct (x =? Profiles.underscore)%N.
  - exists (x :: pre). simpl. f_equal. exact IH.
  - exists []. reflexivity.
Qed.

Lemma lstrip_underscores_fixed (s : pystr) :
  (forall c rest, s = c :: rest -> c <> Profiles.underscore) ->
  Profiles.lstrip_underscores s = s.
Proof.
  destruct s as [|x s]; [reflexivity|]. intros H. simpl.
  destruct (N.eqb_spec x Profiles.underscore) as [E|E]; [|reflexivity].
  destruct (H x s eq_refl E).
Qed.

Lemma strip_underscores_first (s : pystr) (c : N) (rest : pystr) :
  Profiles.strip_underscores s = c :: rest -> c <> Profiles.underscore.
Proof.
  unfold Profiles.strip_underscores. intros H.
  apply (f_equal (@rev N)) in H. rewrite rev_involutive in H. simpl in H.
  destruct (lstrip_underscores_suffix (rev (Profiles.lstrip_underscores s)))
    as [pre Hpre].
  rewrite H in Hpre. apply (f_equal (@rev N)) in Hpre.
  rewrite rev_involutive, !rev_app_distr, rev_involutive in Hpre.
  simpl in Hpre. exact (lstrip_underscores_head _ _ _ Hpre).
Qed.

Lemma strip_underscores_last (s : pystr) (c : N) (rest : pystr) :
  Profiles.strip_underscores s = rest ++ [c] -> c <> Profiles.underscore.
Proof.
  unfold Profiles.strip_underscores. intros H.
  apply (f_equal (@rev N)) in H.
  rewrite rev_involutive, rev_app_distr in H. simpl in H.
  exact (lstrip_underscores_head _ _ _ H).
Qed.

Lemma strip_underscores_fixed (s : pystr) :
  (forall c rest, s = c :: rest -> c <> Profiles.underscore) ->
  (forall c rest, s = rest ++ [c] -> c <> Profiles.underscore) ->
  Profiles.strip_underscores s = s.
Proof.
  intros Hfirst Hlast. unfold Profiles.strip_underscores.
  rewrite (lstrip_underscores_fixed s Hfirst).
  rewrite lstrip_underscores_fixed; [apply rev_involutive|].
  intros c rest E. apply (Hlast c (rev rest)).
  rewrite <- (rev_involutive s), E. reflexivity.
Qed.

Lemma join_separators_chars (in_run : bool) (s : pystr) (c : N) :
  In c (Profiles.join_separators in_run s) ->
  (c = Profiles.underscore \/ In c s) /\ Profiles.is_separator c = false.
Proof.
  revert in_run. induction s as [|x s IH]; intros in_run; simpl; [tauto|].
  destruct (Profiles.is_separator x) eqn:E.
  - destruct in_run; simpl.
    + intros H. destruct (IH _ H) as [[?|?] ?]; auto.
    + intros [<- | H]; [split; [auto | reflexivity]|].
      destruct (IH _ H) as [[?|?] ?]; auto.
  - simpl. intros [<- | H]; [auto|].
    destruct (IH _ H) as [[?|?] ?]; auto.
Qed.

Lemma join_separators_fixed (s : pystr) :
  Forall (fun c => Profiles.is_separator c = false) s ->
  Profiles.join_separators false s = s.
Proof.
  induction 1 as [|x s Hx _ IH]; simpl; [reflexivity|].
  rewrite Hx, IH. reflexivity.
Qed.

Lemma sanitize_chars (name : pystr) (c : N) :
  In c (sanitize name) ->
  (c = Profiles.underscore \/ In c (Interface.lower unicode_lower name)) /\
  word_char c = true /\ Profiles.is_separator c = false.
Proof.
  unfold Profiles._sanitize_name. cbv zeta. intros H.
  apply strip_underscores_incl in H.
  apply join_separators_chars in H as [H Hsep].
  assert (Hw : word_char c = true).
  { destruct H as [-> | H]; [reflexivity|].
    apply List.filter_In in H as [_ H].
    unfold Profiles.is_separator in Hsep.
    apply orb_false_iff in Hsep as [Hh Hs]. rewrite Hh, Hs in H.
    rewrite !orb_false_r in H. exact H. }
  split; [|auto].
  destruct H as [-> | H]; [auto|].
  apply List.filter_In in H as [H _]. auto.
Qed.

(** X18.  A sanitised profile name consists of word characters only:
    it holds no white space, no hyphen, no dot and no slash in either
    direction, and it neither begins nor ends with an underscore. *)
Theorem sanitized_name_is_plain (name : pystr) :
  (forall c, In c (sanitize name) ->
     word_char c = true /\ isspace c = false /\
     c <> 45%N /\ c <> 46%N /\ c <> 47%N /\ c <> 92%N) /\
  (forall c rest, sanitize name = c :: rest -> c <> 95%N) /\
  (forall c rest, sanitize name = rest ++ [c] -> c <> 95%N).
Proof.
  split; [|split].
  - intros c H. destruct (sanitize_chars name c H) as (_ & Hw & Hsep).
    unfold Profiles.is_separator in Hsep.
    apply orb_false_iff in Hsep as [Hh Hs].
    split; [exact Hw|]. split; [exact Hs|].
    repeat split; intros ->; discriminate.
  - intros c rest H. exact (strip_underscores_first _ _ _ H).
  - intros c rest H. exact (strip_underscores_last _ _ _ H).
Qed.

(** X19.  Sanitising is idempotent on ASCII names: the sanitised form
    of a name made of ASCII characters is left as it is when sanitised
    again. *)
Theorem sanitize_ascii_idempotent (name : pystr) :
  Forall (fun c => is_ascii c = true) name ->
  sanitize (sanitize name) = sanitize name.
Proof.
  intros Hascii.
  assert (Hchars : forall c, In c (sanitize name) ->
            (is_ascii c = true /\ is_upper c = false) /\
            word_char c = true /\ Profiles.is_separator c = false).
  { intros c H. destruct (sanitize_chars name c H) as ([-> | Hl] & Hw & Hs).
    - repeat split; reflexivity.
    - split; [exact (lower_ascii_chars unicode_lower name c Hascii Hl) | auto]. }
  set (out := sanitize name) in *.
  unfold Profiles._sanitize_name at 1. cbv zeta.
  rewrite lower_fixed
    by (apply List.Forall_forall; intros c H; apply (Hchars c H)).
  unfold Profiles.keep_name_chars. rewrite filter_all.
  2:{ apply forallb_forall. intros c H.
      destruct (Hchars c H) as (_ & -> & _). reflexivity. }
  rewrite join_separators_fixed
    by (apply List.Forall_forall; intros c H; apply (Hchars c H)).
  apply strip_underscores_fixed; subst out.
  - intros c rest H. exact (strip_underscores_first _ _ _ H).
  - intros c rest H. exact (strip_underscores_last _ _ _ H).
Qed.

End NameFacts.

Lemma sanitized_name_is_plain_witness :
  Interface.word_char (fun _ => false) 119 = true /\ isspace 119 = false /\
  119%N <> 45%N /\ 119%N <> 46%N /\ 119%N <> 47%N /\ 119%N <> 92%N.
Proof.
  apply (sanitized_name_is_plain (fun c => [c]) (fun _ => false)
           (py " My  Work-Notes: ../v2! ")).
  vm_compute. tauto.
Defined.

Lemma sanitize_ascii_idempotent_witness :
  Profiles._sanitize_name (fun c => [c]) (fun _ => false)
    (Profiles._sanitize_name (fun c => [c]) (fun _ => false)
       (py "My Work-Notes _"))
  = Profiles._sanitize_name (fun c => [c]) (fun _ => false)
      (py "My Work-Notes _").
Proof.
  apply (sanitize_ascii_idempotent (fun c => [c]) (fun _ => false)).
  repeat constructor.
Defined.

(** ** More on goodbye detection *)

Lemma lstrip_spaces (w x : pystr) :
  forallb isspace w = true -> lstrip (w ++ x) = lstrip x.
Proof.
  induction w as [|c w IH]; simpl; [reflexivity|]. intros H.
  apply andb_true_iff in H as [-> Hw]. auto.
Qed.

Lemma rstrip_spaces (x w : pystr) :
  forallb isspace w = true -> rstrip (x ++ w) = rstrip x.
Proof.
  intros H. unfold rstrip. rewrite rev_app_distr, lstrip_spaces; [reflexivity|].
  apply forallb_forall. intros c Hc. apply List.in_rev in Hc.
  exact (proj1 (forallb_forall _ _) H c Hc).
Qed.

Lemma strip_spaces (w1 x w2 : pystr) :
  forallb isspace w1 = true -> forallb isspace w2 = true ->
  strip (w1 ++ x ++ w2) = strip x.
Proof.
  intros H1 H2. unfold strip. rewrite (lstrip_spaces w1 _ H1).
  induction x as [|c x IH]; simpl.
  - rewrite <- (app_nil_r w2), (lstrip_spaces w2 [] H2). reflexivity.
  - destruct (isspace c); [exact IH|].
    exact (rstrip_spaces (c :: x) w2 H2).
Qed.

Section GoodbyeMore.

Variable unicode_lower : N -> pystr.
Variable unicode_alnum : N -> bool.

Local Abbreviation lower := (Interface.lower unicode_lower).
Local Abbreviation remove_punctuation :=
  (Interface.remove_punctuation unicode_alnum).
Local Abbreviation clean_text :=
  (Interface.clean_text unicode_lower unicode_alnum).
Local Abbreviation goodbye :=
  (Interface._is_goodbye_command unicode_lower unicode_alnum).

Lemma lower_spaces (w : pystr) :
  forallb Sample.is_ascii_space w = true ->
  lower w = w /\ remove_punctuation w = w /\ forallb isspace w = true.
Proof.
  induction w as [|c w IH]; simpl; [auto|]. intros H.
  apply andb_true_iff in H as [Hc Hw]. destruct (IH Hw) as (IH1 & IH2 & IH3).
  unfold Sample.is_ascii_space in Hc. apply andb_true_iff in Hc as [Ha Hs].
  change (lower (c :: w)) with (Interface.lower_char unicode_lower c ++ lower w).
  rewrite IH1, IH2, IH3, Hs, orb_true_r. unfold Interface.lower_char.
  rewrite Ha.
  assert (Hu : is_upper c = false).
  { unfold is_upper, between.
    destruct (N.leb_spec 65 c) as [H65|]; [|reflexivity].
    destruct (N.leb_spec c 90) as [H90|]; [|reflexivity].
    exfalso. unfold is_ascii in Ha. revert Hs.
    assert (Hc : In c (map N.of_nat (seq 65 26))).
    { apply in_map_iff. exists (N.to_nat c). split; [lia|].
      apply in_seq. lia. }
    vm_compute in Hc.
    repeat (destruct Hc as [<- | Hc]; [discriminate|]). destruct Hc. }
  rewrite Hu. auto.
Qed.

Lemma clean_text_punctuation (a p b : pystr) :
  forallb Sample.is_punctuation p = true ->
  clean_text (a ++ p ++ b) = clean_text (a ++ b).
Proof.
  intros Hp. unfold Interface.clean_text.
  rewrite !(lower_app unicode_lower), (lower_punctuation unicode_lower p Hp).
  rewrite !(remove_punctuation_app unicode_alnum).
  rewrite (remove_punctuation_all unicode_alnum p Hp). reflexivity.
Qed.

Lemma clean_text_spaces (w1 text w2 : pystr) :
  forallb Sample.is_ascii_space w1 = true ->
  forallb Sample.is_ascii_space w2 = true ->
  clean_text (w1 ++ text ++ w2) = clean_text text.
Proof.
  intros H1 H2. unfold Interface.clean_text.
  destruct (lower_spaces w1 H1) as (L1 & R1 & S1).
  destruct (lower_spaces w2 H2) as (L2 & R2 & S2).
  rewrite !(lower_app unicode_lower), L1, L2.
  rewrite !(remove_punctuation_app unicode_alnum), R1, R2.
  apply strip_spaces; assumption.
Qed.

End GoodbyeMore.

Lemma lower_char_ascii (ul1 ul2 : N -> pystr) (c : N) :
  is_ascii c = true ->
  Interface.lower_char ul1 c = Interface.lower_char ul2 c.
Proof. intros H. unfold Interface.lower_char. rewrite H. reflexivity. Qed.

Lemma lower_ascii (ul1 ul2 : N -> pystr) (text : pystr) :
  Forall (fun c => is_ascii c = true) text ->
  Interface.lower ul1 text = Interface.lower ul2 text.
Proof.
  induction 1 as [|c text Hc _ IH]; [reflexivity|].
  change (Interface.lower_char ul1 c ++ Interface.lower ul1 text
          = Interface.lower_char ul2 c ++ Interface.lower ul2 text).
  rewrite IH, (lower_char_ascii ul1 ul2 c Hc). reflexivity.
Qed.

Lemma clean_text_ascii (ul1 ul2 : N -> pystr) (ua1 ua2 : N -> bool)
    (text : pystr) :
  Forall (fun c => is_ascii c = true) text ->
  Interface.clean_text ul1 ua1 text = Interface.clean_text ul2 ua2 text.
Proof.
  intros H. unfold Interface.clean_text.
  rewrite (lower_ascii ul1 ul2 text H). f_equal.
  unfold Interface.remove_punctuation. apply List.filter_ext_in.
  intros c Hc. destruct (lower_ascii_chars ul2 text c H Hc) as [Ha _].
  unfold Interface.word_char. rewrite Ha. reflexivity.
Qed.



(** ** The wake word *)

Lemma is_prefix_app (p s : pystr) :
  is_prefix p s = true -> exists rest, s = p ++ rest.
Proof.
  revert s. induction p as [|a p IH]; intros s; simpl.
  - exists s. reflexivity.
  - destruct s as [|b s]; [discriminate|]. intros H.
    apply andb_true_iff in H as [E H]. apply N.eqb_eq in E. subst b.
    destruct (IH s H) as [rest ->]. exists rest. reflexivity.
Qed.

Lemma is_infix_In (p s : pystr) (c : N) :
  is_infix p s = true -> In c p -> In c s.
Proof.
  induction s as [|b s IH]; intros H Hc; simpl in H.
  - rewrite orb_false_r in H. apply is_prefix_app in H as [rest H].
    destruct p; [auto | discriminate].
  - apply orb_true_iff in H as [H | H].
    + apply is_prefix_app in H as [rest H]. rewrite H.
      apply in_or_app. auto.
    + right. auto.
Qed.

Lemma remove_marks_no_comma (s : pystr) :
  ~ In WakeWord.comma (WakeWord.remove_marks s).
Proof.
  unfold WakeWord.remove_marks, WakeWord.remove_char. intros H.
  repeat (apply List.filter_In in H as [H ?]). discriminate.
Qed.

Lemma comma_form_cases (wake_word : pystr) :
  In WakeWord.comma (WakeWord.comma_form wake_word) \/
  WakeWord.comma_form wake_word = wake_word.
Proof.
  induction wake_word as [|c w IH]; [right; reflexivity|].
  unfold WakeWord.comma_form. simpl.
  destruct (c =? WakeWord.space)%N; simpl; [left; auto|].
  destruct IH as [IH | IH]; [left; right; exact IH|].
  right. f_equal. exact IH.
Qed.

Lemma comma_check_covered (wake_word text : pystr) :
  is_infix (WakeWord.comma_form wake_word) (WakeWord.remove_marks text) = true ->
  is_infix wake_word (WakeWord.remove_marks text) = true.
Proof.
  intros H. destruct (comma_form_cases wake_word) as [Hc | E].
  - destruct (remove_marks_no_comma text (is_infix_In _ _ _ H Hc)).
  - rewrite <- E. exact H.
Qed.

(** X21.  The test for the wake word written with commas never
    decides: the text it is applied to holds no comma any more, so
    whenever it succeeds the plain containment test before it has
    succeeded too, and the answer is that of containment, the listed
    variations and the similarity test alone.  The similarity test
    in turn compares nothing when the text has fewer words than the
    wake word. *)
Theorem comma_test_never_decides (ratio : pystr -> pystr -> Q)
    (wake_word text : pystr) :
  (is_infix (WakeWord.comma_form wake_word) (WakeWord.remove_marks text) = true ->
   is_infix wake_word (WakeWord.remove_marks text) = true) /\
  WakeWord.matches ratio wake_word text
  = is_infix wake_word (WakeWord.remove_marks text)
    || existsb (fun variation => is_infix variation (WakeWord.remove_marks text))
         (WakeWord.variations_of wake_word)
    || WakeWord.fuzzy_match ratio wake_word (WakeWord.remove_marks text) /\
  ((length (WakeWord.split (WakeWord.remove_marks text))
    < length (WakeWord.split wake_word))%nat ->
   WakeWord.fuzzy_match ratio wake_word (WakeWord.remove_marks text) = false).
Proof.
  split; [apply comma_check_covered|]. split.
  - unfold WakeWord.matches. cbv zeta.
    destruct (is_infix wake_word (WakeWord.remove_marks text)) eqn:E;
      [reflexivity|].
    destruct (is_infix (WakeWord.comma_form wake_word)
                (WakeWord.remove_marks text)) eqn:E';
      [|reflexivity].
    apply comma_check_covered in E'. congruence.
  - intros Hlt. unfold WakeWord.fuzzy_match. cbv zeta.
    replace (length (WakeWord.split (WakeWord.remove_marks text)) + 1
             - length (WakeWord.split wake_word))%nat with 0%nat by lia.
    reflexivity.
Qed.

Lemma comma_test_never_decides_witness :
  WakeWord.fuzzy_match (fun _ _ => 1%Q) (py "hey claude")
    (WakeWord.remove_marks (py "claude!")) = false.
Proof.
  apply (comma_test_never_decides (fun _ _ => 1%Q) (py "hey claude")
           (py "claude!")).
  vm_compute. lia.
Defined.

(** X22.  The wake word is not detected in silence: when no chunk
    exceeds the silence threshold before the clock passes the five
    seconds of the recording, [detect_wake_word] answers false,
    whatever the recognition model and the similarity measure. *)
Theorem wake_word_not_in_silence (unicode_lower : N -> pystr)
    (ratio : pystr -> pystr -> Q) (fsqrt : Q -> Q) (cfg : AudioConfig)
    (wake_word : pystr) (whisper_available tiny_model : bool)
    (recognise : list chunk -> option pystr) (start_time : Q)
    (pre rest : list Recorder.amp_event) (now : Q) (data : chunk) :
  Forall (Recorder.quiet fsqrt cfg) pre ->
  (5 < now - start_time)%Q ->
  WakeWord.detect_wake_word unicode_lower ratio fsqrt cfg wake_word
    whisper_available tiny_model recognise start_time
    (pre ++ Recorder.AChunk now data :: rest)
  = Recorder.Done false.
Proof.
  intros Hq Hlt. unfold WakeWord.detect_wake_word.
  unfold Recorder.record_with_amplitude.
  assert (H5 : ~ (5 == 0)%Q) by discriminate.
  rewrite (amp_loop_quiet_timeout fsqrt cfg (Some 5%Q) start_time pre rest now
             data 0%Z Hq (timed_out_true 5 start_time now H5 Hlt)).
  reflexivity.
Qed.

Lemma wake_word_not_in_silence_witness :
  WakeWord.detect_wake_word (fun c => [c]) (fun _ _ => 1%Q) Sample.sqrt_floor
    default_audio (py "hey claude") true true (fun _ => Some (py "hey claude"))
    0
    ([Recorder.AChunk 1 Sample.hum; Recorder.AChunk 3 Sample.still]
     ++ Recorder.AChunk 6 Sample.loud :: [])
  = Recorder.Done false.
Proof.
  apply (wake_word_not_in_silence (fun c => [c]) (fun _ _ => 1%Q)
           Sample.sqrt_floor default_audio (py "hey claude") true true
           (fun _ => Some (py "hey claude")) 0).
  - repeat constructor; vm_compute; discriminate.
  - reflexivity.
Defined.
